(** * Risk behaviour analysis engine (lib/risk-analysis)

    A shallow embedding of the analysis engine: [calculations.ts]
    (enrichment, per-risk formulas, combined scenarios), [analyzer.ts]
    (the orchestrator [analyzeRiskBehavior] with its roster-wide
    probability relaxation) and [validation.ts].

    Modelling decisions.
    - A JavaScript [number] is a rational ([Q]): arithmetic is exact, and
      equality of computed numbers is [Qeq] ([==]).  A division whose
      divisor is a program value goes through [div], which answers [None]
      where JavaScript would produce a non-finite value (x/0); divisions
      by the literal [100] are plain.  A function that contains such a
      division returns an [option].
    - The rationals have no infinity and no NaN and do not round.  A
      property that a double can break by overflowing, or by rounding
      next to a threshold, is stated for magnitudes and margins that keep
      the double computation clear of both ([moderate], and the bounds
      written in the statements).  The behaviour score, whose clamp lets
      NaN through, is also given over the doubles themselves
      ([Binary64]).
    - A JavaScript string is the list of its UTF-16 code units.
    - [new Date(s).getTime()] is implementation-defined for most inputs;
      it is a parameter [Date_parse] ([None] is the invalid date, NaN).
    - Objects that are mutated or copied ([Risk], [Activity] records held
      in the caller's arrays) live in a store indexed by location; the
      orchestrator is modelled over that store. *)

From Stdlib Require Import ZArith NArith QArith Qround Qminmax Qabs Lqa Lia List String Ascii Permutation Sorted Floats.
From stdpp Require Import base option numbers list.

Open Scope Q_scope.

(* Decimal literals of the source that are not doubles stand for the nearest
   double, as in JavaScript. *)
Set Warnings "-inexact-float".

(** ** Numbers *)

Definition Qltb (a b : Q) : bool := negb (Qle_bool b a).

(** [a / b] for a divisor that is not a literal. *)
Definition div (a b : Q) : option Q :=
  if Qeq_bool b 0 then None else Some (a / b).

Definition ofNat (n : nat) : Q := inject_Z (Z.of_nat n).

(** [Math.max(1, ...xs)] on counts. *)
Definition maxFrom (init : nat) (xs : list nat) : nat :=
  fold_left Nat.max xs init.

(** ** Strings *)

Definition jsstring := list N.

(** An ASCII literal as a JavaScript string. *)
Definition lit (s : string) : jsstring :=
  map N_of_ascii (list_ascii_of_string s).

(** ECMAScript WhiteSpace and LineTerminator code units, the ones
    [String.prototype.trim] strips. *)
Definition isWhiteSpace (c : N) : bool :=
  ((9 <=? c) && (c <=? 13) || (c =? 32) || (c =? 160) || (c =? 5760)
   || (8192 <=? c) && (c <=? 8202) || (c =? 8232) || (c =? 8233)
   || (c =? 8239) || (c =? 8287) || (c =? 12288) || (c =? 65279))%N.

Fixpoint trimStart (s : jsstring) : jsstring :=
  match s with
  | [] => []
  | c :: s' => if isWhiteSpace c then trimStart s' else s
  end.

Definition trimEnd (s : jsstring) : jsstring := rev (trimStart (rev s)).

Definition trim (s : jsstring) : jsstring := trimEnd (trimStart s).

(** Truthiness of a string: only the empty string is falsy. *)
Definition truthy (s : jsstring) : bool :=
  match s with [] => false | _ => true end.

(** [a === b] on strings. *)
Definition streq (a b : jsstring) : bool := bool_decide (a = b).

(** [xs.includes(x)] on an array of strings. *)
Definition includes (xs : list jsstring) (x : jsstring) : bool :=
  existsb (streq x) xs.

(** ** Data model ([types.ts]) *)

Module Activity.
Record t := mk {
  id : jsstring;
  title : jsstring;
  level : Z;
  start : jsstring;
  end_ : jsstring;
  cost : Q;
  durationDays : option Q;
  baselineCost : option Q
}.
End Activity.

Inductive RelationType := dependency | concurrent.

Module RiskRelation.
Record t := mk {
  riskId : jsstring;
  relationType : RelationType;
  strength : option Q
}.
End RiskRelation.

Module Risk.
Record t := mk {
  id : jsstring;
  title : jsstring;
  probability : Q;
  timeImpactPercent : Q;
  costImpactPercent : Q;
  scopeImpactPercent : Q;
  category : jsstring;
  trigger : jsstring;
  responsePlan : jsstring;
  relatedRisks : list RiskRelation.t;
  affectedActivities : list jsstring
}.

(** [{ ...r, probability: p }] *)
Definition withProbability (p : Q) (r : t) : t :=
  mk (id r) (title r) p (timeImpactPercent r) (costImpactPercent r)
     (scopeImpactPercent r) (category r) (trigger r) (responsePlan r)
     (relatedRisks r) (affectedActivities r).

(** [{ ...r, trigger: s }] *)
Definition withTrigger (s : jsstring) (r : t) : t :=
  mk (id r) (title r) (probability r) (timeImpactPercent r)
     (costImpactPercent r) (scopeImpactPercent r) (category r) s
     (responsePlan r) (relatedRisks r) (affectedActivities r).
End Risk.

Module Sensitivity.
Record t := mk {
  probabilitySensitivity : Q;
  timeImpactSensitivity : Q;
  costImpactSensitivity : Q;
  scopeImpactSensitivity : Q
}.
End Sensitivity.

Module Recommendation.
Record t := mk { action : jsstring; ROI : option Q }.
End Recommendation.

Module RiskAnalysisOutput.
Record t := mk {
  riskId : jsstring;
  title : jsstring;
  affectedDurationSum : Q;
  affectedCostSum : Q;
  addedDays : Q;
  expectedTimeImpact : Q;
  addedCost : Q;
  expectedCostImpact : Q;
  scopeChangeRatio : Q;
  propagatedProbability : Q;
  behaviorScore : Q;
  sensitivity : Sensitivity.t;
  recommendations : list Recommendation.t
}.
End RiskAnalysisOutput.

Module CombinedScenario.
Record t := mk {
  riskIds : list jsstring;
  combinedTimeImpactPercent : Q;
  combinedCostImpactPercent : Q;
  combinedExpectedTimeImpact : Q;
  combinedExpectedCostImpact : Q
}.
End CombinedScenario.

Module PropagationResult.
Record t := mk {
  riskId : jsstring;
  originalProbability : Q;
  finalProbability : Q;
  propagationPath : list jsstring
}.
End PropagationResult.

Module ValidationError.
Record t := mk { field : jsstring; message : jsstring }.
End ValidationError.

(** ** Object store

    [Risk] and [Activity] objects are held by reference: the caller's
    arrays, and the arrays the orchestrator builds, are lists of
    locations into the store.  A location is an index; a fresh object is
    put at the end. *)

Abbreviation loc := nat.

Module Store.
Record t := mk { risks : list Risk.t; activities : list Activity.t }.
End Store.

Module Input.
Record t := mk { activities : list loc; risks : list loc }.
End Input.

(** [MonteCarloOutput] is left abstract: the simulator is not modelled. *)
Module AnalysisOutput.
Record t (MonteCarloOutput : Type) := mk {
  perRiskAnalysis : list RiskAnalysisOutput.t;
  combinedScenarios : list CombinedScenario.t;
  propagationResults : list PropagationResult.t;
  topRisksByBehaviorScore : list RiskAnalysisOutput.t;
  topRisksByExpectedImpact : list RiskAnalysisOutput.t;
  monteCarlo : option MonteCarloOutput
}.
Arguments mk {MonteCarloOutput}.
Arguments perRiskAnalysis {MonteCarloOutput}.
Arguments combinedScenarios {MonteCarloOutput}.
Arguments propagationResults {MonteCarloOutput}.
Arguments topRisksByBehaviorScore {MonteCarloOutput}.
Arguments topRisksByExpectedImpact {MonteCarloOutput}.
Arguments monteCarlo {MonteCarloOutput}.
End AnalysisOutput.

(** ** Relation counts *)

(** [r.relatedRisks.some((rel) => rel.riskId === id)] *)
Definition references (id : jsstring) (r : Risk.t) : bool :=
  existsb (fun rel => streq (RiskRelation.riskId rel) id) (Risk.relatedRisks r).

(** Outgoing plus incoming relations of [r] in the roster. *)
Definition degreeOf (allRisks : list Risk.t) (r : Risk.t) : nat :=
  (length (Risk.relatedRisks r)
   + length (List.filter (references (Risk.id r)) allRisks))%nat.

(** ** The behaviour score over binary64

    [calculateBehaviorScore] and the functions it calls, with the numbers
    as IEEE 754 doubles, which is what a JavaScript [number] is: here an
    operation can overflow to an infinity and produce NaN.  The functions
    read no numeric field of a risk or an activity, so the records are
    the ones above. *)
Module Binary64.

Local Open Scope float_scope.

(** A count as a number. *)
Definition ofNat (n : nat) : float := of_uint63 (Uint63.of_Z (Z.of_nat n)).

(** [Math.min(x, y)]: NaN when either is NaN; -0 is below +0. *)
Definition Math_min (x y : float) : float :=
  if is_nan x || is_nan y then nan
  else if x <? y then x
  else if y <? x then y
  else if get_sign x then x else y.

(** [Math.max(x, y)]: NaN when either is NaN; +0 is above -0. *)
Definition Math_max (x y : float) : float :=
  if is_nan x || is_nan y then nan
  else if x <? y then y
  else if y <? x then x
  else if get_sign x then y else x.

Definition calculateDependencyCentrality (risk : Risk.t) (allRisks : list Risk.t)
  : float :=
  let degree := degreeOf allRisks risk in
  let maxDegree := maxFrom 1 (map (degreeOf allRisks) allRisks) in
  ofNat degree / ofNat maxDegree * 100.

Definition calculateTimeSensitivityFlag (risk : Risk.t)
    (activities : list Activity.t) : float :=
  let affectedActivities :=
    List.filter (fun a => includes (Risk.affectedActivities risk) (Activity.id a))
           activities in
  let hasFinalActivity :=
    existsb (fun a => (Activity.level a =? 1)%Z) affectedActivities in
  if hasFinalActivity then 1 else 0.

Definition calculateDetectabilityScore (risk : Risk.t) : float :=
  if truthy (Risk.trigger risk)
     && (0 <? length (trim (Risk.trigger risk)))%nat
  then 1 else 0.5.

Definition normalizeValue (value maxValue : float) : float :=
  if maxValue =? 0 then 0 else value / maxValue * 100.

Definition calculateBehaviorScore (risk : Risk.t)
    (expectedTimeImpact expectedCostImpact : float)
    (allRisks : list Risk.t) (activities : list Activity.t)
    (maxExpectedTimeImpact maxExpectedCostImpact : float) : float :=
  let normalizedTimeImpact :=
    normalizeValue expectedTimeImpact maxExpectedTimeImpact in
  let normalizedCostImpact :=
    normalizeValue expectedCostImpact maxExpectedCostImpact in
  let dependencyCentrality := calculateDependencyCentrality risk allRisks in
  let timeSensitivityFlag := calculateTimeSensitivityFlag risk activities in
  let detectabilityScore := calculateDetectabilityScore risk in
  let behaviorScore :=
    0.35 * normalizedTimeImpact
    + 0.25 * normalizedCostImpact
    + 0.2 * dependencyCentrality
    + 0.15 * timeSensitivityFlag * 100
    - 0.05 * detectabilityScore * 100 in
  Math_max 0 (Math_min 100 behaviorScore).

End Binary64.


Section Engine.

(** [new Date(s).getTime()]: milliseconds since the epoch, [None] for an
    invalid date. *)
Variable Date_parse : jsstring -> option Z.

(** ** [calculations.ts] *)

Definition calculateDurationDays (start end_ : jsstring) : Q :=
  if negb (truthy start) || negb (truthy end_)
     || streq (trim start) [] || streq (trim end_) []
  then 0
  else
    match Date_parse start, Date_parse end_ with
    | Some startTime, Some endTime =>
        let diffTime := inject_Z (endTime - startTime) in
        Qmax 0 (inject_Z (Qceiling (diffTime / inject_Z (1000 * 60 * 60 * 24))))
    | _, _ => 0
    end.

Definition enrichActivity (activity : Activity.t) : Activity.t :=
  let durationDays :=
    if (Activity.level activity =? 2)%Z && truthy (Activity.start activity)
       && truthy (Activity.end_ activity)
    then calculateDurationDays (Activity.start activity) (Activity.end_ activity)
    else 0 in
  Activity.mk (Activity.id activity) (Activity.title activity)
    (Activity.level activity) (Activity.start activity)
    (Activity.end_ activity) (Activity.cost activity)
    (Some durationDays) (Some (Activity.cost activity)).

Definition enrichActivities (activities : list Activity.t) : list Activity.t :=
  map enrichActivity activities.

(** [a.durationDays ?? calculateDurationDays(a.start, a.end)] *)
Definition durationOf (a : Activity.t) : Q :=
  match Activity.durationDays a with
  | Some d => d
  | None => calculateDurationDays (Activity.start a) (Activity.end_ a)
  end.

(** The reducer shared by the duration sums. *)
Definition addDuration (sum : Q) (a : Activity.t) : Q :=
  if (Activity.level a =? 2)%Z && truthy (Activity.start a)
     && truthy (Activity.end_ a)
  then sum + durationOf a
  else sum.

(** [a.baselineCost ?? a.cost] *)
Definition costOf (a : Activity.t) : Q :=
  match Activity.baselineCost a with
  | Some c => c
  | None => Activity.cost a
  end.

Definition affectedLevel2 (risk : Risk.t) (activities : list Activity.t)
  : list Activity.t :=
  List.filter (fun a => includes (Risk.affectedActivities risk) (Activity.id a)
                   && (Activity.level a =? 2)%Z) activities.

Definition getAffectedDurationSum (risk : Risk.t) (activities : list Activity.t) : Q :=
  fold_left addDuration (affectedLevel2 risk activities) 0.

Definition getAffectedCostSum (risk : Risk.t) (activities : list Activity.t) : Q :=
  fold_left (fun sum a => sum + costOf a) (affectedLevel2 risk activities) 0.

(** Returns [(addedDays, expectedTimeImpact)]. *)
Definition calculateTimeImpact (risk : Risk.t) (affectedDurationSum : Q) : Q * Q :=
  let addedDays := affectedDurationSum * (Risk.timeImpactPercent risk / 100) in
  let expectedTimeImpact := addedDays * (Risk.probability risk / 100) in
  (addedDays, expectedTimeImpact).

(** Returns [(addedCost, expectedCostImpact)]. *)
Definition calculateCostImpact (risk : Risk.t) (affectedCostSum : Q) : Q * Q :=
  let addedCost := affectedCostSum * (Risk.costImpactPercent risk / 100) in
  let expectedCostImpact := addedCost * (Risk.probability risk / 100) in
  (addedCost, expectedCostImpact).

Definition calculateScopeChangeRatio (risk : Risk.t) : Q :=
  Risk.scopeImpactPercent risk / 100.

Definition calculateSensitivity (risk : Risk.t)
    (affectedDurationSum affectedCostSum expectedTimeImpact expectedCostImpact : Q)
  : option Sensitivity.t :=
  probabilitySensitivity ←
    (if Qltb 0 (Risk.probability risk)
     then div expectedCostImpact (Risk.probability risk)
     else Some 0);
  let timeImpactSensitivity := affectedDurationSum / 100 in
  let costImpactSensitivity := affectedCostSum / 100 in
  let scopeImpactSensitivity := Risk.scopeImpactPercent risk / 100 in
  Some (Sensitivity.mk probabilitySensitivity timeImpactSensitivity
          costImpactSensitivity scopeImpactSensitivity).

Definition calculateDependencyCentrality (risk : Risk.t) (allRisks : list Risk.t)
  : option Q :=
  let degree := degreeOf allRisks risk in
  let maxDegree := maxFrom 1 (map (degreeOf allRisks) allRisks) in
  ratio ← div (ofNat degree) (ofNat maxDegree);
  Some (ratio * 100).

Definition calculateTimeSensitivityFlag (risk : Risk.t) (activities : list Activity.t) : Q :=
  let affectedActivities :=
    List.filter (fun a => includes (Risk.affectedActivities risk) (Activity.id a))
           activities in
  let hasFinalActivity :=
    existsb (fun a => (Activity.level a =? 1)%Z) affectedActivities in
  if hasFinalActivity then 1 else 0.

Definition calculateDetectabilityScore (risk : Risk.t) : Q :=
  if truthy (Risk.trigger risk)
     && (0 <? length (trim (Risk.trigger risk)))%nat
  then 1 else 0.5.

Definition normalizeValue (value maxValue : Q) : option Q :=
  if Qeq_bool maxValue 0 then Some 0
  else ratio ← div value maxValue; Some (ratio * 100).

Definition calculateBehaviorScore (risk : Risk.t)
    (expectedTimeImpact expectedCostImpact : Q)
    (allRisks : list Risk.t) (activities : list Activity.t)
    (maxExpectedTimeImpact maxExpectedCostImpact : Q) : option Q :=
  normalizedTimeImpact ← normalizeValue expectedTimeImpact maxExpectedTimeImpact;
  normalizedCostImpact ← normalizeValue expectedCostImpact maxExpectedCostImpact;
  dependencyCentrality ← calculateDependencyCentrality risk allRisks;
  let timeSensitivityFlag := calculateTimeSensitivityFlag risk activities in
  let detectabilityScore := calculateDetectabilityScore risk in
  let behaviorScore :=
    0.35 * normalizedTimeImpact
    + 0.25 * normalizedCostImpact
    + 0.2 * dependencyCentrality
    + 0.15 * timeSensitivityFlag * 100
    - 0.05 * detectabilityScore * 100 in
  Some (Qmax 0 (Qmin 100 behaviorScore)).

Definition calculateSingleRisk (risk : Risk.t) (activities : list Activity.t)
    (allRisks : list Risk.t) (maxExpectedTimeImpact maxExpectedCostImpact : Q)
  : option RiskAnalysisOutput.t :=
  let affectedDurationSum := getAffectedDurationSum risk activities in
  let affectedCostSum := getAffectedCostSum risk activities in
  let '(addedDays, expectedTimeImpact) :=
    calculateTimeImpact risk affectedDurationSum in
  let '(addedCost, expectedCostImpact) :=
    calculateCostImpact risk affectedCostSum in
  let scopeChangeRatio := calculateScopeChangeRatio risk in
  sensitivity ← calculateSensitivity risk affectedDurationSum affectedCostSum
                   expectedTimeImpact expectedCostImpact;
  behaviorScore ← calculateBehaviorScore risk expectedTimeImpact
                     expectedCostImpact allRisks activities
                     maxExpectedTimeImpact maxExpectedCostImpact;
  Some (RiskAnalysisOutput.mk (Risk.id risk) (Risk.title risk)
          affectedDurationSum affectedCostSum addedDays expectedTimeImpact
          addedCost expectedCostImpact scopeChangeRatio
          (Risk.probability risk) behaviorScore sensitivity []).

Definition zeroScenario (riskIds : list jsstring) : CombinedScenario.t :=
  CombinedScenario.mk riskIds 0 0 0 0.

Definition calculateCombinedImpact (riskIds : list jsstring)
    (risks : list Risk.t) (activities : list Activity.t)
  : option CombinedScenario.t :=
  let selectedRisks := List.filter (fun r => includes riskIds (Risk.id r)) risks in
  let commonActivities :=
    List.filter (fun a =>
              forallb (fun r => includes (Risk.affectedActivities r) (Activity.id a))
                      selectedRisks
              && (Activity.level a =? 2)%Z) activities in
  if (length commonActivities =? 0)%nat then Some (zeroScenario riskIds)
  else
    let combinedTimeImpactPercent :=
      Qmin 200 (fold_left (fun sum r => sum + Risk.timeImpactPercent r) selectedRisks 0) in
    let combinedCostImpactPercent :=
      Qmin 200 (fold_left (fun sum r => sum + Risk.costImpactPercent r) selectedRisks 0) in
    let affectedDurationSum := fold_left addDuration commonActivities 0 in
    let affectedCostSum :=
      fold_left (fun sum a => sum + costOf a) commonActivities 0 in
    avgProbability ←
      div (fold_left (fun sum r => sum + Risk.probability r) selectedRisks 0)
          (ofNat (length selectedRisks));
    let combinedAddedDays := affectedDurationSum * (combinedTimeImpactPercent / 100) in
    let combinedExpectedTimeImpact := combinedAddedDays * (avgProbability / 100) in
    let combinedAddedCost := affectedCostSum * (combinedCostImpactPercent / 100) in
    let combinedExpectedCostImpact := combinedAddedCost * (avgProbability / 100) in
    Some (CombinedScenario.mk riskIds combinedTimeImpactPercent
            combinedCostImpactPercent combinedExpectedTimeImpact
            combinedExpectedCostImpact).

(** ** [validation.ts] *)

Definition error (field message : jsstring) : ValidationError.t :=
  ValidationError.mk field message.

(** [errors.push(e)] when [cond] holds. *)
Definition pushIf (cond : bool) (e : ValidationError.t)
    (errors : list ValidationError.t) : list ValidationError.t :=
  if cond then errors ++ [e] else errors.

(** [!s || s.trim().length === 0] *)
Definition blank (s : jsstring) : bool :=
  negb (truthy s) || (length (trim s) =? 0)%nat.

(** [endDate < startDate] on two [Date] objects; false when either is
    invalid. *)
Definition dateBefore (end_ start : jsstring) : bool :=
  match Date_parse start, Date_parse end_ with
  | Some startTime, Some endTime => (endTime <? startTime)%Z
  | _, _ => false
  end.

Definition validateActivity (activity : Activity.t) : list ValidationError.t :=
  let errors := [] in
  let errors :=
    pushIf (blank (Activity.id activity))
      (error (lit "id") (lit "Activity ID is required")) errors in
  let errors :=
    pushIf (blank (Activity.title activity))
      (error (lit "title") (lit "Activity title is required")) errors in
  let errors :=
    pushIf (negb (truthy (Activity.start activity)))
      (error (lit "start") (lit "Start date is required")) errors in
  let errors :=
    pushIf (negb (truthy (Activity.end_ activity)))
      (error (lit "end") (lit "End date is required")) errors in
  let errors :=
    pushIf (truthy (Activity.start activity) && truthy (Activity.end_ activity)
            && dateBefore (Activity.end_ activity) (Activity.start activity))
      (error (lit "end") (lit "End date must be >= start date")) errors in
  let errors :=
    pushIf (Qltb (Activity.cost activity) 0)
      (error (lit "cost") (lit "Cost must be >= 0")) errors in
  let errors :=
    pushIf (negb (Activity.level activity =? 1)%Z
            && negb (Activity.level activity =? 2)%Z)
      (error (lit "level") (lit "Level must be 1 or 2")) errors in
  errors.

Definition validateRisk (risk : Risk.t) (allActivityIds : list jsstring)
  : list ValidationError.t :=
  let errors := [] in
  let errors :=
    pushIf (blank (Risk.id risk))
      (error (lit "id") (lit "Risk ID is required")) errors in
  let errors :=
    pushIf (blank (Risk.title risk))
      (error (lit "title") (lit "Risk title is required")) errors in
  let errors :=
    pushIf (Qltb (Risk.probability risk) 0 || Qltb 100 (Risk.probability risk))
      (error (lit "probability") (lit "Probability must be between 0 and 100"))
      errors in
  let errors :=
    pushIf (Qltb (Risk.timeImpactPercent risk) 0)
      (error (lit "timeImpactPercent") (lit "Time impact must be >= 0")) errors in
  let errors :=
    pushIf (Qltb (Risk.costImpactPercent risk) 0)
      (error (lit "costImpactPercent") (lit "Cost impact must be >= 0")) errors in
  let errors :=
    fold_left
      (fun errors activityId =>
         pushIf (negb (includes allActivityIds activityId))
           (error (lit "affectedActivities")
              (lit "Activity " ++ activityId ++ lit " does not exist")) errors)
      (Risk.affectedActivities risk) errors in
  let errors :=
    fold_left
      (fun errors relation =>
         pushIf (match RiskRelation.strength relation with
                 | Some strength => Qltb strength 0 || Qltb 1 strength
                 | None => false
                 end)
           (error (lit "relatedRisks")
              (lit "Relation strength must be between 0 and 1 for "
               ++ RiskRelation.riskId relation)) errors)
      (Risk.relatedRisks risk) errors in
  errors.

(** A [Set<string>] as the list of its members in insertion order. *)
Definition setAdd (s : list jsstring) (x : jsstring) : list jsstring :=
  if includes s x then s else s ++ [x].

(** Body of the loop over [input.activities]; the state is
    [(errors, activityIds)]. *)
Definition validateActivityStep
    (state : list ValidationError.t * list jsstring) (activity : Activity.t)
  : list ValidationError.t * list jsstring :=
  let '(errors, activityIds) := state in
  let errors := errors ++ validateActivity activity in
  let errors :=
    pushIf (includes activityIds (Activity.id activity))
      (error (lit "activities")
         (lit "Duplicate activity ID: " ++ Activity.id activity)) errors in
  (errors, setAdd activityIds (Activity.id activity)).

(** Body of the loop over [input.risks]; the state is [(errors, riskIds)]. *)
Definition validateRiskStep (allActivityIds : list jsstring)
    (state : list ValidationError.t * list jsstring) (risk : Risk.t)
  : list ValidationError.t * list jsstring :=
  let '(errors, riskIds) := state in
  let errors := errors ++ validateRisk risk allActivityIds in
  let errors :=
    pushIf (includes riskIds (Risk.id risk))
      (error (lit "risks") (lit "Duplicate risk ID: " ++ Risk.id risk))
      errors in
  let riskIds := setAdd riskIds (Risk.id risk) in
  let errors :=
    pushIf (length (Risk.affectedActivities risk) =? 0)%nat
      (error (lit "risks")
         (lit "Risk " ++ Risk.id risk
          ++ lit " must have at least one affected activity")) errors in
  (errors, riskIds).

(** [validateInput] reads the two arrays of [input]; it is given the
    objects they hold. *)
Definition validateInput (activities : list Activity.t) (risks : list Risk.t)
  : list ValidationError.t :=
  let errors := [] in
  let errors :=
    pushIf (length activities =? 0)%nat
      (error (lit "activities") (lit "At least one activity is required"))
      errors in
  let errors :=
    pushIf (length risks =? 0)%nat
      (error (lit "risks") (lit "At least one risk is required")) errors in
  let '(errors, activityIds) :=
    fold_left validateActivityStep activities (errors, []) in
  let allActivityIds := activityIds in
  let '(errors, _) :=
    fold_left (validateRiskStep allActivityIds) risks (errors, []) in
  errors.

(** Stable sort, as [Array.prototype.sort] with a comparator under which
    [a] stays before [b] when [before a b]. *)
Fixpoint insertSorted {A} (before : A -> A -> bool) (x : A) (l : list A) : list A :=
  match l with
  | [] => [x]
  | y :: l' => if before x y then x :: l else y :: insertSorted before x l'
  end.

Definition sortBy {A} (before : A -> A -> bool) (l : list A) : list A :=
  fold_right (insertSorted before) [] l.

(** Left fold of a step that may leave the model. *)
Fixpoint foldM {S A} (f : S -> A -> option S) (s : S) (l : list A) : option S :=
  match l with
  | [] => Some s
  | x :: l' => s' ← f s x; foldM f s' l'
  end.

(** ** [analyzer.ts] *)

(** [propagatedRisks.find((r) => r.id === id)]: the location of the first
    object with that id. *)
Fixpoint findRisk (objs : list Risk.t) (locs : list loc) (id : jsstring)
  : option (option loc) :=
  match locs with
  | [] => Some None
  | l :: locs' =>
      r ← objs !! l;
      if streq (Risk.id r) id then Some (Some l) else findRisk objs locs' id
  end.

(** Body of the loop over [otherRisk] for the target [id], whose working
    object is [currentRisk]. *)
Definition relaxFrom (id : jsstring) (currentRisk : loc)
    (objs : list Risk.t) (otherRisk : loc) : option (list Risk.t) :=
  other ← objs !! otherRisk;
  match find (fun rel => streq (RiskRelation.riskId rel) id)
             (Risk.relatedRisks other) with
  | Some relation =>
      let strength := default 0.3 (RiskRelation.strength relation) in
      let probabilityIncrease := strength * Risk.probability other in
      if Qltb 0.1 probabilityIncrease then
        current ← objs !! currentRisk;
        let newProbability :=
          Qmin 100 (Risk.probability current + probabilityIncrease) in
        Some (alter (Risk.withProbability newProbability) currentRisk objs)
      else Some objs
  | None => Some objs
  end.

(** Body of the loop over [risk of input.risks]. *)
Definition relaxRisk (propagatedRisks : list loc)
    (objs : list Risk.t) (risk : loc) : option (list Risk.t) :=
  r ← objs !! risk;
  currentRisk ← findRisk objs propagatedRisks (Risk.id r);
  match currentRisk with
  | None => Some objs
  | Some currentRisk =>
      foldM (relaxFrom (Risk.id r) currentRisk) objs propagatedRisks
  end.

(** [for (let pass = 0; pass < 3; pass++)] *)
Definition relaxation (inputRisks propagatedRisks : list loc)
    (objs : list Risk.t) : option (list Risk.t) :=
  foldM (fun objs (pass : nat) => foldM (relaxRisk propagatedRisks) objs inputRisks)
        objs (seq 0 3).

(** [perRiskAnalysis.findIndex((a) => a.riskId === id)] *)
Fixpoint findAnalysisIndex (id : jsstring) (analyses : list RiskAnalysisOutput.t)
  : option nat :=
  match analyses with
  | [] => None
  | a :: rest =>
      if streq (RiskAnalysisOutput.riskId a) id then Some 0%nat
      else S <$> findAnalysisIndex id rest
  end.

Definition withPropagatedProbability (p : Q) (a : RiskAnalysisOutput.t)
  : RiskAnalysisOutput.t :=
  RiskAnalysisOutput.mk (RiskAnalysisOutput.riskId a) (RiskAnalysisOutput.title a)
    (RiskAnalysisOutput.affectedDurationSum a) (RiskAnalysisOutput.affectedCostSum a)
    (RiskAnalysisOutput.addedDays a) (RiskAnalysisOutput.expectedTimeImpact a)
    (RiskAnalysisOutput.addedCost a) (RiskAnalysisOutput.expectedCostImpact a)
    (RiskAnalysisOutput.scopeChangeRatio a) p
    (RiskAnalysisOutput.behaviorScore a) (RiskAnalysisOutput.sensitivity a)
    (RiskAnalysisOutput.recommendations a).

(** [{ ...analysis, addedDays, expectedTimeImpact, addedCost, expectedCostImpact }] *)
Definition withImpacts (addedDays expectedTimeImpact addedCost expectedCostImpact : Q)
    (a : RiskAnalysisOutput.t) : RiskAnalysisOutput.t :=
  RiskAnalysisOutput.mk (RiskAnalysisOutput.riskId a) (RiskAnalysisOutput.title a)
    (RiskAnalysisOutput.affectedDurationSum a) (RiskAnalysisOutput.affectedCostSum a)
    addedDays expectedTimeImpact addedCost expectedCostImpact
    (RiskAnalysisOutput.scopeChangeRatio a)
    (RiskAnalysisOutput.propagatedProbability a)
    (RiskAnalysisOutput.behaviorScore a) (RiskAnalysisOutput.sensitivity a)
    (RiskAnalysisOutput.recommendations a).

(** Body of the loop that creates the propagation results; the state is
    [(propagationResults, perRiskAnalysis)]. *)
Definition recordPropagation (objs : list Risk.t) (propagatedRisks : list loc)
    (state : list PropagationResult.t * list RiskAnalysisOutput.t) (risk : loc)
  : option (list PropagationResult.t * list RiskAnalysisOutput.t) :=
  let '(propagationResults, perRiskAnalysis) := state in
  r ← objs !! risk;
  propagated ← findRisk objs propagatedRisks (Risk.id r);
  match propagated with
  | None => Some state
  | Some propagated =>
      p ← objs !! propagated;
      let propagationResults :=
        propagationResults
        ++ [PropagationResult.mk (Risk.id r) (Risk.probability r)
              (Risk.probability p) []] in
      let perRiskAnalysis :=
        match findAnalysisIndex (Risk.id r) perRiskAnalysis with
        | Some analysisIndex =>
            alter (withPropagatedProbability (Risk.probability p))
                  analysisIndex perRiskAnalysis
        | None => perRiskAnalysis
        end in
      Some (propagationResults, perRiskAnalysis)
  end.

(** Step 6, at index [i]. *)
Definition recomputeImpacts (objs : list Risk.t) (propagatedRisks : list loc)
    (perRiskAnalysis : list RiskAnalysisOutput.t) (i : nat)
  : option RiskAnalysisOutput.t :=
  l ← propagatedRisks !! i;
  risk ← objs !! l;
  analysis ← perRiskAnalysis !! i;
  let affectedDurationSum := RiskAnalysisOutput.affectedDurationSum analysis in
  let affectedCostSum := RiskAnalysisOutput.affectedCostSum analysis in
  let addedDays := affectedDurationSum * (Risk.timeImpactPercent risk / 100) in
  let expectedTimeImpact := addedDays * (Risk.probability risk / 100) in
  let addedCost := affectedCostSum * (Risk.costImpactPercent risk / 100) in
  let expectedCostImpact := addedCost * (Risk.probability risk / 100) in
  Some (withImpacts addedDays expectedTimeImpact addedCost expectedCostImpact analysis).

Definition impactSum (a : RiskAnalysisOutput.t) : Q :=
  RiskAnalysisOutput.expectedTimeImpact a + RiskAnalysisOutput.expectedCostImpact a.

(** Comparator [impactB - impactA]: [a] stays first when it is not smaller. *)
Definition byExpectedImpact (a b : RiskAnalysisOutput.t) : bool :=
  Qle_bool (impactSum b) (impactSum a).

(** Comparator [b.behaviorScore - a.behaviorScore]. *)
Definition byBehaviorScore (a b : RiskAnalysisOutput.t) : bool :=
  Qle_bool (RiskAnalysisOutput.behaviorScore b) (RiskAnalysisOutput.behaviorScore a).

(** The index pairs [i < j] of the nested loop of step 7, in its order. *)
Definition indexPairs (n : nat) : list (nat * nat) :=
  flat_map (fun i => map (fun j => (i, j)) (seq (S i) (n - S i))) (seq 0 n).

(** The combinations of step 7: every pair of the top risks, then all
    three together. *)
Definition combineTop3 (top3Risks : list jsstring) (propagatedRisks : list Risk.t)
    (enrichedActivities : list Activity.t) : option (list CombinedScenario.t) :=
  if (2 <=? length top3Risks)%nat then
    pairs ←
      mapM (fun '(i, j) =>
              idI ← top3Risks !! i;
              idJ ← top3Risks !! j;
              calculateCombinedImpact [idI; idJ] propagatedRisks
                                      enrichedActivities)
           (indexPairs (length top3Risks));
    if (length top3Risks =? 3)%nat then
      triple ← calculateCombinedImpact top3Risks propagatedRisks
                                       enrichedActivities;
      Some (pairs ++ [triple])
    else Some pairs
  else Some [].

(** The Monte Carlo simulator draws from [Math.random]; for a given run
    of the random source it is a function of the values it reads. *)
Variable MonteCarloOutput : Type.
Variable runMonteCarloSimulation :
  list Risk.t -> list Activity.t -> Q -> option Q -> option Q -> MonteCarloOutput.

(** The orchestrator.  It returns the output and the store it leaves
    behind; [None] means that the run left the model (a location that
    holds no object, or a non-finite number).  The enriched activities
    and the analysis records are fresh objects that nothing assigns to
    after they are built, so they are read once; the risk objects are read
    where the code reads them. *)
Definition analyzeRiskBehavior (st : Store.t) (input : Input.t)
    (enableMonteCarlo : bool) (monteCarloIterations : Q)
    (deadline budget : option Q)
  : option (AnalysisOutput.t MonteCarloOutput * Store.t) :=
  (* Step 1: enrich activities; [map] builds new objects *)
  inputActivities ← mapM (fun l => Store.activities st !! l) (Input.activities input);
  let enrichedActivities := enrichActivities inputActivities in
  let activityObjs := Store.activities st ++ enrichedActivities in
  (* Step 2: initial pass with temporary maxima *)
  inputRisks ← mapM (fun l => Store.risks st !! l) (Input.risks input);
  initialAnalyses ←
    mapM (fun risk => calculateSingleRisk risk enrichedActivities inputRisks
                        1000 100000) inputRisks;
  (* Step 3: maxima for normalization *)
  let maxExpectedTimeImpact :=
    fold_left Qmax (map RiskAnalysisOutput.expectedTimeImpact initialAnalyses) 1 in
  let maxExpectedCostImpact :=
    fold_left Qmax (map RiskAnalysisOutput.expectedCostImpact initialAnalyses) 1 in
  (* Step 4: recalculate with the maxima *)
  perRiskAnalysis ←
    mapM (fun risk => calculateSingleRisk risk enrichedActivities inputRisks
                        maxExpectedTimeImpact maxExpectedCostImpact) inputRisks;
  (* Step 5: [input.risks.map((r) => ({ ...r }))], then the passes *)
  let propagatedRisks := seq (length (Store.risks st)) (length inputRisks) in
  let riskObjs := Store.risks st ++ inputRisks in
  riskObjs ← relaxation (Input.risks input) propagatedRisks riskObjs;
  '(propagationResults, perRiskAnalysis) ←
    foldM (recordPropagation riskObjs propagatedRisks) ([], perRiskAnalysis)
          (Input.risks input);
  (* Step 6: recalculate impacts with propagated probabilities *)
  perRiskAnalysis ←
    mapM (recomputeImpacts riskObjs propagatedRisks perRiskAnalysis)
         (seq 0 (length perRiskAnalysis));
  (* Step 7: combined scenarios of the top 3 risks *)
  let top3Risks :=
    map RiskAnalysisOutput.riskId
        (firstn 3 (sortBy byExpectedImpact perRiskAnalysis)) in
  propagatedValues ← mapM (fun l => riskObjs !! l) propagatedRisks;
  combinedScenarios ← combineTop3 top3Risks propagatedValues enrichedActivities;
  (* Step 8: the two rankings *)
  let topRisksByBehaviorScore := sortBy byBehaviorScore perRiskAnalysis in
  let topRisksByExpectedImpact := sortBy byExpectedImpact perRiskAnalysis in
  (* Step 9: optional Monte Carlo simulation *)
  let monteCarlo :=
    if enableMonteCarlo
    then Some (runMonteCarloSimulation propagatedValues enrichedActivities
                 monteCarloIterations deadline budget)
    else None in
  Some (AnalysisOutput.mk perRiskAnalysis combinedScenarios propagationResults
          topRisksByBehaviorScore topRisksByExpectedImpact monteCarlo,
        Store.mk riskObjs activityObjs).

(** ** [calculations.ts]: the single-source propagation *)

(** [propagateRisk(risk, allRisks, visited, depth, path)].  The recursive
    call is made only below depth 3 and at [depth + 1], so the recursion is
    on [4 - depth]; when that is 0 the depth is above 3 and the code
    returns at once.  The result is paired with the caller's [visited] set
    as the call leaves it ([visited.add] is on the caller's set; every
    recursive call is given a copy). *)
Fixpoint propagateRiskFuel (fuel : nat) (risk : Risk.t) (allRisks : list Risk.t)
    (visited : list jsstring) (depth : nat) (path : list jsstring)
  : PropagationResult.t * list jsstring :=
  let unchanged :=
    (PropagationResult.mk (Risk.id risk) (Risk.probability risk)
       (Risk.probability risk) path, visited) in
  match fuel with
  | O => unchanged
  | S fuel' =>
      if (3 <? depth)%nat || includes visited (Risk.id risk) then unchanged
      else
        let visited := setAdd visited (Risk.id risk) in
        let newPath := path ++ [Risk.id risk] in
        let finalProbability :=
          fold_left
            (fun finalProbability relation =>
               match find (fun r => streq (Risk.id r) (RiskRelation.riskId relation))
                          allRisks with
               | None => finalProbability
               | Some relatedRisk =>
                   let strength := default 0.3 (RiskRelation.strength relation) in
                   let probabilityIncrease := strength * Risk.probability risk in
                   if Qltb 0.1 probabilityIncrease then
                     let newProbability :=
                       Qmin 100 (Risk.probability relatedRisk + probabilityIncrease) in
                     if (depth <? 3)%nat
                        && Qltb 0.1 (Qabs (newProbability
                                           - Risk.probability relatedRisk))
                     then
                       let propagatedRelated :=
                         fst (propagateRiskFuel fuel'
                                (Risk.withProbability newProbability relatedRisk)
                                allRisks visited (depth + 1) newPath) in
                       Qmax finalProbability
                            (PropagationResult.finalProbability propagatedRelated)
                     else finalProbability
                   else finalProbability
               end)
            (Risk.relatedRisks risk) (Risk.probability risk) in
        (PropagationResult.mk (Risk.id risk) (Risk.probability risk)
           finalProbability newPath, visited)
  end.

Definition propagateRisk (risk : Risk.t) (allRisks : list Risk.t)
    (visited : list jsstring) (depth : nat) (path : list jsstring)
  : PropagationResult.t * list jsstring :=
  propagateRiskFuel (4 - depth) risk allRisks visited depth path.

(** ** [monte-carlo.ts]: the percentile of a sorted array *)

(** [sortedArray[Math.max(0, Math.min(index, n - 1))]]; an empty array
    gives [undefined], here [None]. *)
Definition percentile (sortedArray : list Q) (p : Q) : option Q :=
  let index :=
    (Qceiling (p / 100 * ofNat (length sortedArray)) - 1)%Z in
  sortedArray
    !! Z.to_nat (Z.max 0 (Z.min index (Z.of_nat (length sortedArray) - 1))).

(** ** Example inputs *)

(** A date parser for the examples: the date-only form [YYYY-MM-DD], as
    milliseconds since the epoch at midnight UTC. *)
Definition digit (c : N) : option Z :=
  if ((48 <=? c) && (c <=? 57))%N then Some (Z.of_N c - 48)%Z else None.

Definition daysFromCivil (y m d : Z) : Z :=
  let y' := (if m <=? 2 then y - 1 else y)%Z in
  let era := (y' / 400)%Z in
  let yoe := (y' - era * 400)%Z in
  let mp := ((m + 9) mod 12)%Z in
  let doy := ((153 * mp + 2) / 5 + d - 1)%Z in
  let doe := (yoe * 365 + yoe / 4 - yoe / 100 + doy)%Z in
  (era * 146097 + doe - 719468)%Z.

Definition sampleDateParse (s : jsstring) : option Z :=
  match s with
  | [y1; y2; y3; y4; 45%N; m1; m2; 45%N; d1; d2] =>
      y1 ← digit y1; y2 ← digit y2; y3 ← digit y3; y4 ← digit y4;
      m1 ← digit m1; m2 ← digit m2; d1 ← digit d1; d2 ← digit d2;
      let y := (1000 * y1 + 100 * y2 + 10 * y3 + y4)%Z in
      let m := (10 * m1 + m2)%Z in
      let d := (10 * d1 + d2)%Z in
      if ((1 <=? m) && (m <=? 12) && (1 <=? d) && (d <=? 31))%Z
      then Some (daysFromCivil y m d * 86400000)%Z
      else None
  | _ => None
  end.

(** The scenario of two enriched activities and one risk. *)
Definition exampleA1 : Activity.t :=
  Activity.mk (lit "A1") (lit "Foundation") 2 (lit "2024-01-01") (lit "2024-01-11")
    1000 (Some 10) (Some 1000).

Definition exampleA2 : Activity.t :=
  Activity.mk (lit "A2") (lit "Framing") 2 (lit "2024-01-11") (lit "2024-01-16")
    500 (Some 5) (Some 500).

Definition exampleR1 : Risk.t :=
  Risk.mk (lit "R1") (lit "Late delivery") 50 20 10 0 (lit "supply") []
    (lit "expedite") [] [lit "A1"; lit "A2"].

(** An artifact as the data-entry stage creates it, and a raw activity. *)
Definition exampleArtifact : Activity.t :=
  Activity.mk (lit "ART1") (lit "Structure") 1 [] [] 0 None None.

Definition exampleRawA1 : Activity.t :=
  Activity.mk (lit "A1") (lit "Foundation") 2 (lit "2024-01-01") (lit "2024-01-11")
    1000 None None.

(** Two risks whose affected activities are disjoint. *)
Definition exampleRa : Risk.t :=
  Risk.mk (lit "Ra") (lit "Weather") 30 10 5 0 (lit "site") (lit "forecast")
    [] [] [lit "A1"].

Definition exampleRb : Risk.t :=
  Risk.mk (lit "Rb") (lit "Permit") 40 15 0 0 (lit "legal") [] [] []
    [lit "A2"].

(** The relation scenario: R1 (probability 80) lists R2 with strength
    0.5; nothing else is related.  [p] is the probability of R2. *)
Definition scenarioR1 : Risk.t :=
  Risk.mk (lit "R1") (lit "Supplier failure") 80 0 0 0 [] [] []
    [RiskRelation.mk (lit "R2") dependency (Some 0.5)] [].

Definition scenarioR2 (p : Q) : Risk.t :=
  Risk.mk (lit "R2") (lit "Schedule slip") p 0 0 0 [] [] [] [] [].

Definition scenarioStore (p : Q) : Store.t :=
  Store.mk [scenarioR1; scenarioR2 p] [].

Definition scenarioInput : Input.t := Input.mk [] [0%nat; 1%nat].

(** A roster in which two risks carry the same id. *)
Definition duplicateFirst : Risk.t :=
  Risk.mk (lit "a") (lit "first") 10 0 0 0 [] [] [] [] [].

Definition duplicateSecond : Risk.t :=
  Risk.mk (lit "a") (lit "second") 50 0 0 0 [] [] [] [] [].

Definition duplicateStore : Store.t :=
  Store.mk [duplicateFirst; duplicateSecond] [].

Definition duplicateInput : Input.t := Input.mk [] [0%nat; 1%nat].

(** A store with the activities and the risk of the first example. *)
Definition exampleStore : Store.t :=
  Store.mk [exampleR1; exampleRa] [exampleArtifact; exampleRawA1].

Definition exampleInput : Input.t := Input.mk [0%nat; 1%nat] [0%nat; 1%nat].

(** ** Auxiliary definitions for the statements *)

(** The part of the behaviour score that does not depend on the trigger. *)
Definition rawWithoutDetectability (risk : Risk.t) (eti eci : Q)
    (allRisks : list Risk.t) (activities : list Activity.t) (maxT maxC : Q) : Q :=
  0.35 * (if Qeq_bool maxT 0 then 0 else eti / maxT * 100)
  + 0.25 * (if Qeq_bool maxC 0 then 0 else eci / maxC * 100)
  + 0.2 * (ofNat (degreeOf allRisks risk)
           / ofNat (maxFrom 1 (map (degreeOf allRisks) allRisks)) * 100)
  + 0.15 * calculateTimeSensitivityFlag risk activities * 100.

(** The array [locs] holds the objects [vals] of the store [objs]. *)
Definition holds {A} (objs : list A) (locs : list loc) (vals : list A) : Prop :=
  Forall2 (fun l v => objs !! l = Some v) locs vals.

(** The index of the first risk with the given id. *)
Fixpoint firstIndex (id : jsstring) (rs : list Risk.t) : option nat :=
  match rs with
  | [] => None
  | r :: rs' =>
      if streq (Risk.id r) id then Some 0%nat else S <$> firstIndex id rs'
  end.

(** What the relaxation may do to the working copy [c] of the risk [r]:
    only the probability changes, and from a starting value of at most
    100 it stays between that value and 100. *)
Definition propagatedFrom (r c : Risk.t) : Prop :=
  c = Risk.withProbability (Risk.probability c) r
  /\ (Risk.probability r <= 100 ->
      Risk.probability r <= Risk.probability c /\ Risk.probability c <= 100).

(** The store during the passes: the caller's objects [objs0], then the
    working copies of the risks [rs]. *)
Definition working (objs0 rs objs : list Risk.t) : Prop :=
  exists cs, objs = objs0 ++ cs /\ Forall2 propagatedFrom rs cs.

(** The locations of the working copies. *)
Definition workingLocs (objs0 rs : list Risk.t) : list loc :=
  seq (length objs0) (length rs).

(** The propagation result of [r] against the working copies [cs]. *)
Definition resultFor (cs : list Risk.t) (r : Risk.t) : option PropagationResult.t :=
  i ← firstIndex (Risk.id r) cs;
  c ← cs !! i;
  Some (PropagationResult.mk (Risk.id r) (Risk.probability r)
          (Risk.probability c) []).

(** ** Definitions for the further properties *)

(** The loop body of [propagateRisk] over one relation, with the
    recursive call as a parameter: [recurse relatedRisk] is the final
    probability the call on the updated related risk returns. *)
Definition propagateStep (risk : Risk.t) (allRisks : list Risk.t) (depth : nat)
    (recurse : Risk.t -> Q) (finalProbability : Q) (relation : RiskRelation.t) : Q :=
  match find (fun r => streq (Risk.id r) (RiskRelation.riskId relation))
             allRisks with
  | None => finalProbability
  | Some relatedRisk =>
      let strength := default 0.3 (RiskRelation.strength relation) in
      let probabilityIncrease := strength * Risk.probability risk in
      if Qltb 0.1 probabilityIncrease then
        let newProbability :=
          Qmin 100 (Risk.probability relatedRisk + probabilityIncrease) in
        if (depth <? 3)%nat
           && Qltb 0.1 (Qabs (newProbability - Risk.probability relatedRisk))
        then
          Qmax finalProbability
               (recurse (Risk.withProbability newProbability relatedRisk))
        else finalProbability
      else finalProbability
  end.

(** The index [percentile] reads, for an array of [n] elements. *)
Definition percentileIndex (n : nat) (p : Q) : nat :=
  Z.to_nat (Z.max 0 (Z.min (Qceiling (p / 100 * ofNat n) - 1) (Z.of_nat n - 1))).

(** Step 6 on one analysis record and the working copy of its risk. *)
Definition recomputed (risk : Risk.t) (analysis : RiskAnalysisOutput.t)
  : RiskAnalysisOutput.t :=
  let affectedDurationSum := RiskAnalysisOutput.affectedDurationSum analysis in
  let affectedCostSum := RiskAnalysisOutput.affectedCostSum analysis in
  let addedDays := affectedDurationSum * (Risk.timeImpactPercent risk / 100) in
  let expectedTimeImpact := addedDays * (Risk.probability risk / 100) in
  let addedCost := affectedCostSum * (Risk.costImpactPercent risk / 100) in
  let expectedCostImpact := addedCost * (Risk.probability risk / 100) in
  withImpacts addedDays expectedTimeImpact addedCost expectedCostImpact analysis.

(** The maxima of step 3: the largest expected impact of the roster, as
    computed from the probabilities of the input, and at least 1. *)
Definition maxExpectedTimeImpact (rs : list Risk.t) (activities : list Activity.t) : Q :=
  fold_left Qmax
    (map (fun r => snd (calculateTimeImpact r (getAffectedDurationSum r activities)))
         rs) 1.

Definition maxExpectedCostImpact (rs : list Risk.t) (activities : list Activity.t) : Q :=
  fold_left Qmax
    (map (fun r => snd (calculateCostImpact r (getAffectedCostSum r activities)))
         rs) 1.

(** A roster whose only relation is too weak to count: R1 (probability
    50) lists R2 with strength 0.002, an increase of exactly 0.1. *)
Definition faintR1 : Risk.t :=
  Risk.mk (lit "R1") (lit "Supplier failure") 50 0 0 0 [] [] []
    [RiskRelation.mk (lit "R2") dependency (Some 0.002)] [].

Definition faintStore : Store.t := Store.mk [faintR1; scenarioR2 20] [].

(** An input that passes validation: the two activities and two of the
    risks of the examples. *)
Definition validatedStore : Store.t :=
  Store.mk [exampleR1; exampleRa] [exampleA1; exampleA2].

(** Magnitudes far below the overflow threshold of a double.  With the
    numbers of the input [moderate], no sum or product of the engine
    leaves the finite doubles (an array has fewer than 2^32 elements), so
    no infinity and no NaN arises where the rational model has a
    number. *)
Definition moderate (x : Q) : Prop := Qabs x <= inject_Z (10 ^ 50).

Definition moderateRisk (r : Risk.t) : Prop :=
  moderate (Risk.probability r)
  /\ moderate (Risk.timeImpactPercent r)
  /\ moderate (Risk.costImpactPercent r).

Definition moderateActivity (a : Activity.t) : Prop :=
  moderate (Activity.cost a)
  /\ (forall d, Activity.durationDays a = Some d -> moderate d)
  /\ (forall c, Activity.baselineCost a = Some c -> moderate c).

(** A validated roster with a relation that counts: R1 (probability 50)
    lists Ra with strength 0.5. *)
Definition linkedR1 : Risk.t :=
  Risk.mk (lit "R1") (lit "Late delivery") 50 20 10 0 (lit "supply") []
    (lit "expedite") [RiskRelation.mk (lit "Ra") dependency (Some 0.5)]
    [lit "A1"; lit "A2"].

Definition linkedStore : Store.t :=
  Store.mk [linkedR1; exampleRa] [exampleA1; exampleA2].

(** ** Properties *)

Lemma Qltb_true (a b : Q) : Qltb a b = true <-> a < b.
Proof.
  unfold Qltb. rewrite negb_true_iff, <- not_true_iff_false, Qle_bool_iff.
  split; intros H; lra.
Qed.

Lemma Qltb_false (a b : Q) : Qltb a b = false <-> b <= a.
Proof.
  unfold Qltb. rewrite negb_false_iff, Qle_bool_iff. tauto.
Qed.

Lemma div_defined (a b : Q) : ~ b == 0 -> div a b = Some (a / b).
Proof.
  intros Hb. unfold div. destruct (Qeq_bool b 0) eqn:E; [|reflexivity].
  apply Qeq_bool_iff in E. contradiction.
Qed.

Lemma streq_true (a b : jsstring) : streq a b = true <-> a = b.
Proof. unfold streq. apply bool_decide_eq_true. Qed.

Lemma streq_false (a b : jsstring) : streq a b = false <-> a <> b.
Proof. unfold streq. apply bool_decide_eq_false. Qed.

Lemma includes_In (xs : list jsstring) (x : jsstring) :
  includes xs x = true <-> In x xs.
Proof.
  unfold includes. rewrite existsb_exists. split.
  - intros (y & Hy & E). apply streq_true in E. subst. exact Hy.
  - intros H. exists x. split; [exact H|]. apply streq_true. reflexivity.
Qed.

Lemma maxFrom_ge (xs : list nat) (init : nat) : (init <= maxFrom init xs)%nat.
Proof.
  unfold maxFrom. revert init.
  induction xs as [|x xs IH]; intros init; simpl; [lia|].
  specialize (IH (Nat.max init x)). lia.
Qed.

Lemma ofNat_pos (n : nat) : (1 <= n)%nat -> 0 < ofNat n.
Proof.
  intros H. unfold ofNat, Qlt. simpl. lia.
Qed.

(** *** The guarded divisions are defined *)

Lemma normalizeValue_defined (value maxValue : Q) :
  normalizeValue value maxValue
  = Some (if Qeq_bool maxValue 0 then 0 else value / maxValue * 100).
Proof.
  unfold normalizeValue. destruct (Qeq_bool maxValue 0) eqn:E; [reflexivity|].
  rewrite div_defined; [reflexivity|].
  intros H. apply Qeq_bool_iff in H. congruence.
Qed.

Lemma calculateDependencyCentrality_defined risk allRisks :
  calculateDependencyCentrality risk allRisks
  = Some (ofNat (degreeOf allRisks risk)
          / ofNat (maxFrom 1 (map (degreeOf allRisks) allRisks)) * 100).
Proof.
  unfold calculateDependencyCentrality. cbv zeta.
  rewrite div_defined; [reflexivity|].
  pose proof (ofNat_pos _ (maxFrom_ge (map (degreeOf allRisks) allRisks) 1)).
  lra.
Qed.

(** C8. [calculateSensitivity] always returns a record: the division by
    the probability is taken only when the probability is positive, where
    [probabilitySensitivity] is [expectedCostImpact / probability]; at
    probability zero (and below) it is [0]. *)
Theorem calculateSensitivity_total risk ads acs eti eci :
  exists s,
    calculateSensitivity risk ads acs eti eci = Some s
    /\ ((0 < Risk.probability risk
         /\ Sensitivity.probabilitySensitivity s == eci / Risk.probability risk)
        \/ (Risk.probability risk <= 0
            /\ Sensitivity.probabilitySensitivity s == 0)).
Proof.
  unfold calculateSensitivity.
  destruct (Qltb 0 (Risk.probability risk)) eqn:E.
  - apply Qltb_true in E. rewrite div_defined by lra. simpl.
    eexists; split; [reflexivity|]. left. simpl. split; [exact E|reflexivity].
  - apply Qltb_false in E. simpl.
    eexists; split; [reflexivity|]. right. simpl. split; [exact E|reflexivity].
Qed.

(** *** The order of binary64 *)

Lemma SFcompare_antisym (a b : SpecFloat.spec_float) :
  SpecFloat.SFcompare b a = option_map CompOpp (SpecFloat.SFcompare a b).
Proof.
  destruct a as [sa|sa| |sa ma ea], b as [sb|sb| |sb mb eb]; simpl;
    try reflexivity;
    try (destruct sa; reflexivity); try (destruct sb; reflexivity);
    try (destruct sa, sb; reflexivity).
  destruct sa, sb; simpl; try reflexivity;
    rewrite (Z.compare_antisym ea eb);
    destruct (ea ?= eb)%Z; simpl; try reflexivity;
    rewrite (Pos.compare_cont_antisym ma mb Eq); reflexivity.
Qed.

Lemma is_nan_false (x : float) :
  is_nan x = false -> Prim2SF x <> SpecFloat.S754_nan.
Proof.
  unfold is_nan. rewrite FloatAxioms.eqb_spec. intros H E.
  rewrite E in H. discriminate H.
Qed.

Lemma SFcompare_Some (a b : SpecFloat.spec_float) :
  a <> SpecFloat.S754_nan -> b <> SpecFloat.S754_nan ->
  exists c, SpecFloat.SFcompare a b = Some c.
Proof.
  intros Ha Hb. destruct a, b; try contradiction; simpl; eauto.
Qed.

Lemma ltb_leb (x y : float) : (x <? y)%float = true -> (x <=? y)%float = true.
Proof.
  rewrite FloatAxioms.ltb_spec, FloatAxioms.leb_spec.
  unfold SpecFloat.SFltb, SpecFloat.SFleb.
  destruct (SpecFloat.SFcompare _ _) as [[| |]|]; intros H;
    try discriminate H; reflexivity.
Qed.

Lemma not_ltb_leb (x y : float) :
  is_nan x = false -> is_nan y = false ->
  (y <? x)%float = false -> (x <=? y)%float = true.
Proof.
  intros Hx Hy. apply is_nan_false in Hx, Hy.
  rewrite FloatAxioms.ltb_spec, FloatAxioms.leb_spec.
  unfold SpecFloat.SFltb, SpecFloat.SFleb.
  rewrite (SFcompare_antisym (Prim2SF x) (Prim2SF y)).
  destruct (SFcompare_Some _ _ Hx Hy) as (c & ->). simpl.
  destruct c; simpl; intros H; try discriminate H; reflexivity.
Qed.

Lemma clamp_range (x : float) :
  is_nan (Binary64.Math_max 0 (Binary64.Math_min 100 x)) = is_nan x
  /\ (is_nan x = false ->
      (0 <=? Binary64.Math_max 0 (Binary64.Math_min 100 x))%float = true
      /\ (Binary64.Math_max 0 (Binary64.Math_min 100 x) <=? 100)%float = true).
Proof.
  unfold Binary64.Math_min.
  change (is_nan 100) with false. cbn [orb].
  destruct (is_nan x) eqn:N.
  - split; [reflexivity|discriminate].
  - assert (Hm : (if (100 <? x)%float then 100%float
                  else if (x <? 100)%float then x
                  else if get_sign 100 then 100%float else x)
                 = if (100 <? x)%float then 100%float else x).
    { change (get_sign 100) with false.
      destruct (100 <? x)%float, (x <? 100)%float; reflexivity. }
    rewrite Hm. clear Hm.
    destruct (100 <? x)%float eqn:A.
    + split; [reflexivity|]. intros _. split; reflexivity.
    + unfold Binary64.Math_max. change (is_nan 0) with false. rewrite N.
      cbn [orb]. change (get_sign 0) with false.
      destruct (0 <? x)%float eqn:C.
      * split; [exact N|]. intros _. split.
        -- apply ltb_leb, C.
        -- apply not_ltb_leb; [exact N|reflexivity|exact A].
      * assert (Hz : (if (x <? 0)%float then 0%float else 0%float) = 0%float)
          by (destruct (x <? 0)%float; reflexivity).
        rewrite Hz. split; [reflexivity|]. intros _. split; reflexivity.
Qed.

(** C4.  The clamp of [calculateBehaviorScore] does not stop NaN.  Over
    binary64, the score of a risk with the finite arguments 1e308 and
    -1e308 for the expected impacts and 1e-308 for both maxima is NaN
    (both normalisations overflow, to opposite infinities), and so is the
    score for an infinite expected cost impact under an infinite maximum:
    the arguments a run passes for R1 of the examples once its
    costImpactPercent is 1e308, where addedCost = 1500 * 1e306 overflows.
    For all arguments the score is NaN or lies in the closed interval
    from 0 to 100. *)
Theorem calculateBehaviorScore_not_a_number :
  is_nan (Binary64.calculateBehaviorScore exampleR1 1e308 (-1e308)
            [exampleR1] [] 1e-308 1e-308) = true
  /\ is_nan (Binary64.calculateBehaviorScore exampleR1 1.5 infinity [exampleR1]
               [exampleA1; exampleA2] 1.5 infinity) = true
  /\ forall risk eti eci allRisks activities maxT maxC,
       is_nan (Binary64.calculateBehaviorScore risk eti eci allRisks activities
                 maxT maxC) = true
       \/ ((0 <=? Binary64.calculateBehaviorScore risk eti eci allRisks
                    activities maxT maxC)%float = true
           /\ (Binary64.calculateBehaviorScore risk eti eci allRisks
                 activities maxT maxC <=? 100)%float = true).
Proof.
  split; [vm_compute; reflexivity|]. split; [vm_compute; reflexivity|].
  intros. unfold Binary64.calculateBehaviorScore. cbv zeta.
  match goal with
  | |- context [Binary64.Math_min 100 ?raw] =>
      destruct (clamp_range raw) as [Hn Hr]; destruct (is_nan raw) eqn:N
  end.
  - left. exact Hn.
  - right. apply Hr. reflexivity.
Qed.

(** *** Detectability and the behaviour score *)

Lemma trim_nonempty (s : jsstring) : trim s <> [] -> truthy s = true.
Proof. destruct s; [intros H; exfalso; apply H; reflexivity|reflexivity]. Qed.

Lemma calculateDetectabilityScore_empty risk :
  trim (Risk.trigger risk) = [] -> calculateDetectabilityScore risk = 0.5.
Proof.
  intros H. unfold calculateDetectabilityScore. rewrite H. simpl.
  rewrite andb_false_r. reflexivity.
Qed.

Lemma calculateDetectabilityScore_nonempty risk :
  trim (Risk.trigger risk) <> [] -> calculateDetectabilityScore risk = 1.
Proof.
  intros H. unfold calculateDetectabilityScore.
  rewrite (trim_nonempty _ H).
  destruct (trim (Risk.trigger risk)); [contradiction|reflexivity].
Qed.

Lemma calculateBehaviorScore_raw risk eti eci allRisks activities maxT maxC :
  calculateBehaviorScore risk eti eci allRisks activities maxT maxC
  = Some (Qmax 0 (Qmin 100
            (rawWithoutDetectability risk eti eci allRisks activities maxT maxC
             - 0.05 * calculateDetectabilityScore risk * 100))).
Proof.
  unfold calculateBehaviorScore.
  rewrite !normalizeValue_defined, calculateDependencyCentrality_defined.
  reflexivity.
Qed.

(** C2, as amended.  For two risks that differ only in the trigger, one
    empty after trim and one not, [calculateDetectabilityScore] is 0.5 for
    the first and 1 for the second, and with the same expected impacts,
    roster, activities and maxima the behaviour score of the risk WITH a
    trigger is never higher than that of the risk without; it is strictly
    lower unless both scores are clamped to the same bound. *)
Theorem calculateBehaviorScore_trigger
    risk emptyTrigger trigger eti eci allRisks activities maxT maxC :
  trim emptyTrigger = [] ->
  trim trigger <> [] ->
  calculateDetectabilityScore (Risk.withTrigger emptyTrigger risk) == 0.5
  /\ calculateDetectabilityScore (Risk.withTrigger trigger risk) == 1
  /\ exists scoreEmpty scoreTrigger,
       calculateBehaviorScore (Risk.withTrigger emptyTrigger risk) eti eci
         allRisks activities maxT maxC = Some scoreEmpty
       /\ calculateBehaviorScore (Risk.withTrigger trigger risk) eti eci
            allRisks activities maxT maxC = Some scoreTrigger
       /\ scoreTrigger <= scoreEmpty
       /\ (0 < scoreEmpty -> scoreTrigger < 100 -> scoreTrigger < scoreEmpty).
Proof.
  intros He Ht.
  assert (De : calculateDetectabilityScore (Risk.withTrigger emptyTrigger risk) = 0.5)
    by (apply calculateDetectabilityScore_empty; exact He).
  assert (Dt : calculateDetectabilityScore (Risk.withTrigger trigger risk) = 1)
    by (apply calculateDetectabilityScore_nonempty; exact Ht).
  rewrite !calculateBehaviorScore_raw, De, Dt.
  split; [reflexivity|]. split; [reflexivity|].
  do 2 eexists. split; [reflexivity|]. split; [reflexivity|].
  change (rawWithoutDetectability (Risk.withTrigger trigger risk) eti eci
            allRisks activities maxT maxC)
    with (rawWithoutDetectability (Risk.withTrigger emptyTrigger risk) eti eci
            allRisks activities maxT maxC).
  set (raw := rawWithoutDetectability _ _ _ _ _ _ _).
  destruct (Q.min_spec 100 (raw - 0.05 * 0.5 * 100)) as [[? E1]|[? E1]];
  destruct (Q.min_spec 100 (raw - 0.05 * 1 * 100)) as [[? E2]|[? E2]];
  destruct (Q.max_spec 0 (Qmin 100 (raw - 0.05 * 0.5 * 100))) as [[? E3]|[? E3]];
  destruct (Q.max_spec 0 (Qmin 100 (raw - 0.05 * 1 * 100))) as [[? E4]|[? E4]];
  rewrite E3, E4; rewrite E1 in *; rewrite E2 in *; split; try lra.
Qed.

(** *** The single-risk calculator *)

Lemma calculateSingleRisk_fields risk activities allRisks maxT maxC :
  exists sensitivity behaviorScore,
    calculateSingleRisk risk activities allRisks maxT maxC
    = Some (RiskAnalysisOutput.mk (Risk.id risk) (Risk.title risk)
              (getAffectedDurationSum risk activities)
              (getAffectedCostSum risk activities)
              (fst (calculateTimeImpact risk (getAffectedDurationSum risk activities)))
              (snd (calculateTimeImpact risk (getAffectedDurationSum risk activities)))
              (fst (calculateCostImpact risk (getAffectedCostSum risk activities)))
              (snd (calculateCostImpact risk (getAffectedCostSum risk activities)))
              (calculateScopeChangeRatio risk) (Risk.probability risk)
              behaviorScore sensitivity []).
Proof.
  unfold calculateSingleRisk. cbv zeta.
  unfold calculateTimeImpact, calculateCostImpact. cbv zeta. cbv beta iota.
  unfold calculateSensitivity.
  destruct (Qltb 0 (Risk.probability risk)) eqn:E.
  - apply Qltb_true in E. rewrite div_defined by lra.
    cbn [mbind option_bind]. rewrite calculateBehaviorScore_raw.
    cbn [mbind option_bind]. eauto.
  - cbn [mbind option_bind]. rewrite calculateBehaviorScore_raw.
    cbn [mbind option_bind]. eauto.
Qed.

(** C6. For the enriched Level-2 activities A1 (10 days, cost 1000) and
    A2 (5 days, cost 500) and the single risk R1 (probability 50, time
    impact 20%, cost impact 10%, affecting A1 and A2),
    [calculateSingleRisk] returns affectedDurationSum 15,
    affectedCostSum 1500, addedDays 3, expectedTimeImpact 1.5,
    addedCost 150 and expectedCostImpact 75, whatever the maxima. *)
Theorem calculateSingleRisk_scenario maxT maxC :
  exists out,
    calculateSingleRisk exampleR1 [exampleA1; exampleA2] [exampleR1] maxT maxC
    = Some out
    /\ RiskAnalysisOutput.affectedDurationSum out == 15
    /\ RiskAnalysisOutput.affectedCostSum out == 1500
    /\ RiskAnalysisOutput.addedDays out == 3
    /\ RiskAnalysisOutput.expectedTimeImpact out == 1.5
    /\ RiskAnalysisOutput.addedCost out == 150
    /\ RiskAnalysisOutput.expectedCostImpact out == 75.
Proof.
  destruct (calculateSingleRisk_fields exampleR1 [exampleA1; exampleA2]
              [exampleR1] maxT maxC) as (s & score & E).
  eexists. split; [exact E|]. simpl. repeat split; vm_compute; reflexivity.
Qed.

(** *** The activity enricher *)

Lemma enrichActivity_idempotent a :
  enrichActivity (enrichActivity a) = enrichActivity a.
Proof. reflexivity. Qed.

Lemma calculateDurationDays_zero start end_ :
  trim start = [] \/ trim end_ = []
  \/ Date_parse start = None \/ Date_parse end_ = None ->
  calculateDurationDays start end_ = 0.
Proof.
  intros H. unfold calculateDurationDays.
  destruct (negb (truthy start) || negb (truthy end_)
            || streq (trim start) [] || streq (trim end_) []) eqn:E;
    [reflexivity|].
  apply orb_false_elim in E as [E E4]. apply orb_false_elim in E as [_ E3].
  apply streq_false in E3, E4.
  destruct H as [H|[H|[H|H]]]; try contradiction.
  - rewrite H. reflexivity.
  - rewrite H. destruct (Date_parse start); reflexivity.
Qed.

(** C5. [enrichActivities] is idempotent: enriching its own output gives
    the same records, so the same durationDays and baselineCost.  In the
    enriched output durationDays is 0 for every activity that is not of
    Level 2 (every Level-1 activity), and for every activity whose start
    or end date is empty (also after trim) or does not parse. *)
Theorem enrichActivities_idempotent activities :
  enrichActivities (enrichActivities activities) = enrichActivities activities
  /\ forall a,
       In a (enrichActivities activities) ->
       Activity.level a <> 2%Z
       \/ trim (Activity.start a) = [] \/ trim (Activity.end_ a) = []
       \/ Date_parse (Activity.start a) = None
       \/ Date_parse (Activity.end_ a) = None ->
       Activity.durationDays a = Some 0.
Proof.
  split.
  - unfold enrichActivities. rewrite map_map. apply map_ext.
    intros a. apply enrichActivity_idempotent.
  - intros a Ha Hbad. unfold enrichActivities in Ha.
    apply in_map_iff in Ha as (a0 & <- & _). simpl in *.
    destruct (Activity.level a0 =? 2)%Z eqn:L; simpl.
    + destruct Hbad as [Hl|Hbad]; [apply Z.eqb_eq in L; contradiction|].
      destruct (truthy (Activity.start a0) && truthy (Activity.end_ a0));
        [|reflexivity].
      rewrite (calculateDurationDays_zero _ _ Hbad). reflexivity.
    + reflexivity.
Qed.

(** *** Combined scenarios *)

(** C7. When no activity id belongs to the affectedActivities of every
    selected risk (the risks of the roster whose id is in [riskIds]; so
    for two or more risks without a common activity, and for pairwise
    disjoint sets), [calculateCombinedImpact] returns the zeroed scenario:
    the four combined figures are 0. *)
Theorem calculateCombinedImpact_no_common riskIds risks activities :
  (forall activityId,
     ~ (forall r, In r (List.filter (fun r => includes riskIds (Risk.id r)) risks) ->
                  In activityId (Risk.affectedActivities r))) ->
  calculateCombinedImpact riskIds risks activities
  = Some (CombinedScenario.mk riskIds 0 0 0 0).
Proof.
  intros Hno. unfold calculateCombinedImpact. cbv zeta.
  set (selectedRisks := List.filter (fun r => includes riskIds (Risk.id r)) risks) in *.
  assert (E : List.filter
                (fun a =>
                   forallb (fun r => includes (Risk.affectedActivities r) (Activity.id a))
                           selectedRisks
                   && (Activity.level a =? 2)%Z) activities = []).
  { induction activities as [|a activities IH]; [reflexivity|]. simpl.
    destruct (forallb _ selectedRisks) eqn:F.
    - exfalso. apply (Hno (Activity.id a)). intros r Hr.
      rewrite forallb_forall in F. apply includes_In, F, Hr.
    - simpl. exact IH. }
  rewrite E. reflexivity.
Qed.

(** *** The validator *)

Lemma pushIf_incl cond e e' errors : In e errors -> In e (pushIf cond e' errors).
Proof.
  intros H. unfold pushIf. destruct cond; [|exact H].
  apply in_or_app. left. exact H.
Qed.

Lemma pushIf_true e errors : In e (pushIf true e errors).
Proof. unfold pushIf. apply in_or_app. right. left. reflexivity. Qed.

Lemma validateActivity_start activity :
  Activity.start activity = [] ->
  In (error (lit "start") (lit "Start date is required")) (validateActivity activity).
Proof.
  intros H. unfold validateActivity. cbv zeta. rewrite H.
  do 4 apply pushIf_incl. apply pushIf_true.
Qed.

Lemma validateActivity_end activity :
  Activity.end_ activity = [] ->
  In (error (lit "end") (lit "End date is required")) (validateActivity activity).
Proof.
  intros H. unfold validateActivity. cbv zeta. rewrite H.
  do 3 apply pushIf_incl. apply pushIf_true.
Qed.

Lemma validateActivityStep_incl e state activity :
  In e (fst state) -> In e (fst (validateActivityStep state activity)).
Proof.
  destruct state as [errors ids]. simpl. intros H.
  apply pushIf_incl, in_or_app. left. exact H.
Qed.

Lemma validateActivityStep_here e state activity :
  In e (validateActivity activity) ->
  In e (fst (validateActivityStep state activity)).
Proof.
  destruct state as [errors ids]. simpl. intros H.
  apply pushIf_incl, in_or_app. right. exact H.
Qed.

Lemma validateActivities_incl e activities state :
  In e (fst state) ->
  In e (fst (fold_left validateActivityStep activities state)).
Proof.
  revert state. induction activities as [|a activities IH]; intros state H;
    [exact H|].
  simpl. apply IH, validateActivityStep_incl, H.
Qed.

Lemma validateActivities_In e a activities state :
  In a activities -> In e (validateActivity a) ->
  In e (fst (fold_left validateActivityStep activities state)).
Proof.
  revert state. induction activities as [|a' activities IH]; intros state Ha He;
    [contradiction|].
  simpl. destruct Ha as [->|Ha].
  - apply validateActivities_incl, validateActivityStep_here, He.
  - apply IH; assumption.
Qed.

Lemma validateRiskStep_incl ids e state risk :
  In e (fst state) -> In e (fst (validateRiskStep ids state risk)).
Proof.
  destruct state as [errors riskIds]. simpl. intros H.
  do 2 apply pushIf_incl. apply in_or_app. left. exact H.
Qed.

Lemma validateRisks_incl ids e risks state :
  In e (fst state) ->
  In e (fst (fold_left (validateRiskStep ids) risks state)).
Proof.
  revert state. induction risks as [|r risks IH]; intros state H; [exact H|].
  simpl. apply IH, validateRiskStep_incl, H.
Qed.

Lemma validateInput_activity_error e a activities risks :
  In a activities -> In e (validateActivity a) ->
  In e (validateInput activities risks).
Proof.
  intros Ha He. unfold validateInput. cbv zeta.
  match goal with
  | |- context [fold_left validateActivityStep activities ?st] =>
      pose proof (validateActivities_In e a activities st Ha He) as H;
      destruct (fold_left validateActivityStep activities st) as [errors ids]
  end.
  match goal with
  | |- context [fold_left (validateRiskStep ids) risks ?st] =>
      pose proof (validateRisks_incl ids e risks st H) as H';
      destruct (fold_left (validateRiskStep ids) risks st) as [errors' ids']
  end.
  exact H'.
Qed.

(** C10. For an activity of any level, an empty start date makes
    [validateActivity] report the error on 'start', and an empty end date
    the error on 'end'; [validateInput] reports the same errors for every
    activity of its input, so a Level-1 activity without dates is reported
    as invalid. *)
Theorem validateInput_requires_dates a activities risks :
  In a activities ->
  (Activity.start a = [] ->
   In (error (lit "start") (lit "Start date is required")) (validateActivity a)
   /\ In (error (lit "start") (lit "Start date is required"))
         (validateInput activities risks))
  /\ (Activity.end_ a = [] ->
      In (error (lit "end") (lit "End date is required")) (validateActivity a)
      /\ In (error (lit "end") (lit "End date is required"))
            (validateInput activities risks)).
Proof.
  intros Ha. split; intros H.
  - pose proof (validateActivity_start a H) as He.
    split; [exact He|]. eapply validateInput_activity_error; eassumption.
  - pose proof (validateActivity_end a H) as He.
    split; [exact He|]. eapply validateInput_activity_error; eassumption.
Qed.

(** *** The relaxation over the store *)

Lemma foldM_invariant {S A} (I : S -> Prop) (f : S -> A -> option S) (l : list A) :
  (forall s x, I s -> In x l -> exists s', f s x = Some s' /\ I s') ->
  forall s, I s -> exists s', foldM f s l = Some s' /\ I s'.
Proof.
  induction l as [|x l IH]; intros Hstep s Hs; simpl.
  - eauto.
  - destruct (Hstep s x Hs (or_introl eq_refl)) as (s1 & -> & H1). simpl.
    apply IH; [|exact H1]. intros s2 y H2 Hy. apply Hstep; [exact H2|].
    right. exact Hy.
Qed.

Lemma propagatedFrom_refl r : propagatedFrom r r.
Proof.
  split; [destruct r; reflexivity|]. intros H. split; [lra|exact H].
Qed.

Lemma propagatedFrom_id r c : propagatedFrom r c -> Risk.id c = Risk.id r.
Proof. intros [-> _]. reflexivity. Qed.

Lemma propagatedFrom_ids rs cs :
  Forall2 propagatedFrom rs cs -> map Risk.id cs = map Risk.id rs.
Proof.
  induction 1 as [|r c rs cs H _ IH]; [reflexivity|]. simpl.
  rewrite IH, (propagatedFrom_id _ _ H). reflexivity.
Qed.

Lemma propagatedFrom_bump r c inc :
  0.1 < inc -> propagatedFrom r c ->
  propagatedFrom r
    (Risk.withProbability (Qmin 100 (Risk.probability c + inc)) c).
Proof.
  intros Hinc [E Hb]. split.
  - rewrite E at 2. reflexivity.
  - intros H100. destruct (Hb H100) as [Hlo Hhi]. simpl.
    destruct (Q.min_spec 100 (Risk.probability c + inc)) as [[? ->]|[? ->]];
      split; lra.
Qed.

Lemma firstIndex_Some id rs i :
  firstIndex id rs = Some i ->
  exists r, rs !! i = Some r /\ Risk.id r = id.
Proof.
  revert i. induction rs as [|r rs IH]; intros i H; simpl in H; [discriminate|].
  destruct (streq (Risk.id r) id) eqn:E.
  - injection H as <-. exists r. split; [reflexivity|]. apply streq_true, E.
  - destruct (firstIndex id rs) as [j|]; [|discriminate].
    injection H as <-. apply (IH j eq_refl).
Qed.

Lemma firstIndex_ids id rs cs :
  map Risk.id cs = map Risk.id rs -> firstIndex id cs = firstIndex id rs.
Proof.
  revert cs. induction rs as [|r rs IH]; intros [|c cs] H; try discriminate;
    [reflexivity|].
  simpl in H. injection H as Hid Hrest. simpl.
  rewrite Hid, (IH cs Hrest). reflexivity.
Qed.

Lemma firstIndex_In id rs :
  In id (map Risk.id rs) -> exists i, firstIndex id rs = Some i.
Proof.
  induction rs as [|r rs IH]; intros H; [contradiction|]. simpl.
  destruct (streq (Risk.id r) id) eqn:E; [eauto|].
  destruct H as [H|H]; [apply streq_false in E; contradiction|].
  destruct (IH H) as (i & ->). simpl. eauto.
Qed.

Lemma firstIndex_NoDup rs j r :
  List.NoDup (map Risk.id rs) -> rs !! j = Some r ->
  firstIndex (Risk.id r) rs = Some j.
Proof.
  revert j. induction rs as [|r0 rs IH]; intros j Hnd Hj; [discriminate|].
  simpl in Hnd. apply NoDup_cons_iff in Hnd as [Hnotin Hnd]. simpl.
  destruct j as [|j]; simpl in Hj.
  - injection Hj as ->. assert (E : streq (Risk.id r) (Risk.id r) = true)
      by (apply streq_true; reflexivity).
    rewrite E. reflexivity.
  - destruct (streq (Risk.id r0) (Risk.id r)) eqn:E.
    + apply streq_true in E. exfalso. apply Hnotin. rewrite E.
      apply in_map. apply list_elem_of_In. eapply list_elem_of_lookup_2, Hj.
    + rewrite (IH j Hnd Hj). reflexivity.
Qed.

Lemma findRisk_app pre cs id :
  findRisk (pre ++ cs) (seq (length pre) (length cs)) id
  = Some ((fun i => (length pre + i)%nat) <$> firstIndex id cs).
Proof.
  revert pre. induction cs as [|c cs IH]; intros pre; [reflexivity|].
  simpl. rewrite list_lookup_middle by reflexivity. simpl.
  destruct (streq (Risk.id c) id); [simpl; f_equal; f_equal; lia|].
  replace (pre ++ c :: cs) with ((pre ++ [c]) ++ cs)
    by (rewrite <- app_assoc; reflexivity).
  replace (S (length pre)) with (length (pre ++ [c]))
    by (rewrite length_app; simpl; lia).
  rewrite IH. f_equal. destruct (firstIndex id cs) as [i|]; [|reflexivity].
  simpl. f_equal. rewrite length_app. simpl. lia.
Qed.

Section Relaxation.

Variable objs0 : list Risk.t.
Variable rs : list Risk.t.

Lemma working_initial : working objs0 rs (objs0 ++ rs).
Proof.
  exists rs. split; [reflexivity|].
  induction rs; constructor; [apply propagatedFrom_refl|assumption].
Qed.

Lemma working_copy objs l :
  working objs0 rs objs -> In l (workingLocs objs0 rs) ->
  exists i cs r c,
    l = (length objs0 + i)%nat /\ objs = objs0 ++ cs
    /\ Forall2 propagatedFrom rs cs
    /\ rs !! i = Some r /\ cs !! i = Some c /\ objs !! l = Some c.
Proof.
  intros (cs & -> & HR) Hl. unfold workingLocs in Hl.
  apply in_seq in Hl.
  exists (l - length objs0)%nat, cs.
  destruct (lookup_lt_is_Some_2 rs (l - length objs0)) as [r Hr]; [lia|].
  destruct (Forall2_lookup_l _ _ _ _ _ HR Hr) as (c & Hc & _).
  exists r, c. repeat split; try assumption; [lia|].
  rewrite lookup_app_r by lia. exact Hc.
Qed.

Lemma working_frame objs l :
  working objs0 rs objs -> (l < length objs0)%nat -> objs !! l = objs0 !! l.
Proof.
  intros (cs & -> & _) Hl. apply lookup_app_l, Hl.
Qed.

Lemma relaxFrom_working id currentRisk objs otherRisk :
  working objs0 rs objs ->
  In currentRisk (workingLocs objs0 rs) -> In otherRisk (workingLocs objs0 rs) ->
  exists objs',
    relaxFrom id currentRisk objs otherRisk = Some objs'
    /\ working objs0 rs objs'.
Proof.
  intros Hw Hcur Hother.
  destruct (working_copy objs otherRisk Hw Hother)
    as (j & cs & rj & other & _ & _ & _ & _ & _ & Ho).
  destruct (working_copy objs currentRisk Hw Hcur)
    as (i & cs' & ri & current & -> & -> & HR & Hri & Hci & Hc).
  unfold relaxFrom. rewrite Ho. simpl.
  destruct (find _ (Risk.relatedRisks other)) as [relation|]; [|eauto].
  destruct (Qltb 0.1 _) eqn:E; [|eauto].
  apply Qltb_true in E. rewrite Hc. simpl.
  eexists. split; [reflexivity|].
  exists (alter (Risk.withProbability
                   (Qmin 100 (Risk.probability current
                              + default 0.3 (RiskRelation.strength relation)
                                * Risk.probability other))) i cs').
  split; [apply alter_app_r|].
  apply Forall2_alter_r; [exact HR|].
  intros r c Hr Hc' HRrc. rewrite Hci in Hc'. injection Hc' as <-.
  apply propagatedFrom_bump; assumption.
Qed.

Lemma findRisk_working objs id :
  working objs0 rs objs ->
  exists found,
    findRisk objs (workingLocs objs0 rs) id = Some found
    /\ forall l, found = Some l -> In l (workingLocs objs0 rs).
Proof.
  intros (cs & -> & HR). unfold workingLocs.
  rewrite (Forall2_length _ _ _ HR), findRisk_app.
  eexists. split; [reflexivity|]. intros l Hl.
  destruct (firstIndex id cs) as [i|] eqn:E; [|discriminate].
  injection Hl as <-.
  destruct (firstIndex_Some _ _ _ E) as (c & Hc & _).
  apply lookup_lt_Some in Hc. apply in_seq. lia.
Qed.

Lemma relaxRisk_working objs risk :
  working objs0 rs objs -> (risk < length objs0)%nat ->
  exists objs',
    relaxRisk (workingLocs objs0 rs) objs risk = Some objs'
    /\ working objs0 rs objs'.
Proof.
  intros Hw Hrisk. unfold relaxRisk.
  rewrite (working_frame objs risk Hw Hrisk).
  destruct (lookup_lt_is_Some_2 objs0 risk Hrisk) as [r ->]. simpl.
  destruct (findRisk_working objs (Risk.id r) Hw) as (found & -> & Hfound).
  simpl. destruct found as [currentRisk|]; [|eauto].
  apply foldM_invariant; [|exact Hw].
  intros objs1 otherRisk H1 Hother.
  apply relaxFrom_working; auto.
Qed.

Lemma relaxation_working inputRisks objs :
  Forall (fun l => (l < length objs0)%nat) inputRisks ->
  working objs0 rs objs ->
  exists objs',
    relaxation inputRisks (workingLocs objs0 rs) objs = Some objs'
    /\ working objs0 rs objs'.
Proof.
  intros Hin Hw. unfold relaxation.
  apply foldM_invariant; [|exact Hw].
  intros objs1 pass H1 _.
  apply foldM_invariant; [|exact H1].
  intros objs2 risk H2 Hrisk.
  apply relaxRisk_working; [exact H2|].
  rewrite List.Forall_forall in Hin. apply Hin, Hrisk.
Qed.

End Relaxation.

(** *** The steps around the relaxation *)

Lemma mapM_exists {A B} (f : A -> option B) (P : A -> B -> Prop) (l : list A) :
  (forall x, In x l -> exists y, f x = Some y /\ P x y) ->
  exists k, mapM f l = Some k /\ Forall2 P l k.
Proof.
  induction l as [|x l IH]; intros H.
  - exists []. split; [reflexivity|constructor].
  - destruct (H x (or_introl eq_refl)) as (y & Hy & Py).
    destruct IH as (k & Hk & Pk); [intros z Hz; apply H; right; exact Hz|].
    exists (y :: k). split; [|constructor; assumption].
    simpl. rewrite Hy. simpl. rewrite Hk. reflexivity.
Qed.

Lemma mapM_cons {A B} (f : A -> option B) x l :
  mapM f (x :: l) = y ← f x; k ← mapM f l; Some (y :: k).
Proof. reflexivity. Qed.

Lemma Forall2_In_r {A B} (P : A -> B -> Prop) l k y :
  Forall2 P l k -> In y k -> exists x, In x l /\ P x y.
Proof.
  induction 1 as [|x0 y0 l k H0 _ IH]; intros Hy; [contradiction|].
  destruct Hy as [->|Hy]; [exists x0; split; [left; reflexivity|exact H0]|].
  destruct (IH Hy) as (x & Hx & Px). exists x. split; [right; exact Hx|exact Px].
Qed.

Lemma holds_mapM {A} (objs : list A) locs vals :
  holds objs locs vals -> mapM (fun l => objs !! l) locs = Some vals.
Proof. intros H. apply mapM_Some_2, H. Qed.

Lemma holds_lt {A} (objs : list A) locs vals :
  holds objs locs vals -> Forall (fun l => (l < length objs)%nat) locs.
Proof.
  induction 1 as [|l v locs vals H _ IH]; constructor; [|exact IH].
  eapply lookup_lt_Some, H.
Qed.

Lemma mapM_working_copies (pre cs : list Risk.t) :
  mapM (fun l => (pre ++ cs) !! l) (seq (length pre) (length cs)) = Some cs.
Proof.
  revert pre. induction cs as [|c cs IH]; intros pre; [reflexivity|].
  simpl. rewrite list_lookup_middle by reflexivity. simpl.
  replace (pre ++ c :: cs) with ((pre ++ [c]) ++ cs)
    by (rewrite <- app_assoc; reflexivity).
  replace (S (length pre)) with (length (pre ++ [c]))
    by (rewrite length_app; simpl; lia).
  rewrite IH. reflexivity.
Qed.

Lemma calculateSingleRisk_riskId risk activities allRisks maxT maxC :
  exists out,
    calculateSingleRisk risk activities allRisks maxT maxC = Some out
    /\ RiskAnalysisOutput.riskId out = Risk.id risk.
Proof.
  destruct (calculateSingleRisk_fields risk activities allRisks maxT maxC)
    as (s & score & E).
  eexists. split; [exact E|reflexivity].
Qed.

Lemma analyses_riskIds activities allRisks maxT maxC rs :
  exists analyses,
    mapM (fun risk => calculateSingleRisk risk activities allRisks maxT maxC) rs
    = Some analyses
    /\ map RiskAnalysisOutput.riskId analyses = map Risk.id rs.
Proof.
  induction rs as [|r rs (analyses & E & Hids)].
  - exists []. split; reflexivity.
  - destruct (calculateSingleRisk_riskId r activities allRisks maxT maxC)
      as (out & Eo & Hid).
    exists (out :: analyses). simpl. rewrite Eo. simpl. rewrite E. simpl.
    split; [reflexivity|]. rewrite Hid, Hids. reflexivity.
Qed.

Lemma alter_riskId p i analyses :
  map RiskAnalysisOutput.riskId (alter (withPropagatedProbability p) i analyses)
  = map RiskAnalysisOutput.riskId analyses.
Proof.
  revert i. induction analyses as [|a analyses IH]; intros i; [reflexivity|].
  destruct i as [|i]; simpl; [reflexivity|].
  f_equal. apply IH.
Qed.

Lemma recordPropagation_fold objs0 rs cs :
  Forall2 propagatedFrom rs cs ->
  forall locs rs',
    holds objs0 locs rs' ->
    (forall r, In r rs' -> In r rs) ->
    forall results analyses,
    exists results' analyses',
      foldM (recordPropagation (objs0 ++ cs) (workingLocs objs0 rs))
            (results, analyses) locs
      = Some (results ++ results', analyses')
      /\ mapM (resultFor cs) rs' = Some results'
      /\ map RiskAnalysisOutput.riskId analyses'
         = map RiskAnalysisOutput.riskId analyses.
Proof.
  intros HR locs rs' Hholds.
  induction Hholds as [|l r locs rs' Hl _ IH]; intros Hsub results analyses.
  - exists [], analyses. simpl. rewrite app_nil_r. repeat split.
  - simpl. rewrite (lookup_app_l_Some _ _ _ _ Hl). simpl.
    assert (Ef : findRisk (objs0 ++ cs) (workingLocs objs0 rs) (Risk.id r)
                 = Some ((fun i => (length objs0 + i)%nat)
                           <$> firstIndex (Risk.id r) cs)).
    { unfold workingLocs. rewrite (Forall2_length _ _ _ HR). apply findRisk_app. }
    rewrite Ef. clear Ef.
    assert (Hin : In (Risk.id r) (map Risk.id cs)).
    { rewrite (propagatedFrom_ids _ _ HR). apply in_map, Hsub. left. reflexivity. }
    destruct (firstIndex_In _ _ Hin) as (i & Ei).
    destruct (firstIndex_Some _ _ _ Ei) as (c & Hc & _).
    assert (Er : resultFor cs r
                 = Some (PropagationResult.mk (Risk.id r) (Risk.probability r)
                           (Risk.probability c) []))
      by (unfold resultFor; rewrite Ei; simpl; rewrite Hc; reflexivity).
    rewrite Ei. simpl. rewrite lookup_app_r by lia.
    replace (length objs0 + i - length objs0)%nat with i by lia.
    rewrite Hc. simpl.
    match goal with
    | |- context [foldM _ (?res, ?an) locs] =>
        destruct (IH (fun r' H' => Hsub r' (or_intror H')) res an)
          as (results' & analyses' & E & Em & Eids)
    end.
    eexists (_ :: results'), analyses'. rewrite E. split; [|split].
    + rewrite <- app_assoc. reflexivity.
    + rewrite Er. simpl. rewrite Em. reflexivity.
    + rewrite Eids. destruct (findAnalysisIndex (Risk.id r) analyses);
        [apply alter_riskId|reflexivity].
Qed.

Lemma recomputeImpacts_all objs0 rs cs analyses :
  Forall2 propagatedFrom rs cs ->
  length analyses = length rs ->
  exists analyses',
    mapM (recomputeImpacts (objs0 ++ cs) (workingLocs objs0 rs) analyses)
         (seq 0 (length analyses)) = Some analyses'
    /\ forall a', In a' analyses' ->
         exists a, In a analyses
                   /\ RiskAnalysisOutput.riskId a' = RiskAnalysisOutput.riskId a.
Proof.
  intros HR Hlen.
  destruct (mapM_exists
              (recomputeImpacts (objs0 ++ cs) (workingLocs objs0 rs) analyses)
              (fun (i : nat) a' =>
                 exists a, In a analyses
                           /\ RiskAnalysisOutput.riskId a'
                              = RiskAnalysisOutput.riskId a)
              (seq 0 (length analyses))) as (analyses' & E & HP).
  - intros i Hi. apply in_seq in Hi.
    pose proof (Forall2_length _ _ _ HR) as Hcs.
    unfold recomputeImpacts, workingLocs.
    rewrite lookup_seq_lt by lia. simpl.
    rewrite lookup_app_r by lia.
    replace (length objs0 + i - length objs0)%nat with i by lia.
    destruct (lookup_lt_is_Some_2 cs i) as [c ->]; [lia|]. simpl.
    destruct (lookup_lt_is_Some_2 analyses i) as [a Ha]; [lia|].
    rewrite Ha. simpl. eexists. split; [reflexivity|].
    exists a. split; [|reflexivity].
    apply list_elem_of_In. eapply list_elem_of_lookup_2, Ha.
  - exists analyses'. split; [exact E|]. intros a' Ha'.
    destruct (Forall2_In_r _ _ _ _ HP Ha') as (i & _ & H). exact H.
Qed.

Lemma insertSorted_In {A} (before : A -> A -> bool) x y l :
  In x (insertSorted before y l) -> x = y \/ In x l.
Proof.
  induction l as [|z l IH]; simpl.
  - intros [<-|[]]. left. reflexivity.
  - destruct (before y z); simpl.
    + intros [<-|H]; [left; reflexivity|right; exact H].
    + intros [<-|H]; [right; left; reflexivity|].
      destruct (IH H) as [->|H']; [left; reflexivity|right; right; exact H'].
Qed.

Lemma sortBy_In {A} (before : A -> A -> bool) x l :
  In x (sortBy before l) -> In x l.
Proof.
  induction l as [|y l IH]; simpl; [tauto|].
  intros H. apply insertSorted_In in H as [->|H]; [left; reflexivity|].
  right. apply IH, H.
Qed.

Lemma firstn_In {A} n (x : A) l : In x (firstn n l) -> In x l.
Proof.
  intros H. rewrite <- (firstn_skipn n l). apply in_or_app. left. exact H.
Qed.

Lemma calculateCombinedImpact_defined riskIds risks activities :
  (exists r, In r risks /\ In (Risk.id r) riskIds) ->
  exists scenario, calculateCombinedImpact riskIds risks activities = Some scenario.
Proof.
  intros (r & Hr & Hid). unfold calculateCombinedImpact. cbv zeta.
  set (selectedRisks := List.filter (fun r => includes riskIds (Risk.id r)) risks).
  destruct (length (List.filter _ activities) =? 0)%nat; [eauto|].
  assert (Hsel : In r selectedRisks).
  { apply filter_In. split; [exact Hr|]. apply includes_In, Hid. }
  rewrite div_defined; [simpl; eauto|].
  assert (1 <= length selectedRisks)%nat
    by (destruct selectedRisks; [contradiction|simpl; lia]).
  pose proof (ofNat_pos _ H). lra.
Qed.

Lemma indexPairs_lt n i j : In (i, j) (indexPairs n) -> (i < j < n)%nat.
Proof.
  unfold indexPairs. rewrite in_flat_map. intros (i' & Hi' & H).
  apply in_map_iff in H as (j' & E & Hj'). injection E as -> ->.
  apply in_seq in Hi', Hj'. lia.
Qed.

Lemma combineTop3_defined top3Risks values activities :
  (forall id, In id top3Risks -> exists r, In r values /\ Risk.id r = id) ->
  exists scenarios, combineTop3 top3Risks values activities = Some scenarios.
Proof.
  intros Hids. unfold combineTop3.
  destruct (2 <=? length top3Risks)%nat eqn:E2; [|eauto].
  destruct (mapM_exists
              (fun '(i, j) =>
                 idI ← top3Risks !! i;
                 idJ ← top3Risks !! j;
                 calculateCombinedImpact [idI; idJ] values activities)
              (fun _ _ => True) (indexPairs (length top3Risks)))
    as (pairs & -> & _).
  { intros [i j] Hij. apply indexPairs_lt in Hij.
    destruct (lookup_lt_is_Some_2 top3Risks i) as [idI HI]; [lia|].
    destruct (lookup_lt_is_Some_2 top3Risks j) as [idJ HJ]; [lia|].
    rewrite HI, HJ. simpl.
    destruct (Hids idI) as (r & Hr & <-).
    { apply list_elem_of_In. eapply list_elem_of_lookup_2, HI. }
    destruct (calculateCombinedImpact_defined [Risk.id r; idJ] values activities)
      as (scenario & ->); [|eauto].
    exists r. split; [exact Hr|left; reflexivity]. }
  simpl. destruct (length top3Risks =? 3)%nat; [|eauto].
  destruct top3Risks as [|id0 rest]; [discriminate|].
  destruct (Hids id0 (or_introl eq_refl)) as (r & Hr & <-).
  destruct (calculateCombinedImpact_defined (Risk.id r :: rest) values activities)
    as (scenario & ->); [|simpl; eauto].
  exists r. split; [exact Hr|left; reflexivity].
Qed.

Lemma bind_Some {A B} (x : A) (f : A -> option B) : Some x ≫= f = f x.
Proof. reflexivity. Qed.

Lemma analyzeRiskBehavior_spec st input enableMonteCarlo iterations deadline budget
    rs acts :
  holds (Store.risks st) (Input.risks input) rs ->
  holds (Store.activities st) (Input.activities input) acts ->
  exists out cs,
    analyzeRiskBehavior st input enableMonteCarlo iterations deadline budget
    = Some (out, Store.mk (Store.risks st ++ cs)
                   (Store.activities st ++ enrichActivities acts))
    /\ relaxation (Input.risks input) (workingLocs (Store.risks st) rs)
         (Store.risks st ++ rs) = Some (Store.risks st ++ cs)
    /\ Forall2 propagatedFrom rs cs
    /\ mapM (resultFor cs) rs = Some (AnalysisOutput.propagationResults out).
Proof.
  intros Hrs Hacts. unfold analyzeRiskBehavior.
  rewrite (holds_mapM _ _ _ Hacts), bind_Some.
  rewrite (holds_mapM _ _ _ Hrs), bind_Some.
  destruct (analyses_riskIds (enrichActivities acts) rs 1000 100000 rs)
    as (initial & -> & _). rewrite bind_Some. cbv zeta.
  match goal with
  | |- context [calculateSingleRisk _ _ _ ?maxT ?maxC] =>
      destruct (analyses_riskIds (enrichActivities acts) rs maxT maxC rs)
        as (analyses & -> & Hids)
  end. rewrite bind_Some.
  change (seq (length (Store.risks st)) (length rs))
    with (workingLocs (Store.risks st) rs).
  destruct (relaxation_working (Store.risks st) rs (Input.risks input)
              (Store.risks st ++ rs) (holds_lt _ _ _ Hrs)
              (working_initial _ _)) as (riskObjs & Erelax & cs & -> & HR).
  rewrite Erelax, bind_Some.
  destruct (recordPropagation_fold (Store.risks st) rs cs HR
              (Input.risks input) rs Hrs (fun r H => H) [] analyses)
    as (results & analyses1 & -> & Hres & Hids1).
  rewrite bind_Some. cbv beta iota.
  assert (Hlen : length analyses1 = length rs).
  { rewrite <- (length_map RiskAnalysisOutput.riskId), Hids1, Hids.
    apply length_map. }
  destruct (recomputeImpacts_all (Store.risks st) rs cs analyses1 HR Hlen)
    as (analyses2 & -> & Hids2).
  rewrite bind_Some.
  unfold workingLocs. rewrite (Forall2_length _ _ _ HR), mapM_working_copies.
  rewrite bind_Some.
  destruct (combineTop3_defined
              (map RiskAnalysisOutput.riskId
                   (firstn 3 (sortBy byExpectedImpact analyses2)))
              cs (enrichActivities acts)) as (scenarios & ->).
  { intros id Hid. apply in_map_iff in Hid as (a2 & <- & Ha2).
    apply firstn_In, sortBy_In, Hids2 in Ha2 as (a1 & Ha1 & ->).
    assert (H : In (RiskAnalysisOutput.riskId a1) (map Risk.id cs)).
    { rewrite (propagatedFrom_ids _ _ HR), <- Hids, <- Hids1.
      apply in_map, Ha1. }
    apply in_map_iff in H as (c & Hc & Hin). eauto. }
  rewrite bind_Some.
  eexists _, cs. split; [reflexivity|]. split; [reflexivity|].
  split; [exact HR|]. simpl. exact Hres.
Qed.

(** *** Claims on the orchestrator *)

(** C9. A run of [analyzeRiskBehavior] returns, and leaves every object
    that was in the store before the call as it was: the records held by
    [input.risks] and [input.activities] keep every field, the
    probability included; the relaxation wrote to the copies only. *)
Theorem analyzeRiskBehavior_frame
    st input enableMonteCarlo iterations deadline budget rs acts :
  holds (Store.risks st) (Input.risks input) rs ->
  holds (Store.activities st) (Input.activities input) acts ->
  exists out st',
    analyzeRiskBehavior st input enableMonteCarlo iterations deadline budget
    = Some (out, st')
    /\ holds (Store.risks st') (Input.risks input) rs
    /\ holds (Store.activities st') (Input.activities input) acts
    /\ (forall l r, Store.risks st !! l = Some r -> Store.risks st' !! l = Some r)
    /\ (forall l a, Store.activities st !! l = Some a ->
                    Store.activities st' !! l = Some a).
Proof.
  intros Hrs Hacts.
  destruct (analyzeRiskBehavior_spec st input enableMonteCarlo iterations
              deadline budget rs acts Hrs Hacts) as (out & cs & E & _).
  eexists _, _. split; [exact E|]. simpl.
  assert (Hr : forall l r, Store.risks st !! l = Some r ->
                           (Store.risks st ++ cs) !! l = Some r)
    by (intros l r H; apply lookup_app_l_Some, H).
  assert (Ha : forall l a, Store.activities st !! l = Some a ->
                 (Store.activities st ++ enrichActivities acts) !! l = Some a)
    by (intros l a H; apply lookup_app_l_Some, H).
  repeat split; try assumption.
  - eapply Forall2_impl; [exact Hrs|]. intros l r. apply Hr.
  - eapply Forall2_impl; [exact Hacts|]. intros l a. apply Ha.
Qed.

Lemma resultFor_copy rs cs r res :
  Forall2 propagatedFrom rs cs ->
  resultFor cs r = Some res ->
  exists i r0 c,
    firstIndex (Risk.id r) rs = Some i /\ rs !! i = Some r0 /\ cs !! i = Some c
    /\ propagatedFrom r0 c
    /\ res = PropagationResult.mk (Risk.id r) (Risk.probability r)
               (Risk.probability c) [].
Proof.
  intros HR H. unfold resultFor in H.
  rewrite (firstIndex_ids _ rs cs (propagatedFrom_ids _ _ HR)) in H.
  destruct (firstIndex (Risk.id r) rs) as [i|] eqn:Ei; [|discriminate].
  simpl in H. destruct (cs !! i) as [c|] eqn:Ec; [|discriminate].
  injection H as <-.
  destruct (Forall2_lookup_r _ _ _ _ _ HR Ec) as (r0 & Hr0 & Hp).
  exists i, r0, c.
  split; [reflexivity|]. split; [exact Hr0|]. split; [exact Ec|].
  split; [exact Hp|reflexivity].
Qed.

(** C3, as amended.  When every risk of the input has its probability in
    [0,100], the run returns, and every propagation result has
    finalProbability at most 100; when moreover the risk ids are pairwise
    distinct, every propagation result has finalProbability at least
    originalProbability. *)
Theorem analyzeRiskBehavior_propagation_bounds
    st input enableMonteCarlo iterations deadline budget rs acts :
  holds (Store.risks st) (Input.risks input) rs ->
  holds (Store.activities st) (Input.activities input) acts ->
  Forall (fun r => 0 <= Risk.probability r /\ Risk.probability r <= 100) rs ->
  exists out st',
    analyzeRiskBehavior st input enableMonteCarlo iterations deadline budget
    = Some (out, st')
    /\ Forall (fun res => PropagationResult.finalProbability res <= 100)
              (AnalysisOutput.propagationResults out)
    /\ (List.NoDup (map Risk.id rs) ->
        Forall (fun res => PropagationResult.originalProbability res
                           <= PropagationResult.finalProbability res)
               (AnalysisOutput.propagationResults out)).
Proof.
  intros Hrs Hacts Hrange.
  destruct (analyzeRiskBehavior_spec st input enableMonteCarlo iterations
              deadline budget rs acts Hrs Hacts)
    as (out & cs & E & _ & HR & Hres).
  eexists _, _. split; [exact E|].
  apply mapM_Some_1 in Hres. rewrite List.Forall_forall in Hrange.
  split; [|intros Hnd]; apply List.Forall_forall; intros res Hin;
    destruct (Forall2_In_r _ _ _ _ Hres Hin) as (r & Hr & Hrr);
    destruct (resultFor_copy rs cs r res HR Hrr)
      as (i & r0 & c & Ei & Hr0 & Hc & [_ Hb] & ->); simpl.
  - apply Hb, Hrange. apply list_elem_of_In. eapply list_elem_of_lookup_2, Hr0.
  - apply list_elem_of_In, list_elem_of_lookup_1 in Hr as (j & Hj).
    rewrite (firstIndex_NoDup rs j r Hnd Hj) in Ei. injection Ei as <-.
    rewrite Hj in Hr0. injection Hr0 as <-.
    apply Hb, Hrange. apply list_elem_of_In. eapply list_elem_of_lookup_2, Hj.
Qed.

Lemma scenario_relaxation p :
  relaxation [0%nat; 1%nat]
    (workingLocs [scenarioR1; scenarioR2 p] [scenarioR1; scenarioR2 p])
    ([scenarioR1; scenarioR2 p] ++ [scenarioR1; scenarioR2 p])
  = Some ([scenarioR1; scenarioR2 p]
          ++ [scenarioR1;
              scenarioR2 (Qmin 100 (Qmin 100 (Qmin 100 (p + 0.5 * 80) + 0.5 * 80)
                                    + 0.5 * 80))]).
Proof. reflexivity. Qed.

Lemma scenario_results p q :
  mapM (resultFor [scenarioR1; scenarioR2 q]) [scenarioR1; scenarioR2 p]
  = Some [PropagationResult.mk (lit "R1") 80 80 [];
          PropagationResult.mk (lit "R2") p q []].
Proof. reflexivity. Qed.

Lemma three_additions p :
  Qmin 100 (Qmin 100 (Qmin 100 (p + 0.5 * 80) + 0.5 * 80) + 0.5 * 80)
  == Qmin 100 (p + 120).
Proof.
  pose proof (Q.min_spec 100 (p + 0.5 * 80)) as H1.
  set (a := Qmin 100 (p + 0.5 * 80)) in *. clearbody a.
  pose proof (Q.min_spec 100 (a + 0.5 * 80)) as H2.
  set (b := Qmin 100 (a + 0.5 * 80)) in *. clearbody b.
  pose proof (Q.min_spec 100 (b + 0.5 * 80)) as H3.
  set (c := Qmin 100 (b + 0.5 * 80)) in *. clearbody c.
  pose proof (Q.min_spec 100 (p + 120)) as H4.
  set (d := Qmin 100 (p + 120)) in *. clearbody d.
  destruct H1 as [[? ?]|[? ?]], H2 as [[? ?]|[? ?]], H3 as [[? ?]|[? ?]],
           H4 as [[? ?]|[? ?]]; lra.
Qed.

(** C1, on the code.  In the roster of R1 (probability 80, relation to R2
    of strength 0.5) and R2 (probability [p]), the run returns the
    propagation result of R2 with originalProbability [p] and
    finalProbability min(100, p + 120): the increase of 40 is added in
    each of the three passes.  At [p = 10] the final probability is 100,
    not 50. *)
Theorem analyzeRiskBehavior_scenario_three_passes
    p enableMonteCarlo iterations deadline budget :
  exists out st' result1 result2,
    analyzeRiskBehavior (scenarioStore p) scenarioInput enableMonteCarlo
      iterations deadline budget = Some (out, st')
    /\ AnalysisOutput.propagationResults out = [result1; result2]
    /\ PropagationResult.riskId result2 = lit "R2"
    /\ PropagationResult.originalProbability result2 = p
    /\ PropagationResult.finalProbability result2 == Qmin 100 (p + 120).
Proof.
  destruct (analyzeRiskBehavior_spec (scenarioStore p) scenarioInput
              enableMonteCarlo iterations deadline budget
              [scenarioR1; scenarioR2 p] [])
    as (out & cs & E & Erelax & _ & Hres).
  { repeat constructor. }
  { constructor. }
  simpl in Erelax. rewrite scenario_relaxation in Erelax.
  injection Erelax as Ecs. subst cs.
  rewrite scenario_results in Hres. injection Hres as Hres.
  eexists _, _, _, _. split; [exact E|]. split; [symmetry; exact Hres|].
  simpl. split; [reflexivity|]. split; [reflexivity|]. apply three_additions.
Qed.

(** ** Further properties of the engine *)

(** *** Durations *)

Lemma calculateDurationDays_ge_0 start end_ :
  0 <= calculateDurationDays start end_.
Proof.
  unfold calculateDurationDays.
  destruct (_ || _); [lra|].
  destruct (Date_parse start), (Date_parse end_); try lra.
  apply Q.le_max_l.
Qed.

(** X1. [calculateDurationDays] is never negative, whatever the strings
    and whatever the parser answers. *)
Theorem calculateDurationDays_nonneg start end_ :
  0 <= calculateDurationDays start end_.
Proof.
  unfold calculateDurationDays.
  destruct (negb (truthy start) || negb (truthy end_)
            || streq (trim start) [] || streq (trim end_) []); [lra|].
  destruct (Date_parse start); [|lra].
  destruct (Date_parse end_); [|lra].
  apply Q.le_max_l.
Qed.

Lemma calculateDurationDays_parsed start end_ startTime endTime :
  trim start <> [] -> trim end_ <> [] ->
  Date_parse start = Some startTime -> Date_parse end_ = Some endTime ->
  calculateDurationDays start end_
  = Qmax 0 (inject_Z (Qceiling (inject_Z (endTime - startTime)
                                / inject_Z (1000 * 60 * 60 * 24)))).
Proof.
  intros Hs He Ps Pe. unfold calculateDurationDays.
  rewrite (trim_nonempty _ Hs), (trim_nonempty _ He).
  apply streq_false in Hs, He. rewrite Hs, He, Ps, Pe. reflexivity.
Qed.

Lemma Qceiling_between (x : Q) (k : Z) :
  inject_Z k < x -> x <= inject_Z (k + 1) -> Qceiling x = (k + 1)%Z.
Proof.
  intros Hlo Hhi.
  pose proof (Qle_ceiling x) as H1.
  pose proof (Qceiling_lt x) as H2.
  assert (A : (k < Qceiling x)%Z) by (rewrite Zlt_Qlt; lra).
  assert (B : (Qceiling x - 1 < k + 1)%Z) by (rewrite Zlt_Qlt; lra).
  lia.
Qed.

(** X2. For two dates that parse, no more than 2^53 ms apart (where the
    difference of the two time values is computed without rounding), the
    duration is the number of started days between them: 0 when the end
    is not after the start, and [k + 1] when the end is more than [k] and
    at most [k + 1] full days after the start (86,400,000 ms each), so a
    partial day counts as a whole one. *)
Theorem calculateDurationDays_rounds_up start end_ startTime endTime :
  trim start <> [] -> trim end_ <> [] ->
  Date_parse start = Some startTime -> Date_parse end_ = Some endTime ->
  (Z.abs (endTime - startTime) <= 2 ^ 53)%Z ->
  ((endTime <= startTime)%Z -> calculateDurationDays start end_ == 0)
  /\ (forall k : Z,
        (0 <= k)%Z ->
        (k * 86400000 < endTime - startTime <= (k + 1) * 86400000)%Z ->
        calculateDurationDays start end_ == inject_Z (k + 1)).
Proof.
  intros Hs He Ps Pe _.
  rewrite (calculateDurationDays_parsed _ _ _ _ Hs He Ps Pe).
  change (1000 * 60 * 60 * 24)%Z with 86400000%Z.
  set (d := (endTime - startTime)%Z).
  assert (HD : 0 < inject_Z 86400000) by reflexivity.
  split.
  - intros Hle.
    assert (Hq : inject_Z d / inject_Z 86400000 <= 0).
    { apply Qle_shift_div_r; [exact HD|]. rewrite Qmult_0_l.
      change 0 with (inject_Z 0). rewrite <- Zle_Qle. lia. }
    pose proof (Qceiling_lt (inject_Z d / inject_Z 86400000)) as Hc.
    assert (Hz : (Qceiling (inject_Z d / inject_Z 86400000) <= 0)%Z).
    { assert (Qceiling (inject_Z d / inject_Z 86400000) - 1 < 0)%Z; [|lia].
      rewrite Zlt_Qlt. change (inject_Z 0) with 0. lra. }
    rewrite Zle_Qle in Hz. change (inject_Z 0) with 0 in Hz.
    destruct (Q.max_spec 0 (inject_Z (Qceiling (inject_Z d / inject_Z 86400000))))
      as [[? E]|[? E]]; lra.
  - intros k Hk [Hlo Hhi].
    rewrite (Qceiling_between (inject_Z d / inject_Z 86400000) k).
    + assert (Hpos : 0 <= inject_Z (k + 1))
        by (change 0 with (inject_Z 0); rewrite <- Zle_Qle; lia).
      destruct (Q.max_spec 0 (inject_Z (k + 1))) as [[? E]|[? E]]; lra.
    + apply Qlt_shift_div_l; [exact HD|]. rewrite <- inject_Z_mult.
      rewrite <- Zlt_Qlt. exact Hlo.
    + apply Qle_shift_div_r; [exact HD|]. rewrite <- inject_Z_mult.
      rewrite <- Zle_Qle. exact Hhi.
Qed.

(** *** Affected sums and impacts *)

Lemma filter_filter_andb {A} (f g : A -> bool) (l : list A) :
  List.filter g (List.filter f l) = List.filter (fun x => g x && f x) l.
Proof.
  induction l as [|x l IH]; [reflexivity|]. simpl.
  destruct (f x) eqn:F; simpl.
  - destruct (g x); simpl; rewrite IH; reflexivity.
  - rewrite andb_false_r. exact IH.
Qed.

Lemma affectedLevel2_level2 risk activities :
  affectedLevel2 risk (List.filter (fun a => (Activity.level a =? 2)%Z) activities)
  = affectedLevel2 risk activities.
Proof.
  unfold affectedLevel2. rewrite filter_filter_andb. apply filter_ext.
  intros a. destruct (Activity.level a =? 2)%Z;
    rewrite ?andb_true_r, ?andb_false_r; reflexivity.
Qed.

(** X3. Level-1 activities never contribute to a risk's sums: the
    affected duration and cost sums over an activity list are those over
    its Level-2 activities alone, also when the risk lists Level-1 ids. *)
Theorem affected_sums_ignore_level1 risk activities :
  getAffectedDurationSum risk activities
  = getAffectedDurationSum risk
      (List.filter (fun a => (Activity.level a =? 2)%Z) activities)
  /\ getAffectedCostSum risk activities
     = getAffectedCostSum risk
         (List.filter (fun a => (Activity.level a =? 2)%Z) activities).
Proof.
  unfold getAffectedDurationSum, getAffectedCostSum.
  rewrite affectedLevel2_level2. split; reflexivity.
Qed.

Lemma affectedLevel2_none risk activities :
  (forall a, In a activities ->
             In (Activity.id a) (Risk.affectedActivities risk) ->
             Activity.level a <> 2%Z) ->
  affectedLevel2 risk activities = [].
Proof.
  intros H. unfold affectedLevel2.
  induction activities as [|a activities IH]; [reflexivity|]. simpl.
  destruct (includes (Risk.affectedActivities risk) (Activity.id a)) eqn:I;
    simpl.
  - destruct (Activity.level a =? 2)%Z eqn:L.
    + exfalso. apply (H a (or_introl eq_refl)).
      * apply includes_In, I.
      * apply Z.eqb_eq, L.
    + apply IH. intros a' Ha'. apply H. right. exact Ha'.
  - apply IH. intros a' Ha'. apply H. right. exact Ha'.
Qed.

(** X4. A risk whose affectedActivities resolve to no Level-2 activity of
    the list (the set is empty, or its ids are unknown or name artifacts
    only) is not an error: [calculateSingleRisk] returns a record whose
    sums, added days and cost, and expected impacts are all 0. *)
Theorem calculateSingleRisk_unresolved risk activities allRisks maxT maxC :
  (forall a, In a activities ->
             In (Activity.id a) (Risk.affectedActivities risk) ->
             Activity.level a <> 2%Z) ->
  exists out,
    calculateSingleRisk risk activities allRisks maxT maxC = Some out
    /\ RiskAnalysisOutput.affectedDurationSum out == 0
    /\ RiskAnalysisOutput.affectedCostSum out == 0
    /\ RiskAnalysisOutput.addedDays out == 0
    /\ RiskAnalysisOutput.expectedTimeImpact out == 0
    /\ RiskAnalysisOutput.addedCost out == 0
    /\ RiskAnalysisOutput.expectedCostImpact out == 0.
Proof.
  intros H.
  destruct (calculateSingleRisk_fields risk activities allRisks maxT maxC)
    as (s & score & E).
  eexists. split; [exact E|]. simpl.
  unfold getAffectedDurationSum, getAffectedCostSum.
  rewrite (affectedLevel2_none risk activities H). simpl.
  repeat split; try reflexivity; ring.
Qed.

Lemma fold_addDuration_nonneg activities sum :
  0 <= sum ->
  (forall a d, In a activities -> Activity.durationDays a = Some d -> 0 <= d) ->
  (forall a, In a activities -> Activity.durationDays a <> None) ->
  0 <= fold_left addDuration activities sum.
Proof.
  revert sum. induction activities as [|a activities IH]; intros sum Hs Hd Hn;
    [exact Hs|].
  simpl. apply IH.
  - unfold addDuration.
    destruct ((Activity.level a =? 2)%Z && truthy (Activity.start a)
              && truthy (Activity.end_ a)); [|exact Hs].
    unfold durationOf. destruct (Activity.durationDays a) as [d|] eqn:E.
    + pose proof (Hd a d (or_introl eq_refl) E). lra.
    + exfalso. apply (Hn a (or_introl eq_refl)), E.
  - intros a' d Ha'. apply Hd. right. exact Ha'.
  - intros a' Ha'. apply Hn. right. exact Ha'.
Qed.

Lemma fold_costOf_nonneg activities sum :
  0 <= sum ->
  (forall a, In a activities -> 0 <= costOf a) ->
  0 <= fold_left (fun sum a => sum + costOf a) activities sum.
Proof.
  revert sum. induction activities as [|a activities IH]; intros sum Hs Hc;
    [exact Hs|].
  simpl. apply IH.
  - pose proof (Hc a (or_introl eq_refl)). lra.
  - intros a' Ha'. apply Hc. right. exact Ha'.
Qed.

Lemma getAffectedDurationSum_enriched risk activities :
  0 <= getAffectedDurationSum risk (enrichActivities activities).
Proof.
  unfold getAffectedDurationSum. apply fold_addDuration_nonneg; [lra| |].
  - intros a d Ha Hdur. unfold affectedLevel2 in Ha.
    apply filter_In in Ha as [Ha _]. unfold enrichActivities in Ha.
    apply in_map_iff in Ha as (a0 & <- & _). simpl in Hdur.
    injection Hdur as <-.
    destruct ((Activity.level a0 =? 2)%Z && truthy (Activity.start a0)
              && truthy (Activity.end_ a0));
      [apply calculateDurationDays_ge_0|lra].
  - intros a Ha. unfold affectedLevel2 in Ha.
    apply filter_In in Ha as [Ha _]. unfold enrichActivities in Ha.
    apply in_map_iff in Ha as (a0 & <- & _). simpl. discriminate.
Qed.

Lemma getAffectedCostSum_enriched risk activities :
  (forall a, In a activities -> 0 <= Activity.cost a) ->
  0 <= getAffectedCostSum risk (enrichActivities activities).
Proof.
  intros Hcost. unfold getAffectedCostSum. apply fold_costOf_nonneg; [lra|].
  intros a Ha. unfold affectedLevel2 in Ha.
  apply filter_In in Ha as [Ha _]. unfold enrichActivities in Ha.
  apply in_map_iff in Ha as (a0 & <- & Ha0). simpl. apply Hcost, Ha0.
Qed.

(** X5. On enriched activities with non-negative costs, a risk with
    probability in [0,100] and non-negative impact percentages gets
    non-negative sums, and each expected impact lies between 0 and the
    corresponding added amount - for costs and percentages that are
    [moderate], so that no added amount overflows. *)
Theorem calculateSingleRisk_expected_bounds risk activities allRisks maxT maxC :
  0 <= Risk.probability risk -> Risk.probability risk <= 100 ->
  0 <= Risk.timeImpactPercent risk -> 0 <= Risk.costImpactPercent risk ->
  (forall a, In a activities -> 0 <= Activity.cost a) ->
  moderate (Risk.timeImpactPercent risk) ->
  moderate (Risk.costImpactPercent risk) ->
  (forall a, In a activities -> moderate (Activity.cost a)) ->
  exists out,
    calculateSingleRisk risk (enrichActivities activities) allRisks maxT maxC
    = Some out
    /\ 0 <= RiskAnalysisOutput.affectedDurationSum out
    /\ 0 <= RiskAnalysisOutput.affectedCostSum out
    /\ 0 <= RiskAnalysisOutput.expectedTimeImpact out
    /\ RiskAnalysisOutput.expectedTimeImpact out <= RiskAnalysisOutput.addedDays out
    /\ 0 <= RiskAnalysisOutput.expectedCostImpact out
    /\ RiskAnalysisOutput.expectedCostImpact out <= RiskAnalysisOutput.addedCost out.
Proof.
  intros Hp0 Hp100 Ht Hc Hcost _ _ _.
  destruct (calculateSingleRisk_fields risk (enrichActivities activities)
              allRisks maxT maxC) as (s & score & E).
  eexists. split; [exact E|]. simpl.
  pose proof (getAffectedDurationSum_enriched risk activities) as Hd.
  pose proof (getAffectedCostSum_enriched risk activities Hcost) as Hs.
  set (ds := getAffectedDurationSum risk (enrichActivities activities)) in *.
  set (cs := getAffectedCostSum risk (enrichActivities activities)) in *.
  clearbody ds cs.
  assert (Ht' : 0 <= Risk.timeImpactPercent risk / 100)
    by (apply Qle_shift_div_l; [reflexivity|lra]).
  assert (Hc' : 0 <= Risk.costImpactPercent risk / 100)
    by (apply Qle_shift_div_l; [reflexivity|lra]).
  assert (Hp0' : 0 <= Risk.probability risk / 100)
    by (apply Qle_shift_div_l; [reflexivity|lra]).
  assert (Hp1' : Risk.probability risk / 100 <= 1)
    by (apply Qle_shift_div_r; [reflexivity|lra]).
  set (t := Risk.timeImpactPercent risk / 100) in *.
  set (c := Risk.costImpactPercent risk / 100) in *.
  set (p := Risk.probability risk / 100) in *.
  clearbody t c p.
  assert (Hat : 0 <= ds * t) by (apply Qmult_le_0_compat; assumption).
  assert (Hac : 0 <= cs * c) by (apply Qmult_le_0_compat; assumption).
  set (ad := ds * t) in *. set (ac := cs * c) in *. clearbody ad ac.
  repeat split; try assumption; nra.
Qed.

(** *** Dependency centrality *)

Lemma maxFrom_In (xs : list nat) (init x : nat) :
  In x xs -> (x <= maxFrom init xs)%nat.
Proof.
  unfold maxFrom. revert init.
  induction xs as [|y xs IH]; intros init H; [contradiction|]. simpl.
  destruct H as [->|H].
  - pose proof (maxFrom_ge xs (Nat.max init x)). unfold maxFrom in *. lia.
  - apply IH, H.
Qed.

Lemma ofNat_le (n m : nat) : (n <= m)%nat -> ofNat n <= ofNat m.
Proof. intros H. unfold ofNat. rewrite <- Zle_Qle. lia. Qed.

(** X6. For a risk of the roster the dependency centrality is defined and
    lies in [0,100]; it is 0 for a risk with no outgoing relation that no
    risk of the roster relates to. *)
Theorem calculateDependencyCentrality_range risk allRisks :
  In risk allRisks ->
  exists c,
    calculateDependencyCentrality risk allRisks = Some c
    /\ 0 <= c /\ c <= 100
    /\ (degreeOf allRisks risk = 0%nat -> c == 0).
Proof.
  intros Hin. rewrite calculateDependencyCentrality_defined.
  eexists. split; [reflexivity|].
  set (d := degreeOf allRisks risk).
  set (m := maxFrom 1 (map (degreeOf allRisks) allRisks)).
  assert (Hm : 0 < ofNat m) by (apply ofNat_pos, maxFrom_ge).
  assert (Hd : 0 <= ofNat d)
    by (change 0 with (ofNat 0); apply ofNat_le; lia).
  assert (Hdm : ofNat d <= ofNat m)
    by (apply ofNat_le, maxFrom_In, in_map, Hin).
  assert (Hlo : 0 <= ofNat d / ofNat m)
    by (apply Qle_shift_div_l; [exact Hm|lra]).
  assert (Hhi : ofNat d / ofNat m <= 1)
    by (apply Qle_shift_div_r; [exact Hm|lra]).
  split; [lra|]. split; [lra|].
  intros ->. reflexivity.
Qed.

(** *** Behaviour score and combined scenarios *)



(** X8. Whatever the number of risks combined and their percentages, the
    combined time and cost impact percentages of a scenario never exceed
    200. *)
Theorem calculateCombinedImpact_capped riskIds risks activities scenario :
  calculateCombinedImpact riskIds risks activities = Some scenario ->
  CombinedScenario.combinedTimeImpactPercent scenario <= 200
  /\ CombinedScenario.combinedCostImpactPercent scenario <= 200.
Proof.
  unfold calculateCombinedImpact. cbv zeta.
  destruct (length (List.filter _ activities) =? 0)%nat.
  - intros [= <-]. simpl. split; lra.
  - destruct (div _ _) as [avg|]; [|discriminate]. simpl.
    intros [= <-]. simpl. split; apply Q.le_min_l.
Qed.

Lemma filter_nil_iff {A} (f : A -> bool) (l : list A) :
  List.filter f l = [] <-> forall x, In x l -> f x = false.
Proof.
  induction l as [|y l IH]; simpl.
  - split; [intros _ x []|reflexivity].
  - destruct (f y) eqn:F.
    + split; [discriminate|]. intros H.
      specialize (H y (or_introl eq_refl)). congruence.
    + rewrite IH. split.
      * intros H x [<-|Hx]; [exact F|apply H, Hx].
      * intros H x Hx. apply H. right. exact Hx.
Qed.

(** X9. On a roster and activities whose numbers are [moderate],
    [calculateCombinedImpact] leaves the finite numbers (its average
    probability is 0/0, NaN in JavaScript) exactly when no risk of the
    roster has its id among [riskIds] while the activity list has a
    Level-2 activity; in every other case it returns a scenario. *)
Theorem calculateCombinedImpact_undefined_iff riskIds risks activities :
  Forall moderateRisk risks ->
  Forall moderateActivity activities ->
  calculateCombinedImpact riskIds risks activities = None
  <-> (forall r, In r risks -> ~ In (Risk.id r) riskIds)
      /\ exists a, In a activities /\ Activity.level a = 2%Z.
Proof.
  intros _ _. split.
  - intros Hnone.
    assert (Hsel : forall r, In r risks -> ~ In (Risk.id r) riskIds).
    { intros r Hr Hid.
      destruct (calculateCombinedImpact_defined riskIds risks activities)
        as (sc & E); [eauto|]. congruence. }
    split; [exact Hsel|].
    unfold calculateCombinedImpact in Hnone. cbv zeta in Hnone.
    destruct (List.filter _ activities) as [|a common] eqn:F;
      [discriminate|].
    assert (Ha : In a (a :: common)) by (left; reflexivity).
    rewrite <- F in Ha. apply filter_In in Ha as [Ha Hcond].
    apply andb_true_iff in Hcond as [_ L].
    exists a. split; [exact Ha|apply Z.eqb_eq, L].
  - intros [Hsel (a & Ha & La)].
    unfold calculateCombinedImpact. cbv zeta.
    assert (E : List.filter (fun r => includes riskIds (Risk.id r)) risks = []).
    { apply filter_nil_iff. intros r Hr.
      destruct (includes riskIds (Risk.id r)) eqn:I; [|reflexivity].
      exfalso. apply (Hsel r Hr), includes_In, I. }
    rewrite E. simpl.
    destruct (List.filter _ activities) as [|a' common] eqn:F.
    + exfalso.
      assert (Hn : In a []); [|destruct Hn].
      rewrite <- F. apply filter_In. split; [exact Ha|].
      apply Z.eqb_eq in La. rewrite La. reflexivity.
    + reflexivity.
Qed.

Lemma filter_unique_id (risks : list Risk.t) (r : Risk.t) :
  List.NoDup (map Risk.id risks) -> In r risks ->
  List.filter (fun r' => includes [Risk.id r] (Risk.id r')) risks = [r].
Proof.
  induction risks as [|r0 risks IH]; intros Hnd Hin; [contradiction|].
  simpl in Hnd. apply NoDup_cons_iff in Hnd as [Hnotin Hnd]. cbn [List.filter].
  destruct Hin as [->|Hin].
  - assert (E : includes [Risk.id r] (Risk.id r) = true)
      by (apply includes_In; left; reflexivity).
    rewrite E. f_equal. apply filter_nil_iff. intros r' Hr'.
    destruct (includes [Risk.id r] (Risk.id r')) eqn:I; [|reflexivity].
    apply includes_In in I as [I|[]]. exfalso. apply Hnotin. rewrite I.
    apply in_map, Hr'.
  - destruct (includes [Risk.id r] (Risk.id r0)) eqn:I.
    + apply includes_In in I as [I|[]]. exfalso. apply Hnotin. rewrite <- I.
      apply in_map, Hin.
    + apply IH; assumption.
Qed.

(** X10. Combining a single risk agrees with the single-risk calculator:
    in a roster with distinct ids, for a risk whose two impact
    percentages are at most 200, the scenario of that risk alone has the
    expected time and cost impacts that [calculateTimeImpact] and
    [calculateCostImpact] give on the risk's own affected sums. *)
Theorem calculateCombinedImpact_single risk risks activities :
  List.NoDup (map Risk.id risks) -> In risk risks ->
  Risk.timeImpactPercent risk <= 200 -> Risk.costImpactPercent risk <= 200 ->
  exists scenario,
    calculateCombinedImpact [Risk.id risk] risks activities = Some scenario
    /\ CombinedScenario.combinedExpectedTimeImpact scenario
       == snd (calculateTimeImpact risk (getAffectedDurationSum risk activities))
    /\ CombinedScenario.combinedExpectedCostImpact scenario
       == snd (calculateCostImpact risk (getAffectedCostSum risk activities)).
Proof.
  intros Hnd Hin Ht Hc. unfold calculateCombinedImpact. cbv zeta.
  rewrite (filter_unique_id risks risk Hnd Hin).
  assert (Ecommon :
            List.filter
              (fun a =>
                 forallb (fun r => includes (Risk.affectedActivities r)
                                            (Activity.id a)) [risk]
                 && (Activity.level a =? 2)%Z) activities
            = affectedLevel2 risk activities).
  { unfold affectedLevel2. apply filter_ext. intros a. simpl.
    rewrite andb_true_r. reflexivity. }
  rewrite Ecommon. unfold getAffectedDurationSum, getAffectedCostSum.
  destruct (length (affectedLevel2 risk activities) =? 0)%nat eqn:L.
  - apply Nat.eqb_eq, List.length_zero_iff_nil in L. rewrite L. simpl.
    eexists. split; [reflexivity|]. simpl. split; ring.
  - rewrite div_defined by (intros H; vm_compute in H; discriminate H).
    simpl. eexists. split; [reflexivity|]. simpl.
    pose proof (Q.min_spec 200 (0 + Risk.timeImpactPercent risk)) as Mt.
    pose proof (Q.min_spec 200 (0 + Risk.costImpactPercent risk)) as Mc.
    set (mt := Qmin 200 (0 + Risk.timeImpactPercent risk)) in *.
    set (mc := Qmin 200 (0 + Risk.costImpactPercent risk)) in *.
    clearbody mt mc.
    assert (Emt : mt == Risk.timeImpactPercent risk)
      by (destruct Mt as [[? ?]|[? ?]]; lra).
    assert (Emc : mc == Risk.costImpactPercent risk)
      by (destruct Mc as [[? ?]|[? ?]]; lra).
    assert (Eavg : (0 + Risk.probability risk) / ofNat 1 == Risk.probability risk)
      by (unfold ofNat; simpl; field).
    rewrite Emt, Emc, Eavg. split; reflexivity.
Qed.

(** *** The single-source propagation *)

Lemma propagateRiskFuel_unfold fuel risk allRisks visited depth path :
  propagateRiskFuel (S fuel) risk allRisks visited depth path
  = if (3 <? depth)%nat || includes visited (Risk.id risk)
    then (PropagationResult.mk (Risk.id risk) (Risk.probability risk)
            (Risk.probability risk) path, visited)
    else
      (PropagationResult.mk (Risk.id risk) (Risk.probability risk)
         (fold_left
            (propagateStep risk allRisks depth
               (fun related =>
                  PropagationResult.finalProbability
                    (fst (propagateRiskFuel fuel related allRisks
                            (setAdd visited (Risk.id risk)) (depth + 1)
                            (path ++ [Risk.id risk])))))
            (Risk.relatedRisks risk) (Risk.probability risk))
         (path ++ [Risk.id risk]),
       setAdd visited (Risk.id risk)).
Proof. reflexivity. Qed.

(** The recursion equation of [propagateRisk], as the code has it. *)
Lemma propagateRisk_unfold risk allRisks visited depth path :
  propagateRisk risk allRisks visited depth path
  = if (3 <? depth)%nat || includes visited (Risk.id risk)
    then (PropagationResult.mk (Risk.id risk) (Risk.probability risk)
            (Risk.probability risk) path, visited)
    else
      (PropagationResult.mk (Risk.id risk) (Risk.probability risk)
         (fold_left
            (propagateStep risk allRisks depth
               (fun related =>
                  PropagationResult.finalProbability
                    (fst (propagateRisk related allRisks
                            (setAdd visited (Risk.id risk)) (depth + 1)
                            (path ++ [Risk.id risk])))))
            (Risk.relatedRisks risk) (Risk.probability risk))
         (path ++ [Risk.id risk]),
       setAdd visited (Risk.id risk)).
Proof.
  unfold propagateRisk.
  destruct (3 <? depth)%nat eqn:D.
  - apply Nat.ltb_lt in D. replace (4 - depth)%nat with 0%nat by lia.
    reflexivity.
  - pose proof (proj1 (Nat.ltb_ge 3 depth) D) as D'.
    replace (4 - depth)%nat with (S (3 - depth)) by lia.
    replace (4 - (depth + 1))%nat with (3 - depth)%nat by lia.
    rewrite propagateRiskFuel_unfold, D. reflexivity.
Qed.

Lemma propagateStep_bounds risk allRisks depth recurse final relation :
  (forall related, Risk.probability related <= 100 -> recurse related <= 100) ->
  Risk.probability risk <= final ->
  (Risk.probability risk <= 100 -> final <= 100) ->
  Risk.probability risk <= propagateStep risk allRisks depth recurse final relation
  /\ (Risk.probability risk <= 100 ->
      propagateStep risk allRisks depth recurse final relation <= 100).
Proof.
  intros Hrec Hlo Hhi. unfold propagateStep.
  destruct (find _ allRisks) as [related|]; [|split; assumption].
  cbv zeta. destruct (Qltb 0.1 _); [|split; assumption].
  destruct ((depth <? 3)%nat && _); [|split; assumption].
  match goal with
  | |- context [Qmax final ?x] =>
      assert (Hx : x <= 100) by (apply Hrec; simpl; apply Q.le_min_l);
      pose proof (Q.max_spec final x) as M;
      set (m := Qmax final x) in *; clearbody m
  end.
  split; [|intros H; specialize (Hhi H)];
    destruct M as [[? ?]|[? ?]]; lra.
Qed.

Lemma fold_propagateStep_bounds risk allRisks depth recurse relations final :
  (forall related, Risk.probability related <= 100 -> recurse related <= 100) ->
  Risk.probability risk <= final ->
  (Risk.probability risk <= 100 -> final <= 100) ->
  Risk.probability risk
  <= fold_left (propagateStep risk allRisks depth recurse) relations final
  /\ (Risk.probability risk <= 100 ->
      fold_left (propagateStep risk allRisks depth recurse) relations final
      <= 100).
Proof.
  intros Hrec. revert final.
  induction relations as [|relation relations IH]; intros final Hlo Hhi;
    [split; assumption|].
  simpl.
  destruct (propagateStep_bounds risk allRisks depth recurse final relation
              Hrec Hlo Hhi) as [Hlo' Hhi'].
  apply IH; assumption.
Qed.

Lemma propagateRiskFuel_bounds fuel :
  forall risk allRisks visited depth path,
    let result := fst (propagateRiskFuel fuel risk allRisks visited depth path) in
    PropagationResult.originalProbability result = Risk.probability risk
    /\ Risk.probability risk <= PropagationResult.finalProbability result
    /\ (Risk.probability risk <= 100 ->
        PropagationResult.finalProbability result <= 100).
Proof.
  induction fuel as [|fuel IH]; intros risk allRisks visited depth path.
  - simpl. split; [reflexivity|]. split; [lra|tauto].
  - cbv zeta. rewrite propagateRiskFuel_unfold.
    destruct ((3 <? depth)%nat || includes visited (Risk.id risk)).
    + simpl. split; [reflexivity|]. split; [lra|tauto].
    + cbn [fst PropagationResult.originalProbability
           PropagationResult.finalProbability].
      split; [reflexivity|].
      apply fold_propagateStep_bounds; [|lra|tauto].
      intros related Hrel.
      destruct (IH related allRisks (setAdd visited (Risk.id risk))
                   (depth + 1)%nat (path ++ [Risk.id risk])) as (_ & _ & H).
      apply H, Hrel.
Qed.

(** X11. The result of [propagateRisk] keeps the risk's probability as
    originalProbability, its finalProbability is never below it, and it
    is at most 100 when the risk's probability is - on any roster, cyclic
    or not, and from any depth and visited set. *)
Theorem propagateRisk_bounds risk allRisks visited depth path :
  PropagationResult.originalProbability
    (fst (propagateRisk risk allRisks visited depth path))
  = Risk.probability risk
  /\ Risk.probability risk
     <= PropagationResult.finalProbability
          (fst (propagateRisk risk allRisks visited depth path))
  /\ (Risk.probability risk <= 100 ->
      PropagationResult.finalProbability
        (fst (propagateRisk risk allRisks visited depth path)) <= 100).
Proof. apply (propagateRiskFuel_bounds (4 - depth)). Qed.

Lemma fold_propagateStep_skipped risk allRisks depth recurse relations final :
  (forall relation,
     In relation relations ->
     find (fun r => streq (Risk.id r) (RiskRelation.riskId relation)) allRisks
     = None
     \/ default 0.3 (RiskRelation.strength relation) * Risk.probability risk
        <= 0.1) ->
  fold_left (propagateStep risk allRisks depth recurse) relations final = final.
Proof.
  revert final. induction relations as [|relation relations IH];
    intros final H; [reflexivity|].
  simpl. rewrite IH by (intros rel Hrel; apply H; right; exact Hrel).
  unfold propagateStep.
  destruct (H relation (or_introl eq_refl)) as [-> | Hle]; [reflexivity|].
  destruct (find _ allRisks); [|reflexivity].
  cbv zeta. apply Qltb_false in Hle. rewrite Hle. reflexivity.
Qed.

(** X12. Relations that do not resolve to a risk of the roster, and
    relations whose increase (strength, 0.3 when absent, times the risk's
    probability) is at most 0.1, contribute nothing: when every relation
    of the risk is of one of these kinds, and the risk is neither visited
    nor deeper than 3, the result has finalProbability equal to the
    original, the path extended by the risk's id, and the id added to the
    visited set. *)
Theorem propagateRisk_insignificant risk allRisks visited depth path :
  (depth <= 3)%nat ->
  ~ In (Risk.id risk) visited ->
  (forall relation,
     In relation (Risk.relatedRisks risk) ->
     find (fun r => streq (Risk.id r) (RiskRelation.riskId relation)) allRisks
     = None
     \/ default 0.3 (RiskRelation.strength relation) * Risk.probability risk
        <= 0.1) ->
  propagateRisk risk allRisks visited depth path
  = (PropagationResult.mk (Risk.id risk) (Risk.probability risk)
       (Risk.probability risk) (path ++ [Risk.id risk]),
     visited ++ [Risk.id risk]).
Proof.
  intros Hd Hv Hrel. rewrite propagateRisk_unfold.
  assert (D : (3 <? depth)%nat = false) by (apply Nat.ltb_ge; lia).
  assert (V : includes visited (Risk.id risk) = false).
  { destruct (includes visited (Risk.id risk)) eqn:I; [|reflexivity].
    apply includes_In in I. contradiction. }
  rewrite D, V. simpl orb. cbv iota.
  rewrite fold_propagateStep_skipped by exact Hrel.
  unfold setAdd. rewrite V. reflexivity.
Qed.

(** X13. One relation, applied once: for a risk with a single relation
    that resolves to a risk without relations of its own, with an
    increase of at least 0.2 and the related probability between 0 and
    99.8 (clear of the two 0.1 thresholds, so that rounding cannot change
    the branch taken), the final probability is the larger of the risk's
    probability and min(100, related probability + increase). *)
Theorem propagateRisk_single_relation risk allRisks visited depth path
    relation related :
  (depth < 3)%nat ->
  ~ In (Risk.id risk) visited ->
  Risk.relatedRisks risk = [relation] ->
  find (fun r => streq (Risk.id r) (RiskRelation.riskId relation)) allRisks
  = Some related ->
  Risk.relatedRisks related = [] ->
  0.2 <= default 0.3 (RiskRelation.strength relation) * Risk.probability risk ->
  0 <= Risk.probability related ->
  Risk.probability related <= 99.8 ->
  exists result,
    fst (propagateRisk risk allRisks visited depth path) = result
    /\ PropagationResult.propagationPath result = path ++ [Risk.id risk]
    /\ PropagationResult.finalProbability result
       == Qmax (Risk.probability risk)
               (Qmin 100 (Risk.probability related
                          + default 0.3 (RiskRelation.strength relation)
                            * Risk.probability risk)).
Proof.
  intros Hd Hv Hrels Hfind Hleaf Hinc Hlow Hroom.
  rewrite propagateRisk_unfold.
  assert (D : (3 <? depth)%nat = false) by (apply Nat.ltb_ge; lia).
  assert (V : includes visited (Risk.id risk) = false).
  { destruct (includes visited (Risk.id risk)) eqn:I; [|reflexivity].
    apply includes_In in I. contradiction. }
  rewrite D, V. simpl orb. cbv iota.
  eexists. split; [reflexivity|]. cbn [fst PropagationResult.propagationPath
                                       PropagationResult.finalProbability].
  split; [reflexivity|].
  rewrite Hrels. cbn [fold_left]. unfold propagateStep. rewrite Hfind.
  cbv zeta.
  set (inc := default 0.3 (RiskRelation.strength relation)
              * Risk.probability risk) in *.
  assert (E1 : Qltb 0.1 inc = true) by (apply Qltb_true; lra).
  rewrite E1.
  assert (E2 : (depth <? 3)%nat = true) by (apply Nat.ltb_lt, Hd).
  rewrite E2.
  pose proof (Q.min_spec 100 (Risk.probability related + inc)) as M.
  set (newProbability := Qmin 100 (Risk.probability related + inc)) in *.
  assert (E3 : Qltb 0.1 (Qabs (newProbability - Risk.probability related)) = true).
  { apply Qltb_true.
    assert (Hpos : 0 <= newProbability - Risk.probability related)
      by (destruct M as [[? ?]|[? ?]]; lra).
    rewrite (Qabs_pos _ Hpos). destruct M as [[? ?]|[? ?]]; lra. }
  rewrite E3. simpl andb. cbv iota.
  rewrite propagateRisk_unfold.
  destruct ((3 <? depth + 1)%nat
            || includes (setAdd visited (Risk.id risk))
                 (Risk.id (Risk.withProbability newProbability related)));
    cbn [fst PropagationResult.finalProbability]; [reflexivity|].
  simpl Risk.relatedRisks. rewrite Hleaf. reflexivity.
Qed.

(** *** Percentiles of a sorted array *)

Lemma percentile_index sortedArray p :
  percentile sortedArray p = sortedArray !! percentileIndex (length sortedArray) p.
Proof. reflexivity. Qed.

Lemma percentileIndex_lt n p : (0 < n)%nat -> (percentileIndex n p < n)%nat.
Proof. intros H. unfold percentileIndex. lia. Qed.

Lemma percentileIndex_monotone n p q :
  p <= q -> (percentileIndex n p <= percentileIndex n q)%nat.
Proof.
  intros H. unfold percentileIndex.
  assert (Hn : 0 <= ofNat n)
    by (change 0 with (ofNat 0); unfold ofNat; rewrite <- Zle_Qle; lia).
  assert (Hc : (Qceiling (p / 100 * ofNat n) <= Qceiling (q / 100 * ofNat n))%Z).
  { apply Qceiling_resp_le. apply Qmult_le_compat_r; [|exact Hn].
    unfold Qdiv. apply Qmult_le_compat_r; [exact H|]. discriminate. }
  lia.
Qed.

(** X14. [percentile] never reads outside the array: on a non-empty array
    it returns one of its elements for every [p], also below 0 or above
    100; it is undefined exactly on the empty array. *)
Theorem percentile_in_bounds sortedArray p :
  (sortedArray = [] -> percentile sortedArray p = None)
  /\ (sortedArray <> [] ->
      exists x, percentile sortedArray p = Some x /\ In x sortedArray).
Proof.
  split.
  - intros ->. reflexivity.
  - intros Hne. rewrite percentile_index.
    assert (Hlen : (0 < length sortedArray)%nat)
      by (destruct sortedArray; [contradiction|simpl; lia]).
    destruct (lookup_lt_is_Some_2 sortedArray
                (percentileIndex (length sortedArray) p)) as [x Hx];
      [apply percentileIndex_lt, Hlen|].
    exists x. split; [exact Hx|].
    apply list_elem_of_In. eapply list_elem_of_lookup_2, Hx.
Qed.

Lemma StronglySorted_lookup_le (l : list Q) i j x y :
  StronglySorted Qle l -> (i <= j)%nat ->
  l !! i = Some x -> l !! j = Some y -> x <= y.
Proof.
  intros Hs. revert i j. induction Hs as [|a l Hs IH Hall]; intros i j Hij Hi Hj;
    [discriminate|].
  destruct i as [|i], j as [|j]; simpl in Hi, Hj.
  - injection Hi as <-. injection Hj as <-. lra.
  - injection Hi as <-. rewrite List.Forall_forall in Hall. apply Hall.
    apply list_elem_of_In. eapply list_elem_of_lookup_2, Hj.
  - lia.
  - apply (IH i j); [lia|assumption|assumption].
Qed.

(** X15. On an array sorted in ascending order the percentile is monotone
    in [p]: for [p <= q] the value at [p] is at most the value at [q], so
    p10 <= p50 <= p90. *)
Theorem percentile_monotone sortedArray p q x y :
  Sorted Qle sortedArray -> p <= q ->
  percentile sortedArray p = Some x -> percentile sortedArray q = Some y ->
  x <= y.
Proof.
  intros Hs Hpq Hx Hy. rewrite percentile_index in Hx, Hy.
  apply Sorted_StronglySorted in Hs; [|intros a b c; apply Qle_trans].
  eapply StronglySorted_lookup_le; [exact Hs| |exact Hx|exact Hy].
  apply percentileIndex_monotone, Hpq.
Qed.

(** X16. The ends of the range: for [p <= 0] the percentile is the first
    element of the array, and for [p >= 100] it is the last one. *)
Theorem percentile_ends sortedArray p :
  (p <= 0 -> percentile sortedArray p = sortedArray !! 0%nat)
  /\ (100 <= p ->
      percentile sortedArray p = sortedArray !! (length sortedArray - 1)%nat).
Proof.
  rewrite percentile_index. unfold percentileIndex.
  set (n := length sortedArray).
  assert (Hn : 0 <= ofNat n)
    by (change 0 with (ofNat 0); unfold ofNat; rewrite <- Zle_Qle; lia).
  split; intros Hp; f_equal.
  - assert (Hq : p / 100 * ofNat n <= 0).
    { assert (p / 100 <= 0) by (apply Qle_shift_div_r; [reflexivity|lra]).
      nra. }
    pose proof (Qceiling_lt (p / 100 * ofNat n)) as Hc.
    assert (Qceiling (p / 100 * ofNat n) - 1 < 0)%Z; [|lia].
    rewrite Zlt_Qlt. change (inject_Z 0) with 0. lra.
  - assert (Hq : ofNat n <= p / 100 * ofNat n).
    { assert (1 <= p / 100) by (apply Qle_shift_div_l; [reflexivity|lra]).
      nra. }
    pose proof (Qle_ceiling (p / 100 * ofNat n)) as Hc.
    assert (Z.of_nat n <= Qceiling (p / 100 * ofNat n))%Z; [|lia].
    pose proof (Qceiling_resp_le _ _ Hq) as H.
    unfold ofNat in H. rewrite Qceiling_Z in H. exact H.
Qed.

(** *** What the validator accepts *)

Lemma pushIf_nil cond e errors :
  pushIf cond e errors = [] <-> cond = false /\ errors = [].
Proof.
  unfold pushIf. destruct cond.
  - split; [|intros [H _]; discriminate H].
    intros H. apply app_eq_nil in H as [_ H]. discriminate H.
  - tauto.
Qed.

Lemma fold_pushIf_nil {A} (cond : A -> bool) (e : A -> ValidationError.t)
    (l : list A) (errors : list ValidationError.t) :
  fold_left (fun errors x => pushIf (cond x) (e x) errors) l errors = []
  <-> errors = [] /\ forall x, In x l -> cond x = false.
Proof.
  revert errors. induction l as [|x l IH]; intros errors; simpl.
  - split; [intros H; split; [exact H|intros x []]|tauto].
  - rewrite IH, pushIf_nil. split.
    + intros [[Hc He] Hl]. split; [exact He|].
      intros y [<-|Hy]; [exact Hc|apply Hl, Hy].
    + intros [He Hl]. split; [split; [apply Hl; left; reflexivity|exact He]|].
      intros y Hy. apply Hl. right. exact Hy.
Qed.

Lemma blank_false s : blank s = false <-> trim s <> [].
Proof.
  unfold blank. rewrite orb_false_iff, negb_false_iff, Nat.eqb_neq. split.
  - intros [_ H] E. rewrite E in H. apply H. reflexivity.
  - intros H. split; [apply trim_nonempty, H|].
    destruct (trim s); [contradiction|discriminate].
Qed.

Lemma truthy_true s : truthy s = true <-> s <> [].
Proof. destruct s; simpl; split; congruence. Qed.

Lemma dateBefore_false end_ start :
  dateBefore end_ start = false
  <-> forall startTime endTime,
        Date_parse start = Some startTime -> Date_parse end_ = Some endTime ->
        (startTime <= endTime)%Z.
Proof.
  unfold dateBefore.
  destruct (Date_parse start) as [s|], (Date_parse end_) as [e|];
    try (split; [intros _ ? ? ? ?; discriminate|reflexivity]).
  rewrite Z.ltb_ge. split.
  - intros H ? ? [= <-] [= <-]. exact H.
  - intros H. apply H; reflexivity.
Qed.

(** X17. [validateActivity] reports nothing exactly for an activity whose
    id and title are not blank, whose start and end dates are not empty
    and, when both parse, are in order, whose cost is not negative and
    whose level is 1 or 2.  (An unparsable date is accepted; so is any
    date order when one of the two does not parse.) *)
Theorem validateActivity_accepts activity :
  validateActivity activity = []
  <-> trim (Activity.id activity) <> []
      /\ trim (Activity.title activity) <> []
      /\ Activity.start activity <> []
      /\ Activity.end_ activity <> []
      /\ (forall startTime endTime,
            Date_parse (Activity.start activity) = Some startTime ->
            Date_parse (Activity.end_ activity) = Some endTime ->
            (startTime <= endTime)%Z)
      /\ 0 <= Activity.cost activity
      /\ (Activity.level activity = 1%Z \/ Activity.level activity = 2%Z).
Proof.
  unfold validateActivity. cbv zeta.
  rewrite !pushIf_nil, !blank_false, !negb_false_iff, !truthy_true,
    Qltb_false, <- dateBefore_false.
  rewrite andb_false_iff, !negb_false_iff, !Z.eqb_eq.
  split.
  - intros (Hl & Hc & Hd & He & Hs & Ht & Hi & _).
    assert (Ts : truthy (Activity.start activity) = true)
      by (apply truthy_true, Hs).
    assert (Te : truthy (Activity.end_ activity) = true)
      by (apply truthy_true, He).
    rewrite Ts, Te in Hd. simpl in Hd. tauto.
  - intros (Hi & Ht & Hs & He & Hd & Hc & Hl).
    rewrite Hd, andb_false_r. tauto.
Qed.

(** X18. [validateRisk] reports nothing exactly for a risk whose id and
    title are not blank, whose probability is in [0,100], whose time and
    cost impact percentages are not negative, whose affected activities
    are all among the known activity ids, and whose relation strengths,
    where given, are in [0,1].  The ids that the relations name are not
    looked at, nor is the scope impact. *)
Theorem validateRisk_accepts risk allActivityIds :
  validateRisk risk allActivityIds = []
  <-> trim (Risk.id risk) <> []
      /\ trim (Risk.title risk) <> []
      /\ 0 <= Risk.probability risk /\ Risk.probability risk <= 100
      /\ 0 <= Risk.timeImpactPercent risk
      /\ 0 <= Risk.costImpactPercent risk
      /\ (forall activityId,
            In activityId (Risk.affectedActivities risk) ->
            In activityId allActivityIds)
      /\ (forall relation strength,
            In relation (Risk.relatedRisks risk) ->
            RiskRelation.strength relation = Some strength ->
            0 <= strength /\ strength <= 1).
Proof.
  unfold validateRisk. cbv zeta.
  rewrite !fold_pushIf_nil, !pushIf_nil, !blank_false, orb_false_iff,
    !Qltb_false.
  split.
  - intros (((Hc & Hti & (Hp0 & Hp1) & Ht & Hi & _) & Ha) & Hr).
    repeat split; try assumption.
    + intros x Hx. specialize (Ha x Hx). apply negb_false_iff in Ha.
      apply includes_In, Ha.
    + specialize (Hr relation H). rewrite H0 in Hr.
      apply orb_false_iff in Hr as [Hr _]. apply Qltb_false, Hr.
    + specialize (Hr relation H). rewrite H0 in Hr.
      apply orb_false_iff in Hr as [_ Hr]. apply Qltb_false, Hr.
  - intros (Hi & Ht & Hp0 & Hp1 & Hti & Hc & Ha & Hr).
    split; [split; [tauto|]|].
    + intros x Hx. apply negb_false_iff, includes_In, Ha, Hx.
    + intros relation Hrel.
      destruct (RiskRelation.strength relation) as [s|] eqn:E; [|reflexivity].
      destruct (Hr relation s Hrel E) as [H0 H1].
      apply orb_false_iff. split; apply Qltb_false; assumption.
Qed.

Lemma setAdd_In s x y : In y (setAdd s x) <-> In y s \/ y = x.
Proof.
  unfold setAdd. destruct (includes s x) eqn:I.
  - apply includes_In in I. split; [tauto|]. intros [H| ->]; assumption.
  - rewrite in_app_iff. simpl. split; [intros [H|[H|[]]]|intros [H|H]]; auto.
Qed.

Lemma validateActivities_clean activities errors ids :
  (fst (fold_left validateActivityStep activities (errors, ids)) = []
   <-> errors = []
       /\ (forall a, In a activities -> validateActivity a = [])
       /\ List.NoDup (map Activity.id activities)
       /\ (forall a, In a activities -> ~ In (Activity.id a) ids))
  /\ (forall x,
        In x (snd (fold_left validateActivityStep activities (errors, ids)))
        <-> In x ids \/ In x (map Activity.id activities)).
Proof.
  revert errors ids.
  induction activities as [|a activities IH]; intros errors ids.
  - simpl. split; [|tauto]. split; [intros H|tauto].
    repeat split; [exact H|intros ? []|constructor|intros ? []].
  - cbn [fold_left validateActivityStep].
    match goal with
    | |- context [fold_left validateActivityStep activities (?e, ?i)] =>
        destruct (IH e i) as [IHe IHi]
    end.
    split.
    + rewrite IHe, pushIf_nil. split.
      * intros ((Hdup & Happ) & Hall & Hnd & Hfresh).
        apply app_eq_nil in Happ as [He Ha].
        assert (Hnot : ~ In (Activity.id a) ids).
        { intros Hin. apply includes_In in Hin. congruence. }
        split; [exact He|]. split; [|split].
        -- intros a' [<-|Ha']; [exact Ha|apply Hall, Ha'].
        -- simpl. constructor; [|exact Hnd]. intros Hin.
           apply in_map_iff in Hin as (a' & Hid & Ha').
           apply (Hfresh a' Ha'). apply setAdd_In. right. exact Hid.
        -- intros a' [<-|Ha'] Hin; [contradiction|].
           apply (Hfresh a' Ha'). apply setAdd_In. left. exact Hin.
      * intros (He & Hall & Hnd & Hfresh). simpl in Hnd.
        apply NoDup_cons_iff in Hnd as [Hnotin Hnd].
        split; [split|split; [|split]].
        -- destruct (includes ids (Activity.id a)) eqn:I; [|reflexivity].
           exfalso. apply (Hfresh a (or_introl eq_refl)), includes_In, I.
        -- rewrite He, (Hall a (or_introl eq_refl)). reflexivity.
        -- intros a' Ha'. apply Hall. right. exact Ha'.
        -- exact Hnd.
        -- intros a' Ha' Hin. apply setAdd_In in Hin as [Hin|Hin].
           ++ apply (Hfresh a' (or_intror Ha')), Hin.
           ++ apply Hnotin. rewrite <- Hin. apply in_map, Ha'.
    + intros x. rewrite IHi, setAdd_In. simpl. intuition congruence.
Qed.

Lemma validateRisks_clean allActivityIds risks errors ids :
  fst (fold_left (validateRiskStep allActivityIds) risks (errors, ids)) = []
  <-> errors = []
      /\ (forall r, In r risks ->
                    validateRisk r allActivityIds = []
                    /\ Risk.affectedActivities r <> [])
      /\ List.NoDup (map Risk.id risks)
      /\ (forall r, In r risks -> ~ In (Risk.id r) ids).
Proof.
  revert errors ids.
  induction risks as [|r risks IH]; intros errors ids.
  - simpl. split; [intros ->|tauto].
    split; [reflexivity|]. split; [intros ? []|].
    split; [constructor|intros ? []].
  - cbn [fold_left validateRiskStep]. rewrite IH, !pushIf_nil, Nat.eqb_neq.
    split.
    + intros ((Hlen & Hdup & Happ) & Hall & Hnd & Hfresh).
      apply app_eq_nil in Happ as [He Hr].
      split; [exact He|]. split; [|split].
      * intros r' [<-|Hr']; [|apply Hall, Hr'].
        split; [exact Hr|]. intros E. rewrite E in Hlen. apply Hlen. reflexivity.
      * simpl. constructor; [|exact Hnd]. intros Hin.
        apply in_map_iff in Hin as (r' & Hid & Hr').
        apply (Hfresh r' Hr'). apply setAdd_In. right. exact Hid.
      * intros r' [<-|Hr'] Hin.
        -- apply includes_In in Hin. congruence.
        -- apply (Hfresh r' Hr'). apply setAdd_In. left. exact Hin.
    + intros (He & Hall & Hnd & Hfresh). simpl in Hnd.
      apply NoDup_cons_iff in Hnd as [Hnotin Hnd].
      destruct (Hall r (or_introl eq_refl)) as [Hr Hne].
      split; [split; [|split]|split; [|split]].
      * destruct (Risk.affectedActivities r); [contradiction|discriminate].
      * destruct (includes ids (Risk.id r)) eqn:I; [|reflexivity].
        exfalso. apply (Hfresh r (or_introl eq_refl)), includes_In, I.
      * rewrite He, Hr. reflexivity.
      * intros r' Hr'. apply Hall. right. exact Hr'.
      * exact Hnd.
      * intros r' Hr' Hin. apply setAdd_In in Hin as [Hin|Hin].
        -- apply (Hfresh r' (or_intror Hr')), Hin.
        -- apply Hnotin. rewrite <- Hin. apply in_map, Hr'.
Qed.

Lemma fold_left_same {A B} (f g : A -> B -> A) (l : list B) (a : A) :
  (forall a b, In b l -> f a b = g a b) -> fold_left f l a = fold_left g l a.
Proof.
  revert a. induction l as [|b l IH]; intros a H; [reflexivity|]. simpl.
  rewrite (H a b (or_introl eq_refl)). apply IH.
  intros a' b' Hb'. apply H. right. exact Hb'.
Qed.

Lemma validateRisk_same_ids risk ids1 ids2 :
  (forall x, In x ids1 <-> In x ids2) ->
  validateRisk risk ids1 = validateRisk risk ids2.
Proof.
  intros H.
  assert (E : forall x, includes ids1 x = includes ids2 x).
  { intros x. destruct (includes ids1 x) eqn:I1, (includes ids2 x) eqn:I2;
      try reflexivity.
    - apply includes_In, H, includes_In in I1. congruence.
    - apply includes_In, H, includes_In in I2. congruence. }
  unfold validateRisk. cbv zeta. f_equal.
  apply fold_left_same. intros errors x _. rewrite E. reflexivity.
Qed.

(** X19. [validateInput] returns no error exactly when there is at least
    one activity and one risk, the activity ids are pairwise distinct and
    so are the risk ids, every activity passes [validateActivity], and
    every risk passes [validateRisk] against the activity ids and has at
    least one affected activity. *)
Theorem validateInput_accepts activities risks :
  validateInput activities risks = []
  <-> activities <> [] /\ risks <> []
      /\ List.NoDup (map Activity.id activities)
      /\ List.NoDup (map Risk.id risks)
      /\ (forall a, In a activities -> validateActivity a = [])
      /\ (forall r, In r risks ->
                    validateRisk r (map Activity.id activities) = []
                    /\ Risk.affectedActivities r <> []).
Proof.
  unfold validateInput. cbv zeta.
  match goal with
  | |- context [fold_left validateActivityStep activities (?e, ?i)] =>
      destruct (validateActivities_clean activities e i) as [Hclean Hids];
      destruct (fold_left validateActivityStep activities (e, i))
        as [errors activityIds]
  end.
  simpl fst in Hclean. simpl snd in Hids.
  pose proof (validateRisks_clean activityIds risks errors []) as Hrisks.
  destruct (fold_left (validateRiskStep activityIds) risks (errors, []))
    as [errors' riskIds].
  simpl fst in Hrisks. rewrite Hrisks, Hclean, !pushIf_nil, !Nat.eqb_neq.
  assert (Hsame : forall r, validateRisk r activityIds = []
                            <-> validateRisk r (map Activity.id activities) = []).
  { intros r.
    rewrite (validateRisk_same_ids r activityIds (map Activity.id activities));
      [tauto|].
    intros x. rewrite Hids. simpl. tauto. }
  split.
  - intros (((Hr & Ha & _) & Hall & Hnd & _) & Hrall & Hrnd & _).
    split; [intros E; apply Ha; rewrite E; reflexivity|].
    split; [intros E; apply Hr; rewrite E; reflexivity|].
    split; [exact Hnd|]. split; [exact Hrnd|]. split; [exact Hall|].
    intros r Hin. destruct (Hrall r Hin) as [H1 H2].
    split; [apply Hsame, H1|exact H2].
  - intros (Ha & Hr & Hnd & Hrnd & Hall & Hrall).
    split; [split; [split; [|split; [|reflexivity]]|]|].
    + destruct risks; [contradiction|discriminate].
    + destruct activities; [contradiction|discriminate].
    + split; [exact Hall|]. split; [exact Hnd|]. intros ? ? [].
    + split; [|split; [exact Hrnd|intros ? ? []]].
      intros r Hin. destruct (Hrall r Hin) as [H1 H2].
      split; [apply Hsame, H1|exact H2].
Qed.

(** *** The output of the orchestrator *)

(** The steps of a run, with the value each one produces. *)
Lemma analyzeRiskBehavior_steps
    st input enableMonteCarlo iterations deadline budget rs acts :
  holds (Store.risks st) (Input.risks input) rs ->
  holds (Store.activities st) (Input.activities input) acts ->
  exists initial analyses cs results analyses1 analyses2 scenarios,
    mapM (fun risk => calculateSingleRisk risk (enrichActivities acts) rs
                        1000 100000) rs = Some initial
    /\ mapM (fun risk =>
               calculateSingleRisk risk (enrichActivities acts) rs
                 (fold_left Qmax
                    (map RiskAnalysisOutput.expectedTimeImpact initial) 1)
                 (fold_left Qmax
                    (map RiskAnalysisOutput.expectedCostImpact initial) 1))
            rs = Some analyses
    /\ relaxation (Input.risks input) (workingLocs (Store.risks st) rs)
         (Store.risks st ++ rs) = Some (Store.risks st ++ cs)
    /\ Forall2 propagatedFrom rs cs
    /\ foldM (recordPropagation (Store.risks st ++ cs)
                (workingLocs (Store.risks st) rs))
             ([], analyses) (Input.risks input) = Some (results, analyses1)
    /\ mapM (resultFor cs) rs = Some results
    /\ length analyses1 = length rs
    /\ mapM (recomputeImpacts (Store.risks st ++ cs)
               (workingLocs (Store.risks st) rs) analyses1)
            (seq 0 (length analyses1)) = Some analyses2
    /\ combineTop3
         (map RiskAnalysisOutput.riskId
              (firstn 3 (sortBy byExpectedImpact analyses2)))
         cs (enrichActivities acts) = Some scenarios
    /\ analyzeRiskBehavior st input enableMonteCarlo iterations deadline budget
       = Some (AnalysisOutput.mk analyses2 scenarios results
                 (sortBy byBehaviorScore analyses2)
                 (sortBy byExpectedImpact analyses2)
                 (if enableMonteCarlo
                  then Some (runMonteCarloSimulation cs (enrichActivities acts)
                               iterations deadline budget)
                  else None),
               Store.mk (Store.risks st ++ cs)
                 (Store.activities st ++ enrichActivities acts)).
Proof.
  intros Hrs Hacts. unfold analyzeRiskBehavior.
  rewrite (holds_mapM _ _ _ Hacts), bind_Some.
  rewrite (holds_mapM _ _ _ Hrs), bind_Some.
  destruct (analyses_riskIds (enrichActivities acts) rs 1000 100000 rs)
    as (initial & Einit & _). rewrite Einit, bind_Some. cbv zeta.
  destruct (analyses_riskIds (enrichActivities acts) rs
              (fold_left Qmax
                 (map RiskAnalysisOutput.expectedTimeImpact initial) 1)
              (fold_left Qmax
                 (map RiskAnalysisOutput.expectedCostImpact initial) 1) rs)
    as (analyses & Ean & Hids). rewrite Ean, bind_Some.
  change (seq (length (Store.risks st)) (length rs))
    with (workingLocs (Store.risks st) rs).
  destruct (relaxation_working (Store.risks st) rs (Input.risks input)
              (Store.risks st ++ rs) (holds_lt _ _ _ Hrs)
              (working_initial _ _)) as (riskObjs & Erelax & cs & -> & HR).
  rewrite Erelax, bind_Some.
  destruct (recordPropagation_fold (Store.risks st) rs cs HR
              (Input.risks input) rs Hrs (fun r H => H) [] analyses)
    as (results & analyses1 & Erec & Hres & Hids1).
  rewrite Erec, bind_Some. cbv beta iota.
  assert (Hlen : length analyses1 = length rs).
  { rewrite <- (length_map RiskAnalysisOutput.riskId), Hids1, Hids.
    apply length_map. }
  destruct (recomputeImpacts_all (Store.risks st) rs cs analyses1 HR Hlen)
    as (analyses2 & Erecomp & Hids2).
  rewrite Erecomp, bind_Some.
  assert (Evals : mapM (fun l => (Store.risks st ++ cs) !! l)
                    (workingLocs (Store.risks st) rs) = Some cs).
  { unfold workingLocs. rewrite (Forall2_length _ _ _ HR).
    apply mapM_working_copies. }
  rewrite Evals, bind_Some.
  destruct (combineTop3_defined
              (map RiskAnalysisOutput.riskId
                   (firstn 3 (sortBy byExpectedImpact analyses2)))
              cs (enrichActivities acts)) as (scenarios & Ecomb).
  { intros id Hid. apply in_map_iff in Hid as (a2 & <- & Ha2).
    apply firstn_In, sortBy_In, Hids2 in Ha2 as (a1 & Ha1 & ->).
    assert (H : In (RiskAnalysisOutput.riskId a1) (map Risk.id cs)).
    { rewrite (propagatedFrom_ids _ _ HR), <- Hids, <- Hids1.
      apply in_map, Ha1. }
    apply in_map_iff in H as (c & Hc & Hin). eauto. }
  rewrite Ecomb, bind_Some.
  exists initial, analyses, cs, results, analyses1, analyses2, scenarios.
  simpl app in *. repeat (split; [first [assumption|reflexivity]|]).
  reflexivity.
Qed.

Lemma recomputeImpacts_zip objs0 rs cs analyses1 :
  Forall2 propagatedFrom rs cs ->
  length analyses1 = length rs ->
  mapM (recomputeImpacts (objs0 ++ cs) (workingLocs objs0 rs) analyses1)
       (seq 0 (length analyses1))
  = Some (zip_with recomputed cs analyses1).
Proof.
  intros HR Hlen. pose proof (Forall2_length _ _ _ HR) as Hcs.
  apply mapM_Some_2, Forall2_same_length_lookup_2.
  - rewrite length_seq, length_zip_with_r_eq; [reflexivity|lia].
  - intros i j y Hi Hy. apply lookup_seq in Hi as [-> Hi]. simpl.
    apply lookup_zip_with_Some in Hy as (c & a & -> & Hc & Ha).
    unfold recomputeImpacts, workingLocs.
    rewrite lookup_seq_lt by lia. simpl.
    rewrite lookup_app_r by lia.
    replace (length objs0 + i - length objs0)%nat with i by lia.
    rewrite Hc. simpl. rewrite Ha. reflexivity.
Qed.

Lemma zip_with_riskId {A} (f : A -> RiskAnalysisOutput.t -> RiskAnalysisOutput.t)
    (l : list A) (k : list RiskAnalysisOutput.t) :
  (forall x a, RiskAnalysisOutput.riskId (f x a) = RiskAnalysisOutput.riskId a) ->
  length l = length k ->
  map RiskAnalysisOutput.riskId (zip_with f l k)
  = map RiskAnalysisOutput.riskId k.
Proof.
  intros Hf. revert k. induction l as [|x l IH]; intros [|a k] Hlen;
    try discriminate; [reflexivity|].
  simpl. rewrite Hf, IH; [reflexivity|]. simpl in Hlen. lia.
Qed.

Lemma Forall2_map_eq {A B C} (f : A -> C) (g : B -> C) l k :
  Forall2 (fun x y => g y = f x) l k -> map g k = map f l.
Proof.
  induction 1 as [|x y l k H _ IH]; [reflexivity|].
  simpl. rewrite H, IH. reflexivity.
Qed.

Lemma resultFor_fields cs r res :
  resultFor cs r = Some res ->
  PropagationResult.riskId res = Risk.id r
  /\ PropagationResult.originalProbability res = Risk.probability r
  /\ PropagationResult.propagationPath res = [].
Proof.
  unfold resultFor. destruct (firstIndex (Risk.id r) cs) as [i|]; [|discriminate].
  simpl. destruct (cs !! i) as [c|]; [|discriminate].
  intros [= <-]. repeat split.
Qed.

(** X20. A run produces exactly one propagation result and one per-risk
    analysis for each risk of the input, in input order (also when ids
    repeat): the result carries the risk's id, its probability as
    originalProbability and an empty path, and the analysis carries the
    risk's id. *)
Theorem analyzeRiskBehavior_one_per_risk
    st input enableMonteCarlo iterations deadline budget rs acts :
  holds (Store.risks st) (Input.risks input) rs ->
  holds (Store.activities st) (Input.activities input) acts ->
  exists out st',
    analyzeRiskBehavior st input enableMonteCarlo iterations deadline budget
    = Some (out, st')
    /\ map PropagationResult.riskId (AnalysisOutput.propagationResults out)
       = map Risk.id rs
    /\ map PropagationResult.originalProbability
           (AnalysisOutput.propagationResults out)
       = map Risk.probability rs
    /\ Forall (fun res => PropagationResult.propagationPath res = [])
              (AnalysisOutput.propagationResults out)
    /\ map RiskAnalysisOutput.riskId (AnalysisOutput.perRiskAnalysis out)
       = map Risk.id rs.
Proof.
  intros Hrs Hacts.
  destruct (analyzeRiskBehavior_steps st input enableMonteCarlo iterations
              deadline budget rs acts Hrs Hacts)
    as (initial & analyses & cs & results & analyses1 & analyses2 & scenarios
        & _ & Ean & _ & HR & Erec & Hres & Hlen & Erecomp & _ & E).
  eexists _, _. split; [exact E|]. simpl.
  apply mapM_Some_1 in Hres.
  assert (Hfields : Forall2 (fun r res =>
                               PropagationResult.riskId res = Risk.id r
                               /\ PropagationResult.originalProbability res
                                  = Risk.probability r
                               /\ PropagationResult.propagationPath res = [])
                      rs results).
  { eapply Forall2_impl; [exact Hres|]. intros r res. apply resultFor_fields. }
  clear Hres.
  split; [|split; [|split]].
  - apply Forall2_map_eq. eapply Forall2_impl; [exact Hfields|].
    intros r res (H1 & _). exact H1.
  - apply Forall2_map_eq. eapply Forall2_impl; [exact Hfields|].
    intros r res (_ & H2 & _). exact H2.
  - apply List.Forall_forall. intros res Hin.
    destruct (Forall2_In_r _ _ _ _ Hfields Hin) as (r & _ & _ & _ & H3).
    exact H3.
  - rewrite (recomputeImpacts_zip _ rs cs analyses1 HR Hlen) in Erecomp.
    injection Erecomp as <-.
    rewrite zip_with_riskId;
      [|reflexivity|rewrite Hlen; symmetry; apply (Forall2_length _ _ _ HR)].
    destruct (analyses_riskIds (enrichActivities acts) rs
                (fold_left Qmax
                   (map RiskAnalysisOutput.expectedTimeImpact initial) 1)
                (fold_left Qmax
                   (map RiskAnalysisOutput.expectedCostImpact initial) 1) rs)
      as (analyses' & Ean' & Hids).
    rewrite Ean in Ean'. injection Ean' as <-.
    destruct (recordPropagation_fold (Store.risks st) rs cs HR
                (Input.risks input) rs Hrs (fun r H => H) [] analyses)
      as (results' & analyses1' & Erec' & _ & Hids1).
    rewrite Erec in Erec'. injection Erec' as _ <-.
    rewrite Hids1. exact Hids.
Qed.

Lemma relaxFrom_insignificant objs0 rs id currentRisk otherRisk :
  (forall r relation,
     In r rs -> In relation (Risk.relatedRisks r) ->
     default 0.3 (RiskRelation.strength relation) * Risk.probability r <= 0.1) ->
  In otherRisk (workingLocs objs0 rs) ->
  relaxFrom id currentRisk (objs0 ++ rs) otherRisk = Some (objs0 ++ rs).
Proof.
  intros Hsmall Hother.
  destruct (working_copy objs0 rs (objs0 ++ rs) otherRisk
              (working_initial objs0 rs) Hother)
    as (j & cs & rj & other & _ & Ecs & _ & Hrj & Hcj & Ho).
  apply app_inv_head in Ecs. subst cs. rewrite Hrj in Hcj. injection Hcj as <-.
  unfold relaxFrom. rewrite Ho. simpl.
  destruct (find _ (Risk.relatedRisks rj)) as [relation|] eqn:F; [|reflexivity].
  apply find_some in F as [Hin _].
  assert (Hr : In rj rs)
    by (apply list_elem_of_In; eapply list_elem_of_lookup_2, Hrj).
  pose proof (Hsmall rj relation Hr Hin) as Hle.
  apply Qltb_false in Hle. rewrite Hle. reflexivity.
Qed.

Lemma relaxation_insignificant objs0 rs inputRisks :
  (forall r relation,
     In r rs -> In relation (Risk.relatedRisks r) ->
     default 0.3 (RiskRelation.strength relation) * Risk.probability r <= 0.1) ->
  Forall (fun l => (l < length objs0)%nat) inputRisks ->
  relaxation inputRisks (workingLocs objs0 rs) (objs0 ++ rs)
  = Some (objs0 ++ rs).
Proof.
  intros Hsmall Hin. unfold relaxation.
  destruct (foldM_invariant (fun objs => objs = objs0 ++ rs)
              (fun objs (pass : nat) =>
                 foldM (relaxRisk (workingLocs objs0 rs)) objs inputRisks)
              (seq 0 3)) with (s := objs0 ++ rs) as (objs' & -> & ->);
    [|reflexivity|reflexivity].
  intros objs pass -> _.
  apply foldM_invariant; [|reflexivity].
  intros objs risk -> Hrisk.
  rewrite List.Forall_forall in Hin. specialize (Hin risk Hrisk).
  unfold relaxRisk.
  rewrite (working_frame objs0 rs _ risk (working_initial objs0 rs) Hin).
  destruct (lookup_lt_is_Some_2 objs0 risk Hin) as [r ->]. simpl.
  destruct (findRisk_working objs0 rs _ (Risk.id r) (working_initial objs0 rs))
    as (found & -> & Hfound).
  simpl. destruct found as [currentRisk|]; [|eauto].
  apply foldM_invariant; [|reflexivity].
  intros objs otherRisk -> Hother.
  rewrite (relaxFrom_insignificant objs0 rs _ _ _ Hsmall Hother). eauto.
Qed.

(** X21. Increases of at most 0.1 are ignored: when for every relation of
    every risk of the input the strength (0.3 when absent) times the
    probability of the risk that lists it is at most 0.1 - in particular
    when there is no relation at all - and the risk ids are pairwise
    distinct, every propagation result has finalProbability equal to
    originalProbability. *)
Theorem analyzeRiskBehavior_insignificant
    st input enableMonteCarlo iterations deadline budget rs acts :
  holds (Store.risks st) (Input.risks input) rs ->
  holds (Store.activities st) (Input.activities input) acts ->
  List.NoDup (map Risk.id rs) ->
  (forall r relation,
     In r rs -> In relation (Risk.relatedRisks r) ->
     default 0.3 (RiskRelation.strength relation) * Risk.probability r <= 0.1) ->
  exists out st',
    analyzeRiskBehavior st input enableMonteCarlo iterations deadline budget
    = Some (out, st')
    /\ Forall (fun res => PropagationResult.finalProbability res
                          = PropagationResult.originalProbability res)
              (AnalysisOutput.propagationResults out).
Proof.
  intros Hrs Hacts Hnd Hsmall.
  destruct (analyzeRiskBehavior_steps st input enableMonteCarlo iterations
              deadline budget rs acts Hrs Hacts)
    as (initial & analyses & cs & results & analyses1 & analyses2 & scenarios
        & _ & _ & Erelax & HR & _ & Hres & _ & _ & _ & E).
  eexists _, _. split; [exact E|]. simpl.
  rewrite (relaxation_insignificant _ rs _ Hsmall (holds_lt _ _ _ Hrs)) in Erelax.
  injection Erelax as Ecs. apply app_inv_head in Ecs. subst cs.
  apply mapM_Some_1 in Hres.
  apply List.Forall_forall. intros res Hin.
  destruct (Forall2_In_r _ _ _ _ Hres Hin) as (r & Hr & Hrr).
  apply list_elem_of_In, list_elem_of_lookup_1 in Hr as (j & Hj).
  unfold resultFor in Hrr. rewrite (firstIndex_NoDup rs j r Hnd Hj) in Hrr.
  simpl in Hrr. rewrite Hj in Hrr. injection Hrr as <-. reflexivity.
Qed.

(** *** Scenarios and rankings *)

Lemma calculateCombinedImpact_riskIds riskIds risks activities scenario :
  calculateCombinedImpact riskIds risks activities = Some scenario ->
  CombinedScenario.riskIds scenario = riskIds.
Proof.
  unfold calculateCombinedImpact. cbv zeta.
  destruct (length (List.filter _ activities) =? 0)%nat.
  - intros [= <-]. reflexivity.
  - destruct (div _ _); [|discriminate]. simpl. intros [= <-]. reflexivity.
Qed.

Lemma length_insertSorted {A} (before : A -> A -> bool) x l :
  length (insertSorted before x l) = S (length l).
Proof.
  induction l as [|y l IH]; simpl; [reflexivity|].
  destruct (before x y); simpl; [reflexivity|]. rewrite IH. reflexivity.
Qed.

Lemma length_sortBy {A} (before : A -> A -> bool) l :
  length (sortBy before l) = length l.
Proof.
  induction l as [|x l IH]; simpl; [reflexivity|].
  rewrite length_insertSorted, IH. reflexivity.
Qed.

Lemma insertSorted_Permutation {A} (before : A -> A -> bool) x l :
  Permutation (insertSorted before x l) (x :: l).
Proof.
  induction l as [|y l IH]; simpl; [reflexivity|].
  destruct (before x y); [reflexivity|].
  rewrite IH. apply perm_swap.
Qed.

Lemma sortBy_Permutation {A} (before : A -> A -> bool) l :
  Permutation (sortBy before l) l.
Proof.
  induction l as [|x l IH]; simpl; [reflexivity|].
  rewrite insertSorted_Permutation, IH. reflexivity.
Qed.

Section Sorting.
Context {A : Type} (before : A -> A -> bool) (R : A -> A -> Prop).
Hypothesis before_spec : forall a b, before a b = true <-> R a b.
Hypothesis R_trans : forall a b c, R a b -> R b c -> R a c.
Hypothesis R_total : forall a b, R a b \/ R b a.

Lemma insertSorted_sorted x l :
  StronglySorted R l -> StronglySorted R (insertSorted before x l).
Proof using before_spec R_trans R_total.
  induction 1 as [|y l Hl IH Hy]; simpl.
  - repeat constructor.
  - destruct (before x y) eqn:E.
    + apply before_spec in E. constructor.
      * constructor; assumption.
      * constructor; [exact E|].
        eapply List.Forall_impl; [|exact Hy]. intros z. apply R_trans, E.
    + constructor; [exact IH|].
      apply List.Forall_forall. intros z Hz.
      apply insertSorted_In in Hz as [->|Hz].
      * destruct (R_total x y) as [H|H]; [|exact H].
        apply before_spec in H. congruence.
      * rewrite List.Forall_forall in Hy. apply Hy, Hz.
Qed.

Lemma sortBy_sorted l : StronglySorted R (sortBy before l).
Proof using before_spec R_trans R_total.
  induction l as [|x l IH]; simpl; [constructor|].
  apply insertSorted_sorted, IH.
Qed.

Lemma sortBy_stable l : StronglySorted R l -> sortBy before l = l.
Proof using before_spec.
  induction 1 as [|x l Hl IH Hx]; simpl; [reflexivity|].
  rewrite IH. destruct l as [|y l]; [reflexivity|]. simpl.
  apply Forall_inv in Hx. apply before_spec in Hx. rewrite Hx. reflexivity.
Qed.
End Sorting.

Lemma byExpectedImpact_spec a b :
  byExpectedImpact a b = true <-> impactSum b <= impactSum a.
Proof. unfold byExpectedImpact. apply Qle_bool_iff. Qed.

Lemma byBehaviorScore_spec a b :
  byBehaviorScore a b = true
  <-> RiskAnalysisOutput.behaviorScore b <= RiskAnalysisOutput.behaviorScore a.
Proof. unfold byBehaviorScore. apply Qle_bool_iff. Qed.

(** X22. On an input whose probabilities, impact percentages and costs
    are [moderate] (no score or impact of the run is NaN), the two
    rankings of a run are rearrangements of perRiskAnalysis in descending
    order, of behaviorScore for one and of expected time plus expected
    cost impact for the other; a perRiskAnalysis that is already in that
    order is returned as it is, so that ties keep the order of the
    input. *)
Theorem analyzeRiskBehavior_rankings
    st input enableMonteCarlo iterations deadline budget rs acts :
  holds (Store.risks st) (Input.risks input) rs ->
  holds (Store.activities st) (Input.activities input) acts ->
  Forall moderateRisk rs ->
  Forall (fun a => moderate (Activity.cost a)) acts ->
  exists out st',
    analyzeRiskBehavior st input enableMonteCarlo iterations deadline budget
    = Some (out, st')
    /\ Permutation (AnalysisOutput.topRisksByBehaviorScore out)
                   (AnalysisOutput.perRiskAnalysis out)
    /\ StronglySorted
         (fun a b => RiskAnalysisOutput.behaviorScore b
                     <= RiskAnalysisOutput.behaviorScore a)
         (AnalysisOutput.topRisksByBehaviorScore out)
    /\ Permutation (AnalysisOutput.topRisksByExpectedImpact out)
                   (AnalysisOutput.perRiskAnalysis out)
    /\ StronglySorted (fun a b => impactSum b <= impactSum a)
         (AnalysisOutput.topRisksByExpectedImpact out)
    /\ (StronglySorted
          (fun a b => RiskAnalysisOutput.behaviorScore b
                      <= RiskAnalysisOutput.behaviorScore a)
          (AnalysisOutput.perRiskAnalysis out) ->
        AnalysisOutput.topRisksByBehaviorScore out
        = AnalysisOutput.perRiskAnalysis out)
    /\ (StronglySorted (fun a b => impactSum b <= impactSum a)
          (AnalysisOutput.perRiskAnalysis out) ->
        AnalysisOutput.topRisksByExpectedImpact out
        = AnalysisOutput.perRiskAnalysis out).
Proof.
  intros Hrs Hacts _ _.
  destruct (analyzeRiskBehavior_steps st input enableMonteCarlo iterations
              deadline budget rs acts Hrs Hacts)
    as (initial & analyses & cs & results & analyses1 & analyses2 & scenarios
        & _ & _ & _ & _ & _ & _ & _ & _ & _ & E).
  eexists _, _. split; [exact E|]. simpl.
  split; [apply sortBy_Permutation|].
  split.
  { apply (sortBy_sorted _ _ byBehaviorScore_spec).
    - intros a b c H1 H2. exact (Qle_trans _ _ _ H2 H1).
    - intros a b.
      destruct (Qlt_le_dec (RiskAnalysisOutput.behaviorScore a)
                  (RiskAnalysisOutput.behaviorScore b)) as [H|H];
        [right; apply Qlt_le_weak, H|left; exact H]. }
  split; [apply sortBy_Permutation|].
  split.
  { apply (sortBy_sorted _ _ byExpectedImpact_spec).
    - intros a b c H1 H2. exact (Qle_trans _ _ _ H2 H1).
    - intros a b.
      destruct (Qlt_le_dec (impactSum a) (impactSum b)) as [H|H];
        [right; apply Qlt_le_weak, H|left; exact H]. }
  split.
  - apply (sortBy_stable _ _ byBehaviorScore_spec).
  - apply (sortBy_stable _ _ byExpectedImpact_spec).
Qed.

(** X23. The combined scenarios of a run are built from the ids of the
    first three entries of topRisksByExpectedImpact: none when there are
    fewer than two risks, the one pair for two risks, and for three or
    more risks the pairs (1st, 2nd), (1st, 3rd), (2nd, 3rd) followed by
    all three; each scenario carries the ids it was asked for. *)
Theorem analyzeRiskBehavior_combinations
    st input enableMonteCarlo iterations deadline budget rs acts :
  holds (Store.risks st) (Input.risks input) rs ->
  holds (Store.activities st) (Input.activities input) acts ->
  exists out st',
    analyzeRiskBehavior st input enableMonteCarlo iterations deadline budget
    = Some (out, st')
    /\ map CombinedScenario.riskIds (AnalysisOutput.combinedScenarios out)
       = match map RiskAnalysisOutput.riskId
                   (AnalysisOutput.topRisksByExpectedImpact out) with
         | a :: b :: c :: _ => [[a; b]; [a; c]; [b; c]; [a; b; c]]
         | [a; b] => [[a; b]]
         | _ => []
         end
    /\ length (AnalysisOutput.combinedScenarios out)
       = match length rs with
         | 0 | 1 => 0
         | 2 => 1
         | _ => 4
         end%nat.
Proof.
  intros Hrs Hacts.
  destruct (analyzeRiskBehavior_steps st input enableMonteCarlo iterations
              deadline budget rs acts Hrs Hacts)
    as (initial & analyses & cs & results & analyses1 & analyses2 & scenarios
        & _ & _ & _ & _ & _ & _ & Hlen & Erecomp & Ecomb & E).
  eexists _, _. split; [exact E|]. simpl.
  assert (Hlen2 : length (sortBy byExpectedImpact analyses2) = length rs).
  { rewrite length_sortBy, <- Hlen.
    apply mapM_Some_1, Forall2_length in Erecomp.
    rewrite length_seq in Erecomp. symmetry. exact Erecomp. }
  rewrite <- Hlen2. clear Hlen2.
  destruct (sortBy byExpectedImpact analyses2) as [|a [|b [|c rest]]];
    [| | |change (firstn 3 (a :: b :: c :: rest)) with [a; b; c] in Ecomb];
    unfold combineTop3 in Ecomb; cbn in Ecomb.
  - injection Ecomb as <-. split; reflexivity.
  - injection Ecomb as <-. split; reflexivity.
  - destruct (calculateCombinedImpact _ cs _) as [s|] eqn:E1; [|discriminate].
    cbn in Ecomb. injection Ecomb as <-. cbn.
    rewrite (calculateCombinedImpact_riskIds _ _ _ _ E1). split; reflexivity.
  - idtac.
    destruct (calculateCombinedImpact
                [RiskAnalysisOutput.riskId a; RiskAnalysisOutput.riskId b] cs _)
      as [s1|] eqn:E1; [|discriminate].
    destruct (calculateCombinedImpact
                [RiskAnalysisOutput.riskId a; RiskAnalysisOutput.riskId c] cs _)
      as [s2|] eqn:E2; [|discriminate].
    destruct (calculateCombinedImpact
                [RiskAnalysisOutput.riskId b; RiskAnalysisOutput.riskId c] cs _)
      as [s3|] eqn:E3; [|discriminate].
    cbn in Ecomb.
    destruct (calculateCombinedImpact
                [RiskAnalysisOutput.riskId a; RiskAnalysisOutput.riskId b;
                 RiskAnalysisOutput.riskId c] cs _)
      as [s4|] eqn:E4; [|discriminate].
    cbn in Ecomb. injection Ecomb as <-. cbn.
    rewrite (calculateCombinedImpact_riskIds _ _ _ _ E1),
      (calculateCombinedImpact_riskIds _ _ _ _ E2),
      (calculateCombinedImpact_riskIds _ _ _ _ E3),
      (calculateCombinedImpact_riskIds _ _ _ _ E4).
    split; reflexivity.
Qed.

(** *** The per-risk analysis of a run *)

Lemma findAnalysisIndex_middle id done a todo :
  ~ In id (map RiskAnalysisOutput.riskId done) ->
  RiskAnalysisOutput.riskId a = id ->
  findAnalysisIndex id (done ++ a :: todo) = Some (length done).
Proof.
  intros Hnotin Ha. induction done as [|b done IH]; simpl.
  - apply streq_true in Ha. rewrite Ha. reflexivity.
  - simpl in Hnotin.
    destruct (streq (RiskAnalysisOutput.riskId b) id) eqn:E.
    + apply streq_true in E. tauto.
    + rewrite IH by tauto. reflexivity.
Qed.

Lemma alter_middle {A} (f : A -> A) (l1 : list A) x l2 :
  alter f (length l1) (l1 ++ x :: l2) = l1 ++ f x :: l2.
Proof.
  induction l1 as [|y l1 IH]; [reflexivity|].
  simpl. f_equal. exact IH.
Qed.

Lemma recordPropagation_exact objs0 rs cs :
  Forall2 propagatedFrom rs cs ->
  List.NoDup (map Risk.id rs) ->
  forall locsT rsT,
    holds objs0 locsT rsT ->
    forall rsD csD csT aD aT results,
      rs = rsD ++ rsT -> cs = csD ++ csT -> length csD = length rsD ->
      map RiskAnalysisOutput.riskId aD = map Risk.id rsD ->
      map RiskAnalysisOutput.riskId aT = map Risk.id rsT ->
      exists results',
        foldM (recordPropagation (objs0 ++ cs) (workingLocs objs0 rs))
              (results, aD ++ aT) locsT
        = Some (results',
                aD ++ zip_with (fun c a =>
                                  withPropagatedProbability (Risk.probability c) a)
                               csT aT).
Proof.
  intros HR Hnd locsT rsT Hholds.
  induction Hholds as [|l r locsT rsT Hl _ IH];
    intros rsD csD csT aD aT results Ers Ecs HlenD HidsD HidsT.
  - destruct aT; [|discriminate]. exists results. simpl.
    destruct csT; reflexivity.
  - destruct aT as [|a aT]; [discriminate|].
    simpl in HidsT. injection HidsT as Ha HidsT.
    assert (HlenT : length csT = S (length rsT)).
    { pose proof (Forall2_length _ _ _ HR) as Hlen.
      rewrite Ers, Ecs, !length_app in Hlen. simpl in Hlen. lia. }
    destruct csT as [|c csT]; [discriminate|].
    assert (Ei : firstIndex (Risk.id r) cs = Some (length rsD)).
    { rewrite (firstIndex_ids _ rs cs (propagatedFrom_ids _ _ HR)).
      apply firstIndex_NoDup; [exact Hnd|].
      rewrite Ers. apply list_lookup_middle. reflexivity. }
    assert (Ef : findRisk (objs0 ++ cs) (workingLocs objs0 rs) (Risk.id r)
                 = Some (Some (length objs0 + length rsD)%nat)).
    { unfold workingLocs. rewrite (Forall2_length _ _ _ HR), findRisk_app, Ei.
      reflexivity. }
    assert (Ec : (objs0 ++ cs) !! (length objs0 + length rsD)%nat = Some c).
    { rewrite lookup_app_r by lia.
      replace (length objs0 + length rsD - length objs0)%nat
        with (length csD) by lia.
      rewrite Ecs. apply list_lookup_middle. reflexivity. }
    assert (Ea : findAnalysisIndex (Risk.id r) (aD ++ a :: aT)
                 = Some (length aD)).
    { apply findAnalysisIndex_middle; [|exact Ha].
      rewrite HidsD. intros Hin.
      rewrite Ers, map_app in Hnd. simpl in Hnd.
      apply NoDup_remove_2 in Hnd. apply Hnd, in_or_app. left. exact Hin. }
    simpl. rewrite (lookup_app_l_Some _ _ _ _ Hl). simpl.
    rewrite Ef. simpl. rewrite Ec. simpl. rewrite Ea, alter_middle.
    destruct (IH (rsD ++ [r]) (csD ++ [c]) csT
                (aD ++ [withPropagatedProbability (Risk.probability c) a]) aT
                (results ++ [PropagationResult.mk (Risk.id r) (Risk.probability r)
                               (Risk.probability c) []]))
      as (results' & E).
    + rewrite <- app_assoc. exact Ers.
    + rewrite <- app_assoc. exact Ecs.
    + rewrite !length_app. simpl. lia.
    + rewrite !map_app, HidsD. simpl. rewrite Ha. reflexivity.
    + exact HidsT.
    + exists results'. rewrite <- app_assoc in E. simpl in E.
      rewrite E, <- app_assoc. reflexivity.
Qed.

Lemma initial_impacts activities allRisks maxT maxC rs initial :
  mapM (fun risk => calculateSingleRisk risk activities allRisks maxT maxC) rs
  = Some initial ->
  map RiskAnalysisOutput.expectedTimeImpact initial
  = map (fun r => snd (calculateTimeImpact r (getAffectedDurationSum r activities)))
        rs
  /\ map RiskAnalysisOutput.expectedCostImpact initial
     = map (fun r => snd (calculateCostImpact r (getAffectedCostSum r activities)))
           rs.
Proof.
  intros E. apply mapM_Some_1 in E.
  split; apply Forall2_map_eq; (eapply Forall2_impl; [exact E|]);
    intros r a Ha; cbv beta in Ha;
    destruct (calculateSingleRisk_fields r activities allRisks maxT maxC)
      as (s & b & Hf);
    rewrite Hf in Ha; injection Ha as <-; reflexivity.
Qed.

Lemma analyzeRiskBehavior_at
    st input enableMonteCarlo iterations deadline budget rs acts :
  holds (Store.risks st) (Input.risks input) rs ->
  holds (Store.activities st) (Input.activities input) acts ->
  List.NoDup (map Risk.id rs) ->
  exists out st',
    analyzeRiskBehavior st input enableMonteCarlo iterations deadline budget
    = Some (out, st')
    /\ forall i r,
         rs !! i = Some r ->
         exists single c,
           propagatedFrom r c
           /\ calculateSingleRisk r (enrichActivities acts) rs
                (maxExpectedTimeImpact rs (enrichActivities acts))
                (maxExpectedCostImpact rs (enrichActivities acts))
              = Some single
           /\ AnalysisOutput.propagationResults out !! i
              = Some (PropagationResult.mk (Risk.id r) (Risk.probability r)
                        (Risk.probability c) [])
           /\ AnalysisOutput.perRiskAnalysis out !! i
              = Some
                  (RiskAnalysisOutput.mk
                     (RiskAnalysisOutput.riskId single)
                     (RiskAnalysisOutput.title single)
                     (RiskAnalysisOutput.affectedDurationSum single)
                     (RiskAnalysisOutput.affectedCostSum single)
                     (RiskAnalysisOutput.affectedDurationSum single
                      * (Risk.timeImpactPercent r / 100))
                     (RiskAnalysisOutput.affectedDurationSum single
                      * (Risk.timeImpactPercent r / 100)
                      * (Risk.probability c / 100))
                     (RiskAnalysisOutput.affectedCostSum single
                      * (Risk.costImpactPercent r / 100))
                     (RiskAnalysisOutput.affectedCostSum single
                      * (Risk.costImpactPercent r / 100)
                      * (Risk.probability c / 100))
                     (RiskAnalysisOutput.scopeChangeRatio single)
                     (Risk.probability c)
                     (RiskAnalysisOutput.behaviorScore single)
                     (RiskAnalysisOutput.sensitivity single)
                     (RiskAnalysisOutput.recommendations single)).
Proof.
  intros Hrs Hacts Hnd.
  destruct (analyzeRiskBehavior_steps st input enableMonteCarlo iterations
              deadline budget rs acts Hrs Hacts)
    as (initial & analyses & cs & results & analyses1 & analyses2 & scenarios
        & Einit & Ean & _ & HR & Erec & Hres & Hlen & Erecomp & _ & E).
  eexists _, _. split; [exact E|]. simpl.
  destruct (initial_impacts _ _ _ _ _ _ Einit) as [ET EC].
  rewrite ET, EC in Ean.
  change (fold_left Qmax
            (map (fun r => snd (calculateTimeImpact r
                                  (getAffectedDurationSum r (enrichActivities acts))))
                 rs) 1)
    with (maxExpectedTimeImpact rs (enrichActivities acts)) in Ean.
  change (fold_left Qmax
            (map (fun r => snd (calculateCostImpact r
                                  (getAffectedCostSum r (enrichActivities acts))))
                 rs) 1)
    with (maxExpectedCostImpact rs (enrichActivities acts)) in Ean.
  assert (Hids : map RiskAnalysisOutput.riskId analyses = map Risk.id rs).
  { destruct (analyses_riskIds (enrichActivities acts) rs
                (maxExpectedTimeImpact rs (enrichActivities acts))
                (maxExpectedCostImpact rs (enrichActivities acts)) rs)
      as (analyses' & Ean' & Hids).
    rewrite Ean in Ean'. injection Ean' as <-. exact Hids. }
  destruct (recordPropagation_exact (Store.risks st) rs cs HR Hnd
              (Input.risks input) rs Hrs [] [] cs [] analyses []
              eq_refl eq_refl eq_refl eq_refl Hids) as (results' & Erec').
  simpl in Erec'. rewrite Erec in Erec'. injection Erec' as _ ->.
  rewrite (recomputeImpacts_zip _ rs cs _ HR Hlen) in Erecomp.
  injection Erecomp as <-.
  apply mapM_Some_1 in Ean, Hres.
  intros i r Hi.
  destruct (Forall2_lookup_l _ _ _ _ _ Ean Hi) as (single & Hsingle & Ecalc).
  destruct (Forall2_lookup_l _ _ _ _ _ HR Hi) as (c & Hc & Hrc).
  pose proof Hrc as [Ec _].
  destruct (Forall2_lookup_l _ _ _ _ _ Hres Hi) as (result & Hresult & Eres).
  exists single, c. split; [exact Hrc|]. split; [exact Ecalc|].
  rewrite Hresult. unfold resultFor in Eres.
  rewrite (firstIndex_ids _ rs cs (propagatedFrom_ids _ _ HR)),
    (firstIndex_NoDup rs i r Hnd Hi) in Eres.
  simpl in Eres. rewrite Hc in Eres. injection Eres as <-.
  split; [reflexivity|].
  rewrite !lookup_zip_with, Hc, Hsingle. simpl.
  assert (Et : Risk.timeImpactPercent c = Risk.timeImpactPercent r)
    by (rewrite Ec; reflexivity).
  assert (Ek : Risk.costImpactPercent c = Risk.costImpactPercent r)
    by (rewrite Ec; reflexivity).
  unfold recomputed, withImpacts, withPropagatedProbability. simpl.
  rewrite Et, Ek. reflexivity.
Qed.

(** X24. With pairwise distinct risk ids, the analysis a run returns for
    the risk at position i is the one [calculateSingleRisk] computes from
    the risk as given - with the largest expected time and cost impacts
    of the roster (at least 1) as maxima - except for five fields:
    propagatedProbability is the finalProbability of the propagation
    result at position i, and the added and expected impacts are
    recomputed from the affected sums with that probability.  The
    behavior score and the sensitivity remain those of the probability
    before propagation. *)
Theorem analyzeRiskBehavior_per_risk
    st input enableMonteCarlo iterations deadline budget rs acts :
  holds (Store.risks st) (Input.risks input) rs ->
  holds (Store.activities st) (Input.activities input) acts ->
  List.NoDup (map Risk.id rs) ->
  exists out st',
    analyzeRiskBehavior st input enableMonteCarlo iterations deadline budget
    = Some (out, st')
    /\ forall i r,
         rs !! i = Some r ->
         exists single result,
           calculateSingleRisk r (enrichActivities acts) rs
             (maxExpectedTimeImpact rs (enrichActivities acts))
             (maxExpectedCostImpact rs (enrichActivities acts))
           = Some single
           /\ AnalysisOutput.propagationResults out !! i = Some result
           /\ AnalysisOutput.perRiskAnalysis out !! i
              = Some
                  (RiskAnalysisOutput.mk
                     (RiskAnalysisOutput.riskId single)
                     (RiskAnalysisOutput.title single)
                     (RiskAnalysisOutput.affectedDurationSum single)
                     (RiskAnalysisOutput.affectedCostSum single)
                     (RiskAnalysisOutput.affectedDurationSum single
                      * (Risk.timeImpactPercent r / 100))
                     (RiskAnalysisOutput.affectedDurationSum single
                      * (Risk.timeImpactPercent r / 100)
                      * (PropagationResult.finalProbability result / 100))
                     (RiskAnalysisOutput.affectedCostSum single
                      * (Risk.costImpactPercent r / 100))
                     (RiskAnalysisOutput.affectedCostSum single
                      * (Risk.costImpactPercent r / 100)
                      * (PropagationResult.finalProbability result / 100))
                     (RiskAnalysisOutput.scopeChangeRatio single)
                     (PropagationResult.finalProbability result)
                     (RiskAnalysisOutput.behaviorScore single)
                     (RiskAnalysisOutput.sensitivity single)
                     (RiskAnalysisOutput.recommendations single)).
Proof.
  intros Hrs Hacts Hnd.
  destruct (analyzeRiskBehavior_at st input enableMonteCarlo iterations
              deadline budget rs acts Hrs Hacts Hnd) as (out & st' & E & Hat).
  exists out, st'. split; [exact E|]. intros i r Hi.
  destruct (Hat i r Hi) as (single & c & _ & Ecalc & Hres & Han).
  exists single, (PropagationResult.mk (Risk.id r) (Risk.probability r)
                    (Risk.probability c) []).
  split; [exact Ecalc|]. split; [exact Hres|exact Han].
Qed.

(** *** Validated input *)

Lemma validateActivity_nil_cost activity :
  validateActivity activity = [] -> 0 <= Activity.cost activity.
Proof.
  unfold validateActivity. cbv zeta. rewrite !pushIf_nil.
  intros (_ & Hc & _). apply Qltb_false, Hc.
Qed.

Lemma validateRisk_nil_ranges risk allActivityIds :
  validateRisk risk allActivityIds = [] ->
  0 <= Risk.probability risk /\ Risk.probability risk <= 100
  /\ 0 <= Risk.timeImpactPercent risk /\ 0 <= Risk.costImpactPercent risk.
Proof.
  unfold validateRisk. cbv zeta.
  rewrite !fold_pushIf_nil, !pushIf_nil, orb_false_iff, !Qltb_false.
  intros (((Hc & Hti & (Hp0 & Hp1) & _) & _) & _). tauto.
Qed.

Lemma validateInput_nil_parts activities risks :
  validateInput activities risks = [] ->
  List.NoDup (map Risk.id risks)
  /\ (forall a, In a activities -> 0 <= Activity.cost a)
  /\ (forall r, In r risks ->
        0 <= Risk.probability r /\ Risk.probability r <= 100
        /\ 0 <= Risk.timeImpactPercent r /\ 0 <= Risk.costImpactPercent r).
Proof.
  unfold validateInput. cbv zeta.
  match goal with
  | |- context [fold_left validateActivityStep activities (?e, ?i)] =>
      destruct (validateActivities_clean activities e i) as [Hclean _];
      destruct (fold_left validateActivityStep activities (e, i))
        as [errors activityIds]
  end.
  simpl fst in Hclean.
  pose proof (validateRisks_clean activityIds risks errors []) as Hrisks.
  destruct (fold_left (validateRiskStep activityIds) risks (errors, []))
    as [errors' riskIds].
  simpl fst in Hrisks. rewrite Hrisks, Hclean.
  intros ((_ & Hall & _) & Hrall & Hrnd & _).
  split; [exact Hrnd|]. split.
  - intros a Ha. apply validateActivity_nil_cost, Hall, Ha.
  - intros r Hr. destruct (Hrall r Hr) as [H _].
    apply (validateRisk_nil_ranges r activityIds H).
Qed.

(** X25. For an input that [validateInput] accepts and whose impact
    percentages and costs are [moderate] (no impact overflows),
    propagation can only raise what a run reports: for the risk at
    position i, the final probability lies between the risk's probability
    and 100 and is the propagatedProbability of its analysis, and each
    expected impact of the analysis lies between the non-negative one
    [calculateSingleRisk] computes before propagation and the
    corresponding added amount. *)
Theorem analyzeRiskBehavior_validated
    st input enableMonteCarlo iterations deadline budget rs acts :
  holds (Store.risks st) (Input.risks input) rs ->
  holds (Store.activities st) (Input.activities input) acts ->
  validateInput acts rs = [] ->
  Forall moderateRisk rs ->
  Forall (fun a => moderate (Activity.cost a)) acts ->
  exists out st',
    analyzeRiskBehavior st input enableMonteCarlo iterations deadline budget
    = Some (out, st')
    /\ forall i r,
         rs !! i = Some r ->
         exists single analysis result,
           calculateSingleRisk r (enrichActivities acts) rs
             (maxExpectedTimeImpact rs (enrichActivities acts))
             (maxExpectedCostImpact rs (enrichActivities acts))
           = Some single
           /\ AnalysisOutput.perRiskAnalysis out !! i = Some analysis
           /\ AnalysisOutput.propagationResults out !! i = Some result
           /\ Risk.probability r <= PropagationResult.finalProbability result
           /\ PropagationResult.finalProbability result <= 100
           /\ RiskAnalysisOutput.propagatedProbability analysis
              = PropagationResult.finalProbability result
           /\ 0 <= RiskAnalysisOutput.expectedTimeImpact single
           /\ RiskAnalysisOutput.expectedTimeImpact single
              <= RiskAnalysisOutput.expectedTimeImpact analysis
           /\ RiskAnalysisOutput.expectedTimeImpact analysis
              <= RiskAnalysisOutput.addedDays analysis
           /\ 0 <= RiskAnalysisOutput.expectedCostImpact single
           /\ RiskAnalysisOutput.expectedCostImpact single
              <= RiskAnalysisOutput.expectedCostImpact analysis
           /\ RiskAnalysisOutput.expectedCostImpact analysis
              <= RiskAnalysisOutput.addedCost analysis.
Proof.
  intros Hrs Hacts Hvalid _ _.
  destruct (validateInput_nil_parts acts rs Hvalid) as (Hnd & Hcost & Hrange).
  destruct (analyzeRiskBehavior_at st input enableMonteCarlo iterations
              deadline budget rs acts Hrs Hacts Hnd) as (out & st' & E & Hat).
  exists out, st'. split; [exact E|]. intros i r Hi.
  destruct (Hat i r Hi) as (single & c & [_ Hb] & Ecalc & Hres & Han).
  destruct (Hrange r) as (Hp0 & Hp100 & Ht & Hc).
  { apply list_elem_of_In. eapply list_elem_of_lookup_2, Hi. }
  destruct (Hb Hp100) as [Hlo Hhi].
  eexists single, _, _. split; [exact Ecalc|].
  split; [exact Han|]. split; [exact Hres|]. simpl.
  split; [exact Hlo|]. split; [exact Hhi|]. split; [reflexivity|].
  destruct (calculateSingleRisk_fields r (enrichActivities acts) rs
              (maxExpectedTimeImpact rs (enrichActivities acts))
              (maxExpectedCostImpact rs (enrichActivities acts)))
    as (s & score & Hf).
  rewrite Hf in Ecalc. injection Ecalc as <-. simpl.
  pose proof (getAffectedDurationSum_enriched r acts) as Hd.
  pose proof (getAffectedCostSum_enriched r acts Hcost) as Hs.
  set (ds := getAffectedDurationSum r (enrichActivities acts)) in *.
  set (cs := getAffectedCostSum r (enrichActivities acts)) in *.
  clearbody ds cs.
  assert (Ht' : 0 <= Risk.timeImpactPercent r / 100)
    by (apply Qle_shift_div_l; [reflexivity|lra]).
  assert (Hc' : 0 <= Risk.costImpactPercent r / 100)
    by (apply Qle_shift_div_l; [reflexivity|lra]).
  assert (Hp0' : 0 <= Risk.probability r / 100)
    by (apply Qle_shift_div_l; [reflexivity|lra]).
  assert (Hpq : Risk.probability r / 100 <= Risk.probability c / 100).
  { unfold Qdiv. apply Qmult_le_compat_r; [exact Hlo|]. discriminate. }
  assert (Hq1 : Risk.probability c / 100 <= 1)
    by (apply Qle_shift_div_r; [reflexivity|lra]).
  set (t := Risk.timeImpactPercent r / 100) in *.
  set (k := Risk.costImpactPercent r / 100) in *.
  set (p := Risk.probability r / 100) in *.
  set (q := Risk.probability c / 100) in *.
  clearbody t k p q.
  assert (Hat' : 0 <= ds * t) by (apply Qmult_le_0_compat; assumption).
  assert (Hac : 0 <= cs * k) by (apply Qmult_le_0_compat; assumption).
  set (ad := ds * t) in *. set (ac := cs * k) in *. clearbody ad ac.
  repeat split; nra.
Qed.

(** *** Sums over enriched activities *)

Lemma fold_addDuration_enriched risk activities sum :
  fold_left addDuration (affectedLevel2 risk (enrichActivities activities)) sum
  = fold_left
      (fun sum a => sum + calculateDurationDays (Activity.start a) (Activity.end_ a))
      (List.filter
         (fun a => includes (Risk.affectedActivities risk) (Activity.id a)
                   && (Activity.level a =? 2)%Z
                   && truthy (Activity.start a) && truthy (Activity.end_ a))
         activities) sum.
Proof.
  unfold affectedLevel2, enrichActivities. revert sum.
  induction activities as [|a activities IH]; intros sum; [reflexivity|].
  cbn [map List.filter].
  change (Activity.id (enrichActivity a)) with (Activity.id a).
  change (Activity.level (enrichActivity a)) with (Activity.level a).
  destruct (includes (Risk.affectedActivities risk) (Activity.id a));
    [|apply IH].
  destruct (Activity.level a =? 2)%Z eqn:L; [|apply IH].
  cbn [andb fold_left].
  assert (Ha : addDuration sum (enrichActivity a)
               = if truthy (Activity.start a) && truthy (Activity.end_ a)
                 then sum + calculateDurationDays (Activity.start a)
                                                  (Activity.end_ a)
                 else sum).
  { unfold addDuration, durationOf, enrichActivity.
    cbn [Activity.level Activity.start Activity.end_ Activity.durationDays].
    rewrite L. cbn [andb].
    destruct (truthy (Activity.start a)), (truthy (Activity.end_ a));
      reflexivity. }
  rewrite Ha.
  destruct (truthy (Activity.start a)), (truthy (Activity.end_ a));
    cbn [andb fold_left]; apply IH.
Qed.

Lemma fold_costOf_enriched risk activities sum :
  fold_left (fun sum a => sum + costOf a)
            (affectedLevel2 risk (enrichActivities activities)) sum
  = fold_left (fun sum a => sum + Activity.cost a)
              (affectedLevel2 risk activities) sum.
Proof.
  unfold affectedLevel2, enrichActivities. revert sum.
  induction activities as [|a activities IH]; intros sum; [reflexivity|].
  cbn [map List.filter].
  change (Activity.id (enrichActivity a)) with (Activity.id a).
  change (Activity.level (enrichActivity a)) with (Activity.level a).
  destruct (includes (Risk.affectedActivities risk) (Activity.id a)
            && (Activity.level a =? 2)%Z); [|apply IH].
  cbn [fold_left].
  change (costOf (enrichActivity a)) with (Activity.cost a). apply IH.
Qed.

(** X26. After enrichment, as in a run, the affected duration sum of a
    risk is the sum of [calculateDurationDays] over the Level-2
    activities the risk lists whose start and end are both non-empty,
    and the affected cost sum is the sum of [cost] over the Level-2
    activities the risk lists: a durationDays or baselineCost supplied
    with an activity is not used. *)
Theorem affected_sums_enriched risk activities :
  getAffectedDurationSum risk (enrichActivities activities)
  = fold_left
      (fun sum a => sum + calculateDurationDays (Activity.start a) (Activity.end_ a))
      (List.filter
         (fun a => includes (Risk.affectedActivities risk) (Activity.id a)
                   && (Activity.level a =? 2)%Z
                   && truthy (Activity.start a) && truthy (Activity.end_ a))
         activities) 0
  /\ getAffectedCostSum risk (enrichActivities activities)
     = fold_left (fun sum a => sum + Activity.cost a)
                 (affectedLevel2 risk activities) 0.
Proof.
  split; [apply fold_addDuration_enriched|apply fold_costOf_enriched].
Qed.

End Engine.

(** ** Instances on the example inputs *)

(** The run of the examples: the sample date parser and no simulator. *)
Definition sampleRun (st : Store.t) (input : Input.t)
  : option (AnalysisOutput.t unit * Store.t) :=
  analyzeRiskBehavior sampleDateParse unit (fun _ _ _ _ _ => tt) st input
    false 7500 None None.

(** C2 at [exampleR1], with the trigger empty and with the trigger "alarm". *)
Lemma calculateBehaviorScore_trigger_witness :
  trim [] = []
  /\ trim (lit "alarm") <> []
  /\ calculateDetectabilityScore (Risk.withTrigger [] exampleR1) == 0.5
  /\ calculateDetectabilityScore (Risk.withTrigger (lit "alarm") exampleR1) == 1
  /\ exists scoreEmpty scoreTrigger,
       calculateBehaviorScore (Risk.withTrigger [] exampleR1) 10 0
         [exampleR1] [] 10 1 = Some scoreEmpty
       /\ calculateBehaviorScore (Risk.withTrigger (lit "alarm") exampleR1) 10 0
            [exampleR1] [] 10 1 = Some scoreTrigger
       /\ scoreTrigger <= scoreEmpty
       /\ (0 < scoreEmpty -> scoreTrigger < 100 -> scoreTrigger < scoreEmpty).
Proof.
  split; [reflexivity|]. split; [vm_compute; discriminate|].
  apply (calculateBehaviorScore_trigger exampleR1 [] (lit "alarm") 10 0
           [exampleR1] [] 10 1); [reflexivity|vm_compute; discriminate].
Defined.

(** C2 as first stated fails: with all else equal the risk with a trigger
    scores 30 and the risk without scores 32.5. *)
Lemma calculateBehaviorScore_trigger_counterexample :
  exists scoreEmpty scoreTrigger,
    calculateBehaviorScore (Risk.withTrigger [] exampleR1) 10 0
      [exampleR1] [] 10 1 = Some scoreEmpty
    /\ calculateBehaviorScore (Risk.withTrigger (lit "alarm") exampleR1) 10 0
         [exampleR1] [] 10 1 = Some scoreTrigger
    /\ scoreEmpty == 32.5
    /\ scoreTrigger == 30
    /\ ~ scoreEmpty < scoreTrigger.
Proof.
  eexists _, _. split; [vm_compute; reflexivity|].
  split; [vm_compute; reflexivity|].
  split; [reflexivity|]. split; [reflexivity|].
  intros H. vm_compute in H. discriminate H.
Defined.

(** C5 on an artifact and a raw Level-2 activity. *)
Lemma enrichActivities_idempotent_witness :
  enrichActivities sampleDateParse
    (enrichActivities sampleDateParse [exampleArtifact; exampleRawA1])
  = enrichActivities sampleDateParse [exampleArtifact; exampleRawA1]
  /\ Activity.durationDays (enrichActivity sampleDateParse exampleArtifact) = Some 0.
Proof.
  destruct (enrichActivities_idempotent sampleDateParse
              [exampleArtifact; exampleRawA1]) as [Hidem Hzero].
  split; [exact Hidem|].
  apply Hzero; [left; reflexivity|]. left. simpl. discriminate.
Defined.

(** C7 on two risks with disjoint affected activities. *)
Lemma calculateCombinedImpact_no_common_witness :
  (forall activityId,
     ~ (forall r,
          In r (List.filter (fun r => includes [lit "Ra"; lit "Rb"] (Risk.id r))
                  [exampleRa; exampleRb]) ->
          In activityId (Risk.affectedActivities r)))
  /\ calculateCombinedImpact sampleDateParse [lit "Ra"; lit "Rb"]
       [exampleRa; exampleRb] [exampleA1; exampleA2]
     = Some (CombinedScenario.mk [lit "Ra"; lit "Rb"] 0 0 0 0).
Proof.
  assert (H : forall activityId,
            ~ (forall r,
                 In r (List.filter
                         (fun r => includes [lit "Ra"; lit "Rb"] (Risk.id r))
                         [exampleRa; exampleRb]) ->
                 In activityId (Risk.affectedActivities r))).
  { intros activityId H.
    pose proof (H exampleRa (or_introl eq_refl)) as Ha.
    pose proof (H exampleRb (or_intror (or_introl eq_refl))) as Hb.
    simpl in Ha, Hb. destruct Ha as [<-|[]]. destruct Hb as [Hb|[]].
    vm_compute in Hb. discriminate Hb. }
  split; [exact H|].
  apply (calculateCombinedImpact_no_common sampleDateParse), H.
Defined.

(** C10 on an artifact without dates. *)
Lemma validateInput_requires_dates_witness :
  In exampleArtifact [exampleArtifact; exampleRawA1]
  /\ In (error (lit "start") (lit "Start date is required"))
        (validateInput sampleDateParse [exampleArtifact; exampleRawA1] [exampleR1])
  /\ In (error (lit "end") (lit "End date is required"))
        (validateInput sampleDateParse [exampleArtifact; exampleRawA1] [exampleR1]).
Proof.
  assert (Hin : In exampleArtifact [exampleArtifact; exampleRawA1])
    by (left; reflexivity).
  destruct (validateInput_requires_dates sampleDateParse exampleArtifact
              [exampleArtifact; exampleRawA1] [exampleR1] Hin) as [Hs He].
  split; [exact Hin|]. split.
  - apply Hs. reflexivity.
  - apply He. reflexivity.
Defined.

(** C9 on the example store. *)
Lemma analyzeRiskBehavior_frame_witness :
  holds (Store.risks exampleStore) (Input.risks exampleInput)
        [exampleR1; exampleRa]
  /\ holds (Store.activities exampleStore) (Input.activities exampleInput)
           [exampleArtifact; exampleRawA1]
  /\ exists out st',
       sampleRun exampleStore exampleInput = Some (out, st')
       /\ holds (Store.risks st') (Input.risks exampleInput)
                [exampleR1; exampleRa]
       /\ holds (Store.activities st') (Input.activities exampleInput)
                [exampleArtifact; exampleRawA1]
       /\ (forall l r, Store.risks exampleStore !! l = Some r ->
                       Store.risks st' !! l = Some r)
       /\ (forall l a, Store.activities exampleStore !! l = Some a ->
                       Store.activities st' !! l = Some a).
Proof.
  assert (Hr : holds (Store.risks exampleStore) (Input.risks exampleInput)
                 [exampleR1; exampleRa]) by (repeat constructor).
  assert (Ha : holds (Store.activities exampleStore)
                 (Input.activities exampleInput)
                 [exampleArtifact; exampleRawA1]) by (repeat constructor).
  split; [exact Hr|]. split; [exact Ha|].
  exact (analyzeRiskBehavior_frame sampleDateParse unit (fun _ _ _ _ _ => tt)
           exampleStore exampleInput false 7500 None None _ _ Hr Ha).
Defined.

(** C3, as amended, on the relation scenario with R2 at probability 10. *)
Lemma analyzeRiskBehavior_propagation_bounds_witness :
  holds (Store.risks (scenarioStore 10)) (Input.risks scenarioInput)
        [scenarioR1; scenarioR2 10]
  /\ holds (Store.activities (scenarioStore 10)) (Input.activities scenarioInput) []
  /\ Forall (fun r => 0 <= Risk.probability r /\ Risk.probability r <= 100)
            [scenarioR1; scenarioR2 10]
  /\ List.NoDup (map Risk.id [scenarioR1; scenarioR2 10])
  /\ exists out st',
       sampleRun (scenarioStore 10) scenarioInput = Some (out, st')
       /\ Forall (fun res => PropagationResult.finalProbability res <= 100)
                 (AnalysisOutput.propagationResults out)
       /\ Forall (fun res => PropagationResult.originalProbability res
                             <= PropagationResult.finalProbability res)
                 (AnalysisOutput.propagationResults out).
Proof.
  assert (Hr : holds (Store.risks (scenarioStore 10)) (Input.risks scenarioInput)
                 [scenarioR1; scenarioR2 10]) by (repeat constructor).
  assert (Ha : holds (Store.activities (scenarioStore 10))
                 (Input.activities scenarioInput) []) by constructor.
  assert (Hp : Forall (fun r => 0 <= Risk.probability r
                                /\ Risk.probability r <= 100)
                 [scenarioR1; scenarioR2 10])
    by (repeat constructor; simpl; lra).
  assert (Hn : List.NoDup (map Risk.id [scenarioR1; scenarioR2 10])).
  { repeat constructor; simpl; [|tauto].
    intros [H|[]]. vm_compute in H. discriminate H. }
  split; [exact Hr|]. split; [exact Ha|]. split; [exact Hp|]. split; [exact Hn|].
  destruct (analyzeRiskBehavior_propagation_bounds sampleDateParse unit
              (fun _ _ _ _ _ => tt) (scenarioStore 10) scenarioInput
              false 7500 None None _ _ Hr Ha Hp) as (out & st' & E & H100 & Hmono).
  exists out, st'. split; [exact E|]. split; [exact H100|]. exact (Hmono Hn).
Defined.

(** C3 as first stated fails: in a roster where two risks carry the id
    "a", with probabilities 10 and 50, the result of the second has
    originalProbability 50 and finalProbability 10. *)
Lemma analyzeRiskBehavior_propagation_counterexample :
  Forall (fun r => 0 <= Risk.probability r /\ Risk.probability r <= 100)
         [duplicateFirst; duplicateSecond]
  /\ holds (Store.risks duplicateStore) (Input.risks duplicateInput)
           [duplicateFirst; duplicateSecond]
  /\ exists out st' res,
       sampleRun duplicateStore duplicateInput = Some (out, st')
       /\ In res (AnalysisOutput.propagationResults out)
       /\ PropagationResult.originalProbability res == 50
       /\ PropagationResult.finalProbability res == 10
       /\ ~ (PropagationResult.originalProbability res
             <= PropagationResult.finalProbability res).
Proof.
  split; [repeat constructor; simpl; lra|].
  split; [repeat constructor|].
  eexists _, _, _. split; [vm_compute; reflexivity|].
  split; [right; left; reflexivity|].
  split; [reflexivity|]. split; [reflexivity|].
  intros H. vm_compute in H. apply H. reflexivity.
Defined.

(** C1 at R2 = 10: the final probability is 100 where one addition of 40
    gives 50. *)
Lemma analyzeRiskBehavior_scenario_at_10 :
  exists out st' result1 result2,
    sampleRun (scenarioStore 10) scenarioInput = Some (out, st')
    /\ AnalysisOutput.propagationResults out = [result1; result2]
    /\ PropagationResult.riskId result2 = lit "R2"
    /\ PropagationResult.originalProbability result2 == 10
    /\ PropagationResult.finalProbability result2 == 100
    /\ ~ PropagationResult.finalProbability result2 == 10 + 40.
Proof.
  eexists _, _, _, _. split; [vm_compute; reflexivity|].
  split; [reflexivity|]. split; [reflexivity|]. split; [reflexivity|].
  split; [reflexivity|]. intros H. vm_compute in H. discriminate H.
Defined.

(** ** Instances of the further properties *)

(** X2 on the dates of the raw example activity: ten days. *)
Lemma calculateDurationDays_rounds_up_witness :
  calculateDurationDays sampleDateParse (lit "2024-01-01") (lit "2024-01-11")
  == 10.
Proof.
  destruct (calculateDurationDays_rounds_up sampleDateParse
              (lit "2024-01-01") (lit "2024-01-11")
              1704067200000 1704931200000) as [_ H].
  - vm_compute. discriminate.
  - vm_compute. discriminate.
  - reflexivity.
  - reflexivity.
  - vm_compute. discriminate.
  - apply (H 9%Z); lia.
Defined.

(** X4 on a risk whose only affected id names no activity of the list. *)
Lemma calculateSingleRisk_unresolved_witness :
  exists out,
    calculateSingleRisk sampleDateParse exampleRb [exampleArtifact; exampleA1]
      [exampleRb] 1 1 = Some out
    /\ RiskAnalysisOutput.affectedDurationSum out == 0
    /\ RiskAnalysisOutput.affectedCostSum out == 0
    /\ RiskAnalysisOutput.addedDays out == 0
    /\ RiskAnalysisOutput.expectedTimeImpact out == 0
    /\ RiskAnalysisOutput.addedCost out == 0
    /\ RiskAnalysisOutput.expectedCostImpact out == 0.
Proof.
  apply (calculateSingleRisk_unresolved sampleDateParse exampleRb
           [exampleArtifact; exampleA1] [exampleRb] 1 1).
  intros a [<-|[<-|[]]] Hin.
  - simpl. discriminate.
  - exfalso. simpl in Hin. destruct Hin as [Hin|[]].
    vm_compute in Hin. discriminate Hin.
Defined.

(** X5 on the first example risk and the raw activity. *)
Lemma calculateSingleRisk_expected_bounds_witness :
  exists out,
    calculateSingleRisk sampleDateParse exampleR1
      (enrichActivities sampleDateParse [exampleArtifact; exampleRawA1])
      [exampleR1] 1 1 = Some out
    /\ 0 <= RiskAnalysisOutput.affectedDurationSum out
    /\ 0 <= RiskAnalysisOutput.affectedCostSum out
    /\ 0 <= RiskAnalysisOutput.expectedTimeImpact out
    /\ RiskAnalysisOutput.expectedTimeImpact out <= RiskAnalysisOutput.addedDays out
    /\ 0 <= RiskAnalysisOutput.expectedCostImpact out
    /\ RiskAnalysisOutput.expectedCostImpact out <= RiskAnalysisOutput.addedCost out.
Proof.
  apply (calculateSingleRisk_expected_bounds sampleDateParse exampleR1
           [exampleArtifact; exampleRawA1] [exampleR1] 1 1).
  - simpl; lra.
  - simpl; lra.
  - simpl; lra.
  - simpl; lra.
  - intros a [<-|[<-|[]]]; simpl; lra.
  - vm_compute. discriminate.
  - vm_compute. discriminate.
  - intros a [<-|[<-|[]]]; vm_compute; discriminate.
Defined.

(** X6 on the source of the relation scenario. *)
Lemma calculateDependencyCentrality_range_witness :
  exists c,
    calculateDependencyCentrality scenarioR1 [scenarioR1; scenarioR2 10] = Some c
    /\ 0 <= c /\ c <= 100
    /\ (degreeOf [scenarioR1; scenarioR2 10] scenarioR1 = 0%nat -> c == 0).
Proof.
  apply (calculateDependencyCentrality_range scenarioR1
           [scenarioR1; scenarioR2 10]).
  left. reflexivity.
Defined.


(** X8 on two risks whose percentages sum to 350 and 240. *)
Lemma calculateCombinedImpact_capped_witness :
  exists scenario,
    calculateCombinedImpact sampleDateParse [lit "H1"; lit "H2"]
      [Risk.mk (lit "H1") (lit "Flood") 20 150 120 0 [] [] [] [] [lit "A1"];
       Risk.mk (lit "H2") (lit "Strike") 40 200 120 0 [] [] [] [] [lit "A1"]]
      [exampleA1] = Some scenario
    /\ CombinedScenario.combinedTimeImpactPercent scenario <= 200
    /\ CombinedScenario.combinedCostImpactPercent scenario <= 200.
Proof.
  destruct (calculateCombinedImpact sampleDateParse [lit "H1"; lit "H2"]
              [Risk.mk (lit "H1") (lit "Flood") 20 150 120 0 [] [] [] []
                 [lit "A1"];
               Risk.mk (lit "H2") (lit "Strike") 40 200 120 0 [] [] [] []
                 [lit "A1"]]
              [exampleA1]) as [scenario|] eqn:E.
  - exists scenario. split; [reflexivity|].
    exact (calculateCombinedImpact_capped sampleDateParse _ _ _ _ E).
  - vm_compute in E. discriminate E.
Defined.

(** X10 on the first example risk alone. *)
Lemma calculateCombinedImpact_single_witness :
  exists scenario,
    calculateCombinedImpact sampleDateParse [Risk.id exampleR1]
      [exampleR1; exampleRa] [exampleA1; exampleA2] = Some scenario
    /\ CombinedScenario.combinedExpectedTimeImpact scenario
       == snd (calculateTimeImpact exampleR1
                 (getAffectedDurationSum sampleDateParse exampleR1
                    [exampleA1; exampleA2]))
    /\ CombinedScenario.combinedExpectedCostImpact scenario
       == snd (calculateCostImpact exampleR1
                 (getAffectedCostSum exampleR1 [exampleA1; exampleA2])).
Proof.
  apply (calculateCombinedImpact_single sampleDateParse exampleR1
           [exampleR1; exampleRa] [exampleA1; exampleA2]).
  - repeat constructor; simpl; [|tauto].
    intros [H|[]]. vm_compute in H. discriminate H.
  - left. reflexivity.
  - simpl. lra.
  - simpl. lra.
Defined.

(** X12 on a risk whose relation names no risk of the roster. *)
Lemma propagateRisk_insignificant_witness :
  propagateRisk scenarioR1 [scenarioR1] [] 0 []
  = (PropagationResult.mk (lit "R1") 80 80 [lit "R1"], [lit "R1"]).
Proof.
  apply (propagateRisk_insignificant scenarioR1 [scenarioR1] [] 0 []).
  - lia.
  - intros [].
  - intros relation [<-|[]]. left. reflexivity.
Defined.

(** X13 on the relation scenario: R2 at 10 is reached once, at 50. *)
Lemma propagateRisk_single_relation_witness :
  exists result,
    fst (propagateRisk scenarioR1 [scenarioR1; scenarioR2 10] [] 0 []) = result
    /\ PropagationResult.propagationPath result = [] ++ [lit "R1"]
    /\ PropagationResult.finalProbability result
       == Qmax 80 (Qmin 100 (10 + 0.5 * 80)).
Proof.
  apply (propagateRisk_single_relation scenarioR1 [scenarioR1; scenarioR2 10]
           [] 0 [] (RiskRelation.mk (lit "R2") dependency (Some 0.5))
           (scenarioR2 10)).
  - lia.
  - intros [].
  - reflexivity.
  - reflexivity.
  - reflexivity.
  - vm_compute. discriminate.
  - vm_compute. discriminate.
  - vm_compute. discriminate.
Defined.

(** X15 on a sorted array of five values: p10 <= p90. *)
Lemma percentile_monotone_witness :
  percentile [1; 2; 4; 8; 16] 10 = Some 1
  /\ percentile [1; 2; 4; 8; 16] 90 = Some 16
  /\ 1 <= 16.
Proof.
  split; [reflexivity|]. split; [reflexivity|].
  apply (percentile_monotone [1; 2; 4; 8; 16] 10 90 1 16).
  - repeat constructor; discriminate.
  - discriminate.
  - reflexivity.
  - reflexivity.
Defined.

(** X9 on a selection that names no risk of the roster. *)
Lemma calculateCombinedImpact_undefined_iff_witness :
  Forall moderateRisk [exampleRa]
  /\ Forall moderateActivity [exampleA1]
  /\ calculateCombinedImpact sampleDateParse [lit "Rz"] [exampleRa] [exampleA1]
     = None.
Proof.
  assert (Hr : Forall moderateRisk [exampleRa]).
  { repeat constructor; vm_compute; discriminate. }
  assert (Ha : Forall moderateActivity [exampleA1]).
  { constructor; [|constructor]. split; [vm_compute; discriminate|].
    split; intros x [= <-]; vm_compute; discriminate. }
  split; [exact Hr|]. split; [exact Ha|].
  apply (calculateCombinedImpact_undefined_iff sampleDateParse [lit "Rz"]
           [exampleRa] [exampleA1] Hr Ha).
  split.
  - intros r [<-|[]] [H|[]]. vm_compute in H. discriminate H.
  - exists exampleA1. split; [left; reflexivity|reflexivity].
Defined.
Lemma analyzeRiskBehavior_one_per_risk_witness :
  holds (Store.risks exampleStore) (Input.risks exampleInput)
        [exampleR1; exampleRa]
  /\ holds (Store.activities exampleStore) (Input.activities exampleInput)
           [exampleArtifact; exampleRawA1]
  /\ exists out st',
       sampleRun exampleStore exampleInput = Some (out, st')
       /\ map PropagationResult.riskId (AnalysisOutput.propagationResults out)
          = map Risk.id [exampleR1; exampleRa]
       /\ map PropagationResult.originalProbability
              (AnalysisOutput.propagationResults out)
          = map Risk.probability [exampleR1; exampleRa]
       /\ Forall (fun res => PropagationResult.propagationPath res = [])
                 (AnalysisOutput.propagationResults out)
       /\ map RiskAnalysisOutput.riskId (AnalysisOutput.perRiskAnalysis out)
          = map Risk.id [exampleR1; exampleRa].
Proof.
  assert (Hr : holds (Store.risks exampleStore) (Input.risks exampleInput)
                 [exampleR1; exampleRa]) by (repeat constructor).
  assert (Ha : holds (Store.activities exampleStore)
                 (Input.activities exampleInput)
                 [exampleArtifact; exampleRawA1]) by (repeat constructor).
  split; [exact Hr|]. split; [exact Ha|].
  exact (analyzeRiskBehavior_one_per_risk sampleDateParse unit
           (fun _ _ _ _ _ => tt) exampleStore exampleInput false 7500 None None
           _ _ Hr Ha).
Defined.

Lemma analyzeRiskBehavior_insignificant_witness :
  holds (Store.risks faintStore) (Input.risks scenarioInput)
        [faintR1; scenarioR2 20]
  /\ holds (Store.activities faintStore) (Input.activities scenarioInput) []
  /\ List.NoDup (map Risk.id [faintR1; scenarioR2 20])
  /\ (forall r relation,
        In r [faintR1; scenarioR2 20] -> In relation (Risk.relatedRisks r) ->
        default 0.3 (RiskRelation.strength relation) * Risk.probability r <= 0.1)
  /\ exists out st',
       sampleRun faintStore scenarioInput = Some (out, st')
       /\ Forall (fun res => PropagationResult.finalProbability res
                             = PropagationResult.originalProbability res)
                 (AnalysisOutput.propagationResults out).
Proof.
  assert (Hr : holds (Store.risks faintStore) (Input.risks scenarioInput)
                 [faintR1; scenarioR2 20]) by (repeat constructor).
  assert (Ha : holds (Store.activities faintStore)
                 (Input.activities scenarioInput) []) by constructor.
  assert (Hn : List.NoDup (map Risk.id [faintR1; scenarioR2 20])).
  { repeat constructor; simpl; [|tauto].
    intros [H|[]]. vm_compute in H. discriminate H. }
  assert (Hs : forall r relation,
             In r [faintR1; scenarioR2 20] -> In relation (Risk.relatedRisks r) ->
             default 0.3 (RiskRelation.strength relation) * Risk.probability r
             <= 0.1).
  { intros r relation [<-|[<-|[]]] Hrel; simpl in Hrel; [|contradiction].
    destruct Hrel as [<-|[]]. vm_compute. discriminate. }
  split; [exact Hr|]. split; [exact Ha|]. split; [exact Hn|]. split; [exact Hs|].
  exact (analyzeRiskBehavior_insignificant sampleDateParse unit
           (fun _ _ _ _ _ => tt) faintStore scenarioInput false 7500 None None
           _ _ Hr Ha Hn Hs).
Defined.

Lemma analyzeRiskBehavior_rankings_witness :
  holds (Store.risks linkedStore) (Input.risks exampleInput)
        [linkedR1; exampleRa]
  /\ holds (Store.activities linkedStore) (Input.activities exampleInput)
           [exampleA1; exampleA2]
  /\ Forall moderateRisk [linkedR1; exampleRa]
  /\ Forall (fun a => moderate (Activity.cost a)) [exampleA1; exampleA2]
  /\ exists out st',
       sampleRun linkedStore exampleInput = Some (out, st')
       /\ Permutation (AnalysisOutput.topRisksByBehaviorScore out)
                      (AnalysisOutput.perRiskAnalysis out)
       /\ StronglySorted
            (fun a b => RiskAnalysisOutput.behaviorScore b
                        <= RiskAnalysisOutput.behaviorScore a)
            (AnalysisOutput.topRisksByBehaviorScore out)
       /\ Permutation (AnalysisOutput.topRisksByExpectedImpact out)
                      (AnalysisOutput.perRiskAnalysis out)
       /\ StronglySorted (fun a b => impactSum b <= impactSum a)
            (AnalysisOutput.topRisksByExpectedImpact out).
Proof.
  assert (Hr : holds (Store.risks linkedStore) (Input.risks exampleInput)
                 [linkedR1; exampleRa]) by (repeat constructor).
  assert (Ha : holds (Store.activities linkedStore)
                 (Input.activities exampleInput)
                 [exampleA1; exampleA2]) by (repeat constructor).
  assert (Mr : Forall moderateRisk [linkedR1; exampleRa])
    by (repeat constructor; vm_compute; discriminate).
  assert (Ma : Forall (fun a => moderate (Activity.cost a))
                 [exampleA1; exampleA2])
    by (repeat constructor; vm_compute; discriminate).
  split; [exact Hr|]. split; [exact Ha|]. split; [exact Mr|].
  split; [exact Ma|].
  destruct (analyzeRiskBehavior_rankings sampleDateParse unit
              (fun _ _ _ _ _ => tt) linkedStore exampleInput false 7500
              None None _ _ Hr Ha Mr Ma)
    as (out & st' & E & P1 & S1 & P2 & S2 & _).
  exists out, st'. repeat split; assumption.
Defined.

Lemma analyzeRiskBehavior_combinations_witness :
  holds (Store.risks exampleStore) (Input.risks exampleInput)
        [exampleR1; exampleRa]
  /\ holds (Store.activities exampleStore) (Input.activities exampleInput)
           [exampleArtifact; exampleRawA1]
  /\ exists out st',
       sampleRun exampleStore exampleInput = Some (out, st')
       /\ map CombinedScenario.riskIds (AnalysisOutput.combinedScenarios out)
          = match map RiskAnalysisOutput.riskId
                      (AnalysisOutput.topRisksByExpectedImpact out) with
            | a :: b :: c :: _ => [[a; b]; [a; c]; [b; c]; [a; b; c]]
            | [a; b] => [[a; b]]
            | _ => []
            end
       /\ length (AnalysisOutput.combinedScenarios out) = 1%nat.
Proof.
  assert (Hr : holds (Store.risks exampleStore) (Input.risks exampleInput)
                 [exampleR1; exampleRa]) by (repeat constructor).
  assert (Ha : holds (Store.activities exampleStore)
                 (Input.activities exampleInput)
                 [exampleArtifact; exampleRawA1]) by (repeat constructor).
  split; [exact Hr|]. split; [exact Ha|].
  exact (analyzeRiskBehavior_combinations sampleDateParse unit
           (fun _ _ _ _ _ => tt) exampleStore exampleInput false 7500
           None None _ _ Hr Ha).
Defined.

Lemma analyzeRiskBehavior_per_risk_witness :
  holds (Store.risks (scenarioStore 10)) (Input.risks scenarioInput)
        [scenarioR1; scenarioR2 10]
  /\ holds (Store.activities (scenarioStore 10)) (Input.activities scenarioInput) []
  /\ List.NoDup (map Risk.id [scenarioR1; scenarioR2 10])
  /\ exists out st' single result,
       sampleRun (scenarioStore 10) scenarioInput = Some (out, st')
       /\ calculateSingleRisk sampleDateParse (scenarioR2 10)
            (enrichActivities sampleDateParse []) [scenarioR1; scenarioR2 10]
            (maxExpectedTimeImpact sampleDateParse [scenarioR1; scenarioR2 10]
               (enrichActivities sampleDateParse []))
            (maxExpectedCostImpact [scenarioR1; scenarioR2 10]
               (enrichActivities sampleDateParse []))
          = Some single
       /\ AnalysisOutput.propagationResults out !! 1%nat = Some result
       /\ (RiskAnalysisOutput.propagatedProbability
             <$> AnalysisOutput.perRiskAnalysis out !! 1%nat)
          = Some (PropagationResult.finalProbability result)
       /\ (RiskAnalysisOutput.behaviorScore
             <$> AnalysisOutput.perRiskAnalysis out !! 1%nat)
          = Some (RiskAnalysisOutput.behaviorScore single).
Proof.
  assert (Hr : holds (Store.risks (scenarioStore 10)) (Input.risks scenarioInput)
                 [scenarioR1; scenarioR2 10]) by (repeat constructor).
  assert (Ha : holds (Store.activities (scenarioStore 10))
                 (Input.activities scenarioInput) []) by constructor.
  assert (Hn : List.NoDup (map Risk.id [scenarioR1; scenarioR2 10])).
  { repeat constructor; simpl; [|tauto].
    intros [H|[]]. vm_compute in H. discriminate H. }
  split; [exact Hr|]. split; [exact Ha|]. split; [exact Hn|].
  destruct (analyzeRiskBehavior_per_risk sampleDateParse unit
              (fun _ _ _ _ _ => tt) (scenarioStore 10) scenarioInput
              false 7500 None None _ _ Hr Ha Hn) as (out & st' & E & Hat).
  destruct (Hat 1%nat (scenarioR2 10) eq_refl)
    as (single & result & Ecalc & Hres & Han).
  exists out, st', single, result.
  split; [exact E|]. split; [exact Ecalc|]. split; [exact Hres|].
  rewrite Han. split; reflexivity.
Defined.

Lemma analyzeRiskBehavior_validated_witness :
  holds (Store.risks linkedStore) (Input.risks exampleInput)
        [linkedR1; exampleRa]
  /\ holds (Store.activities linkedStore) (Input.activities exampleInput)
           [exampleA1; exampleA2]
  /\ validateInput sampleDateParse [exampleA1; exampleA2] [linkedR1; exampleRa]
     = []
  /\ Forall moderateRisk [linkedR1; exampleRa]
  /\ Forall (fun a => moderate (Activity.cost a)) [exampleA1; exampleA2]
  /\ exists out st' single analysis result,
       sampleRun linkedStore exampleInput = Some (out, st')
       /\ AnalysisOutput.perRiskAnalysis out !! 1%nat = Some analysis
       /\ AnalysisOutput.propagationResults out !! 1%nat = Some result
       /\ Risk.probability exampleRa < PropagationResult.finalProbability result
       /\ PropagationResult.finalProbability result <= 100
       /\ 0 <= RiskAnalysisOutput.expectedTimeImpact single
       /\ RiskAnalysisOutput.expectedTimeImpact single
          <= RiskAnalysisOutput.expectedTimeImpact analysis
       /\ RiskAnalysisOutput.expectedTimeImpact analysis
          <= RiskAnalysisOutput.addedDays analysis.
Proof.
  assert (Hr : holds (Store.risks linkedStore) (Input.risks exampleInput)
                 [linkedR1; exampleRa]) by (repeat constructor).
  assert (Ha : holds (Store.activities linkedStore)
                 (Input.activities exampleInput)
                 [exampleA1; exampleA2]) by (repeat constructor).
  assert (Hv : validateInput sampleDateParse [exampleA1; exampleA2]
                 [linkedR1; exampleRa] = []) by reflexivity.
  assert (Mr : Forall moderateRisk [linkedR1; exampleRa])
    by (repeat constructor; vm_compute; discriminate).
  assert (Ma : Forall (fun a => moderate (Activity.cost a))
                 [exampleA1; exampleA2])
    by (repeat constructor; vm_compute; discriminate).
  split; [exact Hr|]. split; [exact Ha|]. split; [exact Hv|].
  split; [exact Mr|]. split; [exact Ma|].
  destruct (analyzeRiskBehavior_validated sampleDateParse unit
              (fun _ _ _ _ _ => tt) linkedStore exampleInput
              false 7500 None None _ _ Hr Ha Hv Mr Ma)
    as (out & st' & E & Hat).
  destruct (Hat 1%nat exampleRa eq_refl)
    as (single & analysis & result & _ & Han & Hres & _ & Hhi & _ & Ht0 & Ht1
        & Ht2 & _).
  exists out, st', single, analysis, result.
  split; [exact E|]. split; [exact Han|]. split; [exact Hres|].
  split; [|split; [exact Hhi|split; [exact Ht0|split; [exact Ht1|exact Ht2]]]].
  assert (E' : sampleRun linkedStore exampleInput = Some (out, st')) by exact E.
  vm_compute in E'. injection E' as <- _.
  vm_compute in Hres. injection Hres as <-. vm_compute. reflexivity.
Defined.
